(** * c9ai: the natural-language command router, verified against its design notes

    The development embeds the decision logic of the [C9AI] class
    (command router, conversational classifier, fallback pattern resolver,
    intent executor, local-model supervisor and application-mapping cache)
    and states the documented properties over that embedding.

    Strings.  A JavaScript string is a sequence of UTF-16 code units.  The
    model uses Rocq's [string], one [ascii] per code unit, and therefore
    covers the inputs whose code units lie in U+0000..U+00FF (Latin-1).  On
    that range [toLowerCase], [trim] and the regular-expression classes
    [\s], [\w], [.] are written out exactly as ECMAScript defines them. *)

From Stdlib Require Import String Ascii List Bool Arith Lia.
From Equations Require Import Equations.
From stdpp Require Import gmap strings.
Import ListNotations.

#[global] Arguments String.append !s1 s2 /.

(** ** JavaScript string primitives used by the router *)

Module JsString.

Definition code (c : ascii) : nat := nat_of_ascii c.

(** Code units with a distinct lower-case form in U+0000..U+00FF:
    [A-Z] and U+00C0..U+00DE except the multiplication sign U+00D7. *)
Definition isUpper (c : ascii) : bool :=
  let n := code c in
  ((65 <=? n) && (n <=? 90)) || ((192 <=? n) && (n <=? 222) && negb (n =? 215)).

Definition lowerChar (c : ascii) : ascii :=
  if isUpper c then ascii_of_nat (code c + 32) else c.

(** [String.prototype.toLowerCase] *)
Fixpoint toLowerCase (s : string) : string :=
  match s with
  | EmptyString => EmptyString
  | String c s' => String (lowerChar c) (toLowerCase s')
  end.

(** ECMAScript WhiteSpace and LineTerminator code units below U+0100:
    TAB, LF, VT, FF, CR, SPACE, NBSP. *)
Definition isWhiteSpace (c : ascii) : bool :=
  let n := code c in
  ((9 <=? n) && (n <=? 13)) || (n =? 32) || (n =? 160).

Definition isLineTerminator (c : ascii) : bool :=
  let n := code c in (n =? 10) || (n =? 13).

(** [\w] is [A-Za-z0-9_]. *)
Definition isWordChar (c : ascii) : bool :=
  let n := code c in
  ((48 <=? n) && (n <=? 57)) || ((65 <=? n) && (n <=? 90))
  || ((97 <=? n) && (n <=? 122)) || (n =? 95).

Fixpoint trimStart (s : string) : string :=
  match s with
  | EmptyString => EmptyString
  | String c s' => if isWhiteSpace c then trimStart s' else s
  end.

Fixpoint trimEnd (s : string) : string :=
  match s with
  | EmptyString => EmptyString
  | String c s' =>
      match trimEnd s' with
      | EmptyString => if isWhiteSpace c then EmptyString else String c EmptyString
      | t => String c t
      end
  end.

(** [String.prototype.trim] *)
Definition trim (s : string) : string := trimEnd (trimStart s).

(** [s.startsWith(p)] *)
Definition startsWith (p s : string) : bool := String.prefix p s.

(** [s.includes(sub)] *)
Fixpoint includes (sub s : string) : bool :=
  String.prefix sub s ||
  match s with
  | EmptyString => false
  | String _ s' => includes sub s'
  end.

(** [s.endsWith(suf)] *)
Fixpoint endsWith (suf s : string) : bool :=
  String.eqb suf s ||
  match s with
  | EmptyString => false
  | String _ s' => endsWith suf s'
  end.

(** [s.substring(n)] with one argument: the code units from index [n] on. *)
Fixpoint substring (n : nat) (s : string) : string :=
  match n, s with
  | 0, _ => s
  | S n', String _ s' => substring n' s'
  | S _, EmptyString => EmptyString
  end.

(** [s.substring(0, n)] *)
Fixpoint take (n : nat) (s : string) : string :=
  match n, s with
  | S n', String c s' => String c (take n' s')
  | _, _ => EmptyString
  end.

(** [s.split(' ')]: always a non-empty array; consecutive separators
    give empty fields. *)
Fixpoint split (sep : ascii) (s : string) : list string :=
  match s with
  | EmptyString => [EmptyString]
  | String c s' =>
      if Ascii.eqb c sep then EmptyString :: split sep s'
      else match split sep s' with
           | h :: t => String c h :: t
           | [] => [String c EmptyString]
           end
  end.

(** [arr.join(sep)] *)
Fixpoint join (sep : string) (l : list string) : string :=
  match l with
  | [] => EmptyString
  | [x] => x
  | x :: rest => x +:+ sep +:+ join sep rest
  end.

(** The double quote and the line feed, for building message texts. *)
Definition dquote : string := String (ascii_of_nat 34) EmptyString.
Definition nl : string := String (ascii_of_nat 10) EmptyString.
Definition quoted (s : string) : string := dquote +:+ s +:+ dquote.

(** A stand-in for [path.join] on two plain segments, for examples. *)
Definition joinWithSlash (a b : string) : string := a +:+ "/" +:+ b.

(** Truthiness of a string value: non-empty. *)
Definition truthy (s : string) : bool := negb (String.eqb s EmptyString).

End JsString.

(** Facts about the string primitives. *)

Module JsStringFacts.
Import JsString.

Lemma append_assoc (a b c : string) : (a +:+ b) +:+ c = a +:+ (b +:+ c).
Proof. induction a as [|x a IH]; simpl; [reflexivity | f_equal; exact IH]. Qed.

Lemma prefix_split p : forall s, String.prefix p s = true -> exists b, s = p +:+ b.
Proof.
  induction p as [|c p IH]; intros s H.
  - exists s; reflexivity.
  - destruct s as [|d s]; simpl in H; [discriminate |].
    destruct (ascii_dec c d) as [->|]; [| discriminate].
    apply IH in H as [b ->]. exists b; reflexivity.
Qed.

Lemma prefix_append p b : String.prefix p (p +:+ b) = true.
Proof.
  induction p as [|c p IH]; simpl; [destruct b; reflexivity |].
  destruct (ascii_dec c c); [exact IH | congruence].
Qed.

Lemma includes_unfold sub s :
  includes sub s =
  String.prefix sub s ||
  match s with EmptyString => false | String _ s' => includes sub s' end.
Proof. destruct s; reflexivity. Qed.

Lemma includes_split sub : forall s,
  includes sub s = true -> exists a b, s = a +:+ sub +:+ b.
Proof.
  induction s as [|c s IH]; rewrite includes_unfold; intros H;
    apply orb_true_iff in H as [H|H].
  - apply prefix_split in H as [b ->]. exists EmptyString, b; reflexivity.
  - discriminate.
  - apply prefix_split in H as [b Hb]. exists EmptyString, b; exact Hb.
  - apply IH in H as (a & b & ->). exists (String c a), b; reflexivity.
Qed.

Lemma includes_append sub b : forall a, includes sub (a +:+ sub +:+ b) = true.
Proof.
  induction a as [|c a IH].
  - rewrite includes_unfold. simpl. rewrite prefix_append. reflexivity.
  - rewrite includes_unfold. simpl. rewrite IH. apply orb_true_r.
Qed.

Lemma toLowerCase_append a b :
  toLowerCase (a +:+ b) = toLowerCase a +:+ toLowerCase b.
Proof. induction a as [|c a IH]; simpl; [reflexivity | f_equal; exact IH]. Qed.

Lemma toLowerCase_length s : String.length (toLowerCase s) = String.length s.
Proof. induction s as [|c s IH]; simpl; [reflexivity | f_equal; exact IH]. Qed.

Lemma isWhiteSpace_lowerChar c : isWhiteSpace (lowerChar c) = isWhiteSpace c.
Proof. destruct c as [[] [] [] [] [] [] [] []]; vm_compute; reflexivity. Qed.

Lemma trimStart_toLowerCase s : trimStart (toLowerCase s) = toLowerCase (trimStart s).
Proof.
  induction s as [|c s IH]; simpl; [reflexivity |].
  rewrite isWhiteSpace_lowerChar. destruct (isWhiteSpace c); [exact IH | reflexivity].
Qed.

Lemma trimEnd_toLowerCase s : trimEnd (toLowerCase s) = toLowerCase (trimEnd s).
Proof.
  induction s as [|c s IH]; simpl; [reflexivity |].
  rewrite IH, isWhiteSpace_lowerChar.
  destruct (trimEnd s); simpl; [destruct (isWhiteSpace c) |]; reflexivity.
Qed.

(** Lower-casing and trimming commute, so the classifier's [lower] has
    the length of the trimmed input. *)
Lemma trim_toLowerCase_length s :
  String.length (trim (toLowerCase s)) = String.length (trim s).
Proof.
  unfold trim. rewrite trimStart_toLowerCase, trimEnd_toLowerCase.
  apply toLowerCase_length.
Qed.

End JsStringFacts.

(** ** A backtracking matcher for the regular expressions of the source

    The patterns of [isConversationalInput] and [runPatternMatchingAI] are
    written as [regex] terms and run by [run], a continuation-passing
    backtracking matcher that tries alternatives in ECMAScript's priority
    order (left alternative first, greedy or lazy repetition as written). *)

Module Regex.
Import JsString.

Inductive regex : Type :=
| Eps                                   (* empty pattern *)
| Chr (p : ascii -> bool)               (* one code unit in a class *)
| Bol                                   (* ^ (no m flag) *)
| Eol                                   (* $ (no m flag) *)
| WordB                                 (* \b *)
| Seq (r1 r2 : regex)
| Alt (r1 r2 : regex)
| Star (greedy : bool) (r : regex)      (* r* and r*? *)
| Group (i : nat) (r : regex).          (* i-th capturing parenthesis *)

(** Matcher state: the code unit just before the current position (none
    at index 0), the input still to read, and the captures so far. *)
Record mstate : Type := MState {
  prev : option ascii;
  rest : string;
  caps : list (nat * string)
}.

Definition wordBefore (st : mstate) : bool :=
  match prev st with Some c => isWordChar c | None => false end.

Definition wordAfter (st : mstate) : bool :=
  match rest st with String c _ => isWordChar c | EmptyString => false end.

(** What was read between two states of the same run. *)
Definition consumed (st st' : mstate) : string :=
  take (String.length (rest st) - String.length (rest st')) (rest st).

Definition orElse {A} (x : option A) (y : unit -> option A) : option A :=
  match x with Some v => Some v | None => y tt end.

(** The repetition loop of [r*] (greedy) and [r*?] (lazy) over a matcher
    [body] for one iteration.  An iteration that reads nothing is
    rejected, so [n] iterations need at most [n] code units of input. *)
Fixpoint star_loop (body : mstate -> (mstate -> option mstate) -> option mstate)
  (g : bool) (k : mstate -> option mstate) (n : nat) (st : mstate)
  {struct n} : option mstate :=
  match n with
  | 0 => k st
  | S n' =>
      let again (_ : unit) :=
        body st (fun st' =>
          if String.length (rest st') <? String.length (rest st)
          then star_loop body g k n' st' else None) in
      if g then orElse (again tt) (fun _ => k st)
      else orElse (k st) again
  end.

Fixpoint run (r : regex) (st : mstate) (k : mstate -> option mstate)
  {struct r} : option mstate :=
  match r with
  | Eps => k st
  | Chr p =>
      match rest st with
      | String c s' => if p c then k (MState (Some c) s' (caps st)) else None
      | EmptyString => None
      end
  | Bol => match prev st with None => k st | Some _ => None end
  | Eol => match rest st with EmptyString => k st | String _ _ => None end
  | WordB => if xorb (wordBefore st) (wordAfter st) then k st else None
  | Seq r1 r2 => run r1 st (fun st' => run r2 st' k)
  | Alt r1 r2 => orElse (run r1 st k) (fun _ => run r2 st k)
  | Star g r1 => star_loop (run r1) g k (S (String.length (rest st))) st
  | Group i r1 =>
      run r1 st (fun st' =>
        k (MState (prev st') (rest st') ((i, consumed st st') :: caps st')))
  end.

(** Unanchored search: the leftmost start position that matches. *)
Fixpoint slide (r : regex) (p : option ascii) (s : string) : option mstate :=
  orElse (run r (MState p s []) Some)
    (fun _ => match s with
              | String c s' => slide r (Some c) s'
              | EmptyString => None
              end).

(** [re.exec(s)] / [s.match(re)] without the g flag. *)
Definition exec (r : regex) (s : string) : option mstate := slide r None s.

(** [re.test(s)] *)
Definition test (r : regex) (s : string) : bool :=
  match exec r s with Some _ => true | None => false end.

(** [m[i]] of a match result; [None] stands for [undefined]. *)
Fixpoint capture (i : nat) (cs : list (nat * string)) : option string :=
  match cs with
  | [] => None
  | (j, v) :: cs' => if Nat.eqb i j then Some v else capture i cs'
  end.

(** *** Pattern syntax *)

Fixpoint lit (w : string) : regex :=
  match w with
  | EmptyString => Eps
  | String c w' => Seq (Chr (Ascii.eqb c)) (lit w')
  end.

(** A literal under the [i] flag; [w] is written in lower case.  Only the
    ASCII letters fold onto ASCII letters. *)
Definition asciiLower (c : ascii) : ascii :=
  let n := code c in
  if (65 <=? n) && (n <=? 90) then ascii_of_nat (n + 32) else c.

Fixpoint liti (w : string) : regex :=
  match w with
  | EmptyString => Eps
  | String c w' => Seq (Chr (fun x => Ascii.eqb c (asciiLower x))) (liti w')
  end.

Definition dot : regex := Chr (fun c => negb (isLineTerminator c)).   (* . *)
Definition ws : regex := Chr isWhiteSpace.                            (* \s *)
Definition plus (g : bool) (r : regex) : regex := Seq r (Star g r).   (* r+ / r+? *)
Definition opt (r : regex) : regex := Alt r Eps.                      (* r? *)

(** [w1|w2|...|wn] *)
Fixpoint alts (r : regex) (rs : list regex) : regex :=
  match rs with
  | [] => r
  | r' :: rs' => Alt r (alts r' rs')
  end.

Definition words (w : string) (wl : list string) : regex :=
  alts (lit w) (map lit wl).

(** *** Declarative meaning of a pattern, and agreement of [run] with it *)

Inductive Matches : regex -> mstate -> mstate -> Prop :=
| MEps st : Matches Eps st st
| MChr p c s' st :
    rest st = String c s' -> p c = true ->
    Matches (Chr p) st (MState (Some c) s' (caps st))
| MBol st : prev st = None -> Matches Bol st st
| MEol st : rest st = EmptyString -> Matches Eol st st
| MWordB st : xorb (wordBefore st) (wordAfter st) = true -> Matches WordB st st
| MSeq r1 r2 st st1 st2 :
    Matches r1 st st1 -> Matches r2 st1 st2 -> Matches (Seq r1 r2) st st2
| MAltL r1 r2 st st' : Matches r1 st st' -> Matches (Alt r1 r2) st st'
| MAltR r1 r2 st st' : Matches r2 st st' -> Matches (Alt r1 r2) st st'
| MStarNil g r st : Matches (Star g r) st st
| MStarCons g r st st1 st2 :
    Matches r st st1 ->
    String.length (rest st1) < String.length (rest st) ->
    Matches (Star g r) st1 st2 ->
    Matches (Star g r) st st2
| MGroup i r st st' :
    Matches r st st' ->
    Matches (Group i r) st
      (MState (prev st') (rest st') ((i, consumed st st') :: caps st')).

Create HintDb regex.
#[export] Hint Constructors Matches : regex.

Lemma orElse_Some {A} (x : option A) y v :
  orElse x y = Some v -> x = Some v \/ (x = None /\ y tt = Some v).
Proof. destruct x; simpl; intros H; [left | right]; auto. Qed.

Lemma orElse_is_Some {A} (x : option A) y :
  is_Some x \/ is_Some (y tt) -> is_Some (orElse x y).
Proof.
  destruct x as [v|]; simpl; [eauto |].
  intros [[v Hv]|H]; [discriminate | exact H].
Qed.

Section StarLoop.
Variable body : mstate -> (mstate -> option mstate) -> option mstate.
Variable r : regex.
Hypothesis body_sound : forall st k x,
  body st k = Some x -> exists st', Matches r st st' /\ k st' = Some x.
Hypothesis body_complete : forall st st' k,
  Matches r st st' -> is_Some (k st') -> is_Some (body st k).

Lemma star_loop_sound g k n : forall st x,
  star_loop body g k n st = Some x ->
  exists st', Matches (Star g r) st st' /\ k st' = Some x.
Proof.
  induction n as [|n IH]; intros st x H; simpl in H.
  - exists st; split; [constructor | exact H].
  - assert (Hagain : forall y,
      body st (fun st' =>
        if String.length (rest st') <? String.length (rest st)
        then star_loop body g k n st' else None) = Some y ->
      exists st', Matches (Star g r) st st' /\ k st' = Some y).
    { intros y Hy. apply body_sound in Hy as (st1 & M1 & K1).
      destruct (String.length (rest st1) <? String.length (rest st)) eqn:L;
        [| discriminate].
      apply Nat.ltb_lt in L. apply IH in K1 as (st2 & M2 & K2).
      exists st2; split; [econstructor; eauto | exact K2]. }
    destruct g; apply orElse_Some in H as [H | [_ H]]; auto;
      exists st; split; auto; constructor.
Qed.

Lemma star_loop_complete g k n : forall st st',
  String.length (rest st) < n ->
  Matches (Star g r) st st' -> is_Some (k st') ->
  is_Some (star_loop body g k n st).
Proof.
  induction n as [|n IH]; intros st st' Hn M K; [lia |].
  simpl. inversion M; subst.
  - destruct g; apply orElse_is_Some; auto.
  - assert (is_Some (body st (fun st'0 =>
        if String.length (rest st'0) <? String.length (rest st)
        then star_loop body g k n st'0 else None))) as Hagain.
    { eapply body_complete; [eassumption |].
      destruct (Nat.ltb_spec (String.length (rest st1)) (String.length (rest st)));
        [| lia].
      eapply IH; eauto. lia. }
    destruct g; apply orElse_is_Some; auto.
Qed.
End StarLoop.

(** Whatever [run] returns comes from a declarative match ... *)
Lemma run_sound r : forall st k x,
  run r st k = Some x -> exists st', Matches r st st' /\ k st' = Some x.
Proof.
  induction r as [| p | | | | r1 IH1 r2 IH2 | r1 IH1 r2 IH2 | g r1 IH1 | i r1 IH1];
    intros st k x H; cbn [run] in H.
  - exists st; split; [constructor | exact H].
  - destruct (rest st) as [|c s'] eqn:E; [discriminate |].
    destruct (p c) eqn:Ep; [| discriminate].
    eexists; split; [econstructor; eassumption | exact H].
  - destruct (prev st) eqn:E; [discriminate |].
    exists st; split; [constructor; assumption | exact H].
  - destruct (rest st) eqn:E; [| discriminate].
    exists st; split; [constructor; assumption | exact H].
  - destruct (xorb _ _) eqn:E; [| discriminate].
    exists st; split; [constructor; assumption | exact H].
  - apply IH1 in H as (st1 & M1 & H). apply IH2 in H as (st2 & M2 & H).
    exists st2; split; [econstructor; eassumption | exact H].
  - apply orElse_Some in H as [H | [_ H]];
      [apply IH1 in H | apply IH2 in H]; destruct H as (st' & M & H);
      exists st'; split; auto with regex.
  - eapply star_loop_sound; eauto.
  - apply IH1 in H as (st1 & M1 & H).
    eexists; split; [econstructor; eassumption | exact H].
Qed.

(** ... and every declarative match that the continuation accepts makes
    [run] succeed. *)
Lemma run_complete r : forall st st' k,
  Matches r st st' -> is_Some (k st') -> is_Some (run r st k).
Proof.
  induction r as [| p | | | | r1 IH1 r2 IH2 | r1 IH1 r2 IH2 | g r1 IH1 | i r1 IH1];
    intros st st' k M K; cbn [run].
  - inversion M; subst; auto.
  - inversion M as [| p' c s' st0 Hrest Hp | | | | | | | | |]; subst.
    rewrite Hrest, Hp. exact K.
  - inversion M as [| | st0 Hp | | | | | | | |]; subst. rewrite Hp. exact K.
  - inversion M as [| | | st0 Hr | | | | | | |]; subst. rewrite Hr. exact K.
  - inversion M as [| | | | st0 Hx | | | | | |]; subst. rewrite Hx. exact K.
  - inversion M; subst. eapply IH1; eauto.
  - apply orElse_is_Some. inversion M; subst; eauto.
  - eapply star_loop_complete; eauto.
  - inversion M; subst. eapply IH1; eauto.
Qed.

(** *** Search and literals *)

(** The code unit before position [|a|] of [a ++ b], given the one
    before [a]. *)
Fixpoint lastOf (p : option ascii) (a : string) : option ascii :=
  match a with
  | EmptyString => p
  | String c a' => lastOf (Some c) a'
  end.

Lemma slide_intro r st' : forall a p b,
  Matches r (MState (lastOf p a) b []) st' ->
  is_Some (slide r p (a +:+ b)).
Proof.
  induction a as [|c a IH]; intros p b M.
  - destruct b; simpl; apply orElse_is_Some; left;
      (eapply run_complete; [exact M | eauto]).
  - simpl. apply orElse_is_Some. right. apply IH. exact M.
Qed.

Lemma test_intro r a b st' :
  Matches r (MState (lastOf None a) b []) st' -> test r (a +:+ b) = true.
Proof.
  intros M. unfold test, exec.
  destruct (slide_intro r st' a None b M) as [x ->]. reflexivity.
Qed.

Lemma slide_elim r : forall s p x,
  slide r p s = Some x ->
  exists a b st', s = a +:+ b /\ Matches r (MState (lastOf p a) b []) st'.
Proof.
  induction s as [|c s IH]; intros p x H; simpl in H;
    apply orElse_Some in H as [H | [_ H]]; try discriminate.
  - apply run_sound in H as (st' & M & _). exists EmptyString, EmptyString, st'. auto.
  - apply run_sound in H as (st' & M & _). exists EmptyString, (String c s), st'. auto.
  - apply IH in H as (a & b & st' & -> & M). exists (String c a), b, st'. auto.
Qed.

(** A pattern that starts with [^] can only match at index 0. *)
Lemma slide_Bol_later r : forall s c, slide (Seq Bol r) (Some c) s = None.
Proof. induction s as [|d s IH]; intros c; simpl; auto. Qed.

Lemma test_Bol_elim r s :
  test (Seq Bol r) s = true -> exists st', Matches r (MState None s []) st'.
Proof.
  unfold test, exec. destruct (slide _ _ _) as [x|] eqn:H; [intros _ | discriminate].
  destruct s as [|c s]; simpl in H; apply orElse_Some in H as [H | [_ H]];
    try discriminate; try (rewrite slide_Bol_later in H; discriminate);
    apply run_sound in H as (st' & M & _); exists st'; exact M.
Qed.

Lemma Matches_lit w : forall p b cs,
  Matches (lit w) (MState p (w +:+ b) cs) (MState (lastOf p w) b cs).
Proof.
  induction w as [|c w IH]; intros p b cs; simpl; [constructor |].
  econstructor; [| apply IH].
  apply (MChr _ c (w +:+ b) (MState p (String c (w +:+ b)) cs)); simpl; auto.
  apply Ascii.eqb_refl.
Qed.

Lemma Matches_lit_inv w : forall st st',
  Matches (lit w) st st' -> rest st = w +:+ rest st'.
Proof.
  induction w as [|c w IH]; intros st st' M; simpl in M.
  - inversion M; subst; reflexivity.
  - inversion M as [| | | | | r1 r2 st0 st1 st2 M1 M2 | | | | |]; subst.
    inversion M1 as [| p' d s' st0 Hrest Hp | | | | | | | | |]; subst.
    apply Ascii.eqb_eq in Hp. subst d. apply IH in M2. simpl in *.
    rewrite Hrest, M2. reflexivity.
Qed.

Lemma Matches_alts r0 : forall r rs st st',
  In r0 (r :: rs) -> Matches r0 st st' -> Matches (alts r rs) st st'.
Proof.
  intros r rs; revert r; induction rs as [|r' rs IH]; intros r st st' [->|Hin] M; simpl.
  - exact M.
  - destruct Hin.
  - apply MAltL, M.
  - apply MAltR, IH; auto.
Qed.

Lemma Matches_alts_inv : forall rs r st st',
  Matches (alts r rs) st st' -> exists r0, In r0 (r :: rs) /\ Matches r0 st st'.
Proof.
  induction rs as [|r' rs IH]; intros r st st' M; simpl in M.
  - exists r; simpl; auto.
  - inversion M; subst.
    + exists r; simpl; auto.
    + match goal with H : Matches (alts _ _) _ _ |- _ => apply IH in H as (r0 & Hin & M0) end.
      exists r0; split; [right; exact Hin | exact M0].
Qed.

Lemma Matches_words w0 w wl p b cs :
  In w0 (w :: wl) ->
  Matches (words w wl) (MState p (w0 +:+ b) cs) (MState (lastOf p w0) b cs).
Proof.
  intros Hin. unfold words.
  apply Matches_alts with (r0 := lit w0); [| apply Matches_lit].
  change (lit w :: map lit wl) with (map lit (w :: wl)). apply in_map, Hin.
Qed.

Lemma Matches_words_inv w wl st st' :
  Matches (words w wl) st st' ->
  exists w0, In w0 (w :: wl) /\ rest st = w0 +:+ rest st'.
Proof.
  intros M. apply Matches_alts_inv in M as (r0 & Hin & M).
  change (lit w :: map lit wl) with (map lit (w :: wl)) in Hin.
  apply in_map_iff in Hin as (w0 & <- & Hin).
  exists w0; split; [exact Hin | apply Matches_lit_inv, M].
Qed.

(** [.*] can read any run of code units without a line terminator. *)
Lemma Matches_star_dot g mid : forall p b cs,
  forallb (fun c => negb (isLineTerminator c)) (list_ascii_of_string mid) = true ->
  Matches (Star g dot) (MState p (mid +:+ b) cs) (MState (lastOf p mid) b cs).
Proof.
  induction mid as [|c mid IH]; intros p b cs H; simpl in *; [constructor |].
  apply andb_true_iff in H as [Hc Hmid].
  eapply MStarCons; [| | apply IH; exact Hmid].
  - apply (MChr _ c (mid +:+ b) (MState p (String c (mid +:+ b)) cs)); auto.
  - simpl. lia.
Qed.

Lemma test_prefix_words W WL w s :
  In w (W :: WL) -> String.prefix w s = true ->
  test (Seq Bol (Group 1 (words W WL))) s = true.
Proof.
  intros Hin H. apply JsStringFacts.prefix_split in H as [b ->].
  apply (test_intro _ EmptyString (w +:+ b)
           (MState (lastOf None w) b
              [(1, consumed (MState None (w +:+ b) []) (MState (lastOf None w) b []))])).
  econstructor; [constructor; reflexivity |].
  apply (MGroup 1 _ (MState None (w +:+ b) []) (MState (lastOf None w) b [])).
  apply Matches_words, Hin.
Qed.

Lemma test_includes_group r u s :
  (forall p b, exists st', Matches r (MState p (u +:+ b) []) st') ->
  includes u s = true -> test (Group 1 r) s = true.
Proof.
  intros Hr H. apply JsStringFacts.includes_split in H as (a & b & ->).
  destruct (Hr (lastOf None a) b) as [st' M].
  eapply test_intro. apply MGroup. exact M.
Qed.

Lemma test_includes_words W WL w s :
  In w (W :: WL) -> includes w s = true -> test (Group 1 (words W WL)) s = true.
Proof.
  intros Hin. apply test_includes_group. intros p b.
  eexists. apply Matches_words, Hin.
Qed.

(** [u.*v] finds [u], then [mid] on one line, then [v]. *)
Lemma Matches_gap u mid v p b :
  forallb (fun c => negb (isLineTerminator c)) (list_ascii_of_string mid) = true ->
  exists st',
    Matches (Seq (lit u) (Seq (Star true dot) (lit v)))
      (MState p ((u +:+ mid +:+ v) +:+ b) []) st'.
Proof.
  intros Hmid. eexists.
  rewrite !JsStringFacts.append_assoc.
  econstructor; [apply Matches_lit |].
  econstructor; [apply Matches_star_dot, Hmid | apply Matches_lit].
Qed.

End Regex.


(** ** The conversational / actionable classifier ([isConversationalInput]) *)

Module Classifier.
Import JsString Regex.

(** [conversationalPatterns], in source order. *)
Definition conversationalPatterns : list regex := [
  (* /^(hi|hello|hey|good morning|good afternoon|good evening)/ *)
  Seq Bol (Group 1 (words "hi" ["hello"; "hey"; "good morning"; "good afternoon"; "good evening"]));
  (* /^(how are you|what's up|what can you do)/ *)
  Seq Bol (Group 1 (words "how are you" ["what's up"; "what can you do"]));
  (* /^(thanks|thank you|goodbye|bye)/ *)
  Seq Bol (Group 1 (words "thanks" ["thank you"; "goodbye"; "bye"]));
  (* /^(who are you|what are you)/ *)
  Seq Bol (Group 1 (words "who are you" ["what are you"]));
  (* /^(please|can you|could you|would you)/ *)
  Seq Bol (Group 1 (words "please" ["can you"; "could you"; "would you"]));
  (* /^(tell me|explain|describe)/ *)
  Seq Bol (Group 1 (words "tell me" ["explain"; "describe"]));
  (* /^(what do you think|do you like|do you know)/ *)
  Seq Bol (Group 1 (words "what do you think" ["do you like"; "do you know"]));
  (* /will you.*\?$/ *)
  Seq (lit "will you") (Seq (Star true dot) (Seq (lit "?") Eol));
  (* /can you.*\?$/ *)
  Seq (lit "can you") (Seq (Star true dot) (Seq (lit "?") Eol));
  (* /do you.*\?$/ *)
  Seq (lit "do you") (Seq (Star true dot) (Seq (lit "?") Eol));
  (* /are you.*\?$/ *)
  Seq (lit "are you") (Seq (Star true dot) (Seq (lit "?") Eol));
  (* /\?(.*conversational|chat|talk|discuss)/ *)
  Seq (lit "?")
      (Group 1 (alts (Seq (Star true dot) (lit "conversational"))
                     [lit "chat"; lit "talk"; lit "discuss"]))
].

(** [commandPatterns], in source order. *)
Definition commandPatterns : list regex := [
  (* /^(open|launch|start|run)/ *)
  Seq Bol (Group 1 (words "open" ["launch"; "start"; "run"]));
  (* /^(list|show|display)/ *)
  Seq Bol (Group 1 (words "list" ["show"; "display"]));
  (* /^(check|verify|test)/ *)
  Seq Bol (Group 1 (words "check" ["verify"; "test"]));
  (* /^(search|find|look)/ *)
  Seq Bol (Group 1 (words "search" ["find"; "look"]));
  (* /^(create|make|build)/ *)
  Seq Bol (Group 1 (words "create" ["make"; "build"]));
  (* /^(delete|remove|close)/ *)
  Seq Bol (Group 1 (words "delete" ["remove"; "close"]));
  (* /^(compile|execute|install)/ *)
  Seq Bol (Group 1 (words "compile" ["execute"; "install"]));
  (* /(disk.*usage|space)/ *)
  Group 1 (Alt (Seq (lit "disk") (Seq (Star true dot) (lit "usage"))) (lit "space"));
  (* /(git.*status)/ *)
  Group 1 (Seq (lit "git") (Seq (Star true dot) (lit "status")));
  (* /(process|file|directory)/ *)
  Group 1 (words "process" ["file"; "directory"])
].

(** [patterns.some(pattern => pattern.test(lower))] *)
Definition some (patterns : list regex) (lower : string) : bool :=
  existsb (fun pattern => test pattern lower) patterns.

(* /\b(what|why|how|when|where|who|which)\b/ *)
Definition questionWords : regex :=
  Seq WordB (Seq (Group 1 (words "what" ["why"; "how"; "when"; "where"; "who"; "which"])) WordB).

(* /\b(generally|really|actually|maybe|perhaps|think|feel|believe)\b/ *)
Definition conversationalWords : regex :=
  Seq WordB (Seq (Group 1 (words "generally"
    ["really"; "actually"; "maybe"; "perhaps"; "think"; "feel"; "believe"])) WordB).

(* /\b(usage|status|files|directory|process|disk|space)\b/ *)
Definition commandKeywords : regex :=
  Seq WordB (Seq (Group 1 (words "usage"
    ["status"; "files"; "directory"; "process"; "disk"; "space"])) WordB).

Definition isConversationalInput (input : string) : bool :=
  let lower := trim (toLowerCase input) in
  (* Check if it's clearly a command *)
  if some commandPatterns lower then false
  (* Check if it's clearly conversational *)
  else if some conversationalPatterns lower then true
  else
    (* Heuristics for ambiguous cases *)
    let hasQuestionWords := test questionWords lower in
    let hasQuestionMark := includes "?" input in
    let hasConversationalWords := test conversationalWords lower in
    let hasCommandKeywords := test commandKeywords lower in
    if hasQuestionWords && hasQuestionMark && negb hasCommandKeywords then true
    else if hasConversationalWords then true
    (* Default: if it's a question or very short, treat as conversational *)
    else hasQuestionMark || (String.length lower <? 15).

(** The router treats an input as actionable when the classifier does
    not call it conversational (the [else] branch of [handleCommand]). *)
Definition isActionable (input : string) : bool := negb (isConversationalInput input).

End Classifier.

(** ** Properties of the classifier *)

Module ClassifierFacts.
Import JsString Regex Classifier.

Lemma some_nth ps i r s :
  nth_error ps i = Some r -> test r s = true -> some ps s = true.
Proof.
  intros Hn Ht. apply existsb_exists. exists r; split; [| exact Ht].
  eapply nth_error_In, Hn.
Qed.

(** The command-intent vocabulary as the design notes list it: the
    leading verbs, and the phrases and nouns that may occur anywhere. *)
Definition leadingVerbs : list string :=
  ["open"; "launch"; "list"; "show"; "check"; "search"; "create"; "delete";
   "compile"; "execute"; "install"].

Definition commandNouns : list string := ["process"; "file"; "directory"].

Definition documentedCommandIntent (lower : string) : bool :=
  existsb (fun w => startsWith w lower) leadingVerbs
  || includes "disk usage" lower
  || includes "git status" lower
  || existsb (fun w => includes w lower) commandNouns.

Ltac pattern_at i H :=
  apply (some_nth commandPatterns i _ _ eq_refl);
  solve [ eapply test_prefix_words; [| exact H]; simpl; tauto ].

Ltac pick_pattern H :=
  first [ pattern_at 0 H | pattern_at 1 H | pattern_at 2 H | pattern_at 3 H
        | pattern_at 4 H | pattern_at 5 H | pattern_at 6 H ].

Lemma documented_intent_hits_commandPatterns lower :
  documentedCommandIntent lower = true -> some commandPatterns lower = true.
Proof.
  unfold documentedCommandIntent. rewrite !orb_true_iff.
  intros [[[H | H] | H] | H].
  - apply existsb_exists in H as (w & Hin & H). unfold startsWith in H.
    unfold leadingVerbs in Hin. simpl in Hin.
    repeat (destruct Hin as [<- | Hin]; [pick_pattern H |]). destruct Hin.
  - apply (some_nth commandPatterns 7 _ _ eq_refl).
    apply (test_includes_group _ "disk usage"); [| exact H].
    intros p b. destruct (Matches_gap "disk" " " "usage" p b eq_refl) as [st' M].
    exists st'. apply MAltL. exact M.
  - apply (some_nth commandPatterns 8 _ _ eq_refl).
    apply (test_includes_group _ "git status"); [| exact H].
    intros p b. exact (Matches_gap "git" " " "status" p b eq_refl).
  - apply existsb_exists in H as (w & Hin & H).
    apply (some_nth commandPatterns 9 _ _ eq_refl).
    eapply test_includes_words; [| exact H]. exact Hin.
Qed.

(** C1.  Every input whose lower-cased, trimmed text starts with one of
    the documented command verbs, or mentions "disk usage", "git status"
    or one of the nouns process / file / directory (or, more generally,
    matches any of the command patterns), is classified as actionable:
    [isConversationalInput] returns [false], whatever conversational
    markers the input also contains, because the command patterns are
    tested before every conversational rule. *)
Theorem command_intent_is_actionable (input : string) :
  documentedCommandIntent (trim (toLowerCase input)) = true \/
  some commandPatterns (trim (toLowerCase input)) = true ->
  isActionable input = true /\ isConversationalInput input = false.
Proof.
  intros [H | H]; [apply documented_intent_hits_commandPatterns in H |];
    unfold isActionable, isConversationalInput; rewrite H; split; reflexivity.
Qed.

(** The documented example also matches the conversational pattern
    [/do you.*\?$/]; the command pattern wins. *)
Lemma command_intent_is_actionable_witness :
  some conversationalPatterns
    (trim (toLowerCase "do you think check disk usage is useful?")) = true /\
  isActionable "do you think check disk usage is useful?" = true /\
  isConversationalInput "check disk usage, do you think?" = false.
Proof.
  split; [vm_compute; reflexivity |]. split.
  - apply (command_intent_is_actionable "do you think check disk usage is useful?").
    left. vm_compute. reflexivity.
  - apply (command_intent_is_actionable "check disk usage, do you think?").
    left. vm_compute. reflexivity.
Defined.

(** None of the decisive rules applies: no command pattern, no
    conversational pattern, and neither of the two heuristics. *)
Definition reachesDefault (input : string) : bool :=
  let lower := trim (toLowerCase input) in
  negb (some commandPatterns lower)
  && negb (some conversationalPatterns lower)
  && negb (test questionWords lower && includes "?" input
           && negb (test commandKeywords lower))
  && negb (test conversationalWords lower).

(** The default rule in the wording of the design notes: conversational
    exactly when the input ends in a question mark or has fewer than 15
    characters. *)
Definition documentedDefault (input : string) : bool :=
  endsWith "?" input || (String.length input <? 15).




Example default_rule_untrimmed_length :
  reachesDefault "go home now     " = true /\
  isConversationalInput "go home now     " = true /\
  documentedDefault "go home now     " = false.
Proof. vm_compute. auto. Qed.

End ClassifierFacts.

(** ** The fallback pattern-to-intent resolver ([runPatternMatchingAI]) *)

Module Resolver.
Import JsString Regex.

(** How the promise settles. *)
Inductive settled : Type :=
| Resolved (text : string)
| Rejected (message : string).

(* /^(hi|hello|hey|greetings|good morning|good afternoon|good evening)$/ *)
Definition greetingRe : regex :=
  Seq Bol (Seq (Group 1 (words "hi"
    ["hello"; "hey"; "greetings"; "good morning"; "good afternoon"; "good evening"])) Eol).

(* /^(how are you|what\'s up|how\'s it going)$/ *)
Definition smallTalkRe : regex :=
  Seq Bol (Seq (Group 1 (words "how are you" ["what's up"; "how's it going"])) Eol).

(* /open\s+(.+)/ *)
Definition openRe : regex :=
  Seq (lit "open") (Seq (plus true ws) (Group 1 (plus true dot))).

(* /search.*?(?:for\s+)?(.+?)(?:\s|$)/ *)
Definition searchRe : regex :=
  Seq (lit "search")
    (Seq (Star false dot)
       (Seq (opt (Seq (lit "for") (plus true ws)))
          (Seq (Group 1 (plus false dot)) (Alt ws Eol)))).

(* /find\s+(.+)/ *)
Definition findRe : regex :=
  Seq (lit "find") (Seq (plus true ws) (Group 1 (plus true dot))).

(* /run\s+(.+)/ *)
Definition runRe : regex :=
  Seq (lit "run") (Seq (plus true ws) (Group 1 (plus true dot))).

(* /^(help|what can you do|commands|options)$/ *)
Definition helpRe : regex :=
  Seq Bol (Seq (Group 1 (words "help" ["what can you do"; "commands"; "options"])) Eol).

(* /about\s+(.+)/i *)
Definition aboutRe : regex :=
  Seq (liti "about") (Seq (plus true ws) (Group 1 (plus true dot))).

Definition isAsciiLetter (c : ascii) : bool :=
  let n := code c in
  ((65 <=? n) && (n <=? 90)) || ((97 <=? n) && (n <=? 122)).

(* /(write|create|make)\s+[a-z\s]*?\s+(.+)/i *)
Definition makeRe : regex :=
  Seq (Group 1 (alts (liti "write") [liti "create"; liti "make"]))
    (Seq (plus true ws)
       (Seq (Star false (Chr (fun c => isAsciiLetter c || isWhiteSpace c)))
          (Seq (plus true ws) (Group 2 (plus true dot))))).

(** [s.match(re)?.[i]] *)
Definition matchGroup (r : regex) (i : nat) (s : string) : option string :=
  match exec r s with
  | Some st => capture i (caps st)
  | None => None
  end.

(** [x || d] for an optional string [x]: [undefined] and the empty
    string are both falsy. *)
Definition orDefault (x : option string) (d : string) : string :=
  match x with
  | Some v => if truthy v then v else d
  | None => d
  end.

(** Reply texts.  The bullet U+2022 of the source lies outside the
    modelled code-unit range and is kept as its UTF-8 bytes. *)
Definition greetingText : string :=
  "Hello! I'm C9 AI. I can help you with tasks like:" +:+ nl
  +:+ "• " +:+ quoted "open excel" +:+ " - Open applications" +:+ nl
  +:+ "• " +:+ quoted "list files" +:+ " - Show directory contents" +:+ nl
  +:+ "• " +:+ quoted "search for X" +:+ " - Web search" +:+ nl
  +:+ "• " +:+ quoted "compile document" +:+ " - Build projects" +:+ nl
  +:+ "What can I help you with?".

Definition smallTalkText : string :=
  "I'm doing great! Ready to help you be more productive. What task would you like me to help with?".

Definition welcomeText : string :=
  "You're welcome! Happy to help. Is there anything else you need assistance with?".

Definition helpText : string :=
  "I can help you with:" +:+ nl
  +:+ "• Opening applications: " +:+ quoted "open excel" +:+ ", " +:+ quoted "open browser" +:+ nl
  +:+ "• File operations: " +:+ quoted "list files" +:+ ", " +:+ quoted "show directory" +:+ nl
  +:+ "• Searching: " +:+ quoted "search for tutorials" +:+ nl
  +:+ "• System info: " +:+ quoted "check disk usage" +:+ ", " +:+ quoted "show processes" +:+ nl
  +:+ "• Code generation: " +:+ quoted "create a program to calculate compound interest" +:+ nl
  +:+ "• Development: " +:+ quoted "compile document" +:+ ", " +:+ quoted "run script" +:+ nl
  +:+ nl +:+ "Try any of these commands!".

Definition exitText : string :=
  "To exit C9AI, type " +:+ quoted "exit" +:+ " or " +:+ quoted "quit"
  +:+ ". To close an application, try " +:+ quoted "close [app name]" +:+ ".".

Definition getSuggestions (input : string) : string :=
  if includes "excel" input || includes "spreadsheet" input then
    "Try: " +:+ quoted "open excel"
  else if includes "file" input || includes "document" input then
    "Try: " +:+ quoted "list files" +:+ " or " +:+ quoted "open document"
  else if includes "search" input || includes "find" input then
    "Try: " +:+ quoted "search for [topic]"
  else if includes "help" input then
    "Try: " +:+ quoted "help" +:+ " for available commands"
  else
    "Try commands like: " +:+ quoted "open excel" +:+ ", " +:+ quoted "list files"
    +:+ ", " +:+ quoted "search for tutorials" +:+ ", or " +:+ quoted "help".

(** The application named by an "open" request. *)
Definition openTarget (taskLower : string) : string :=
  if includes "excel" taskLower || includes "spreadsheet" taskLower then "excel"
  else if includes "word" taskLower || includes "document" taskLower then "word"
  else if includes "browser" taskLower || includes "chrome" taskLower
          || includes "firefox" taskLower then "chrome"
  else if includes "code" taskLower || includes "vscode" taskLower
          || includes "editor" taskLower then "code"
  else if includes "terminal" taskLower || includes "command" taskLower then "terminal"
  else if includes "calculator" taskLower || includes "calc" taskLower then "calculator"
  else if includes "notes" taskLower || includes "notepad" taskLower then "notepad"
  else
    (* Extract filename or generic open *)
    match matchGroup openRe 1 taskLower with
    | Some f => trim f
    | None => "file"
    end.

Section WithCodeGenerator.
(** [generateCode] only fills source-code templates; the cascade uses
    it as a function from the prompt to the reply text. *)
Variable generateCode : string -> string.

Definition runPatternMatchingAI (prompt : string) : settled :=
  let taskLower := toLowerCase prompt in
  (* Greetings and conversational responses *)
  if test greetingRe taskLower then Resolved greetingText
  else if test smallTalkRe taskLower then Resolved smallTalkText
  else if includes "thank" taskLower || includes "thanks" taskLower then
    Resolved welcomeText
  (* Enhanced application opening *)
  else if includes "open" taskLower then
    Resolved ("@action: open " +:+ openTarget taskLower)
  (* File and directory operations *)
  else if includes "list" taskLower
          && (includes "files" taskLower || includes "directories" taskLower
              || includes "folder" taskLower) then
    Resolved "@action: list files"
  else if includes "show" taskLower
          && (includes "files" taskLower || includes "directory" taskLower) then
    Resolved "@action: list files"
  (* Search operations *)
  else if includes "search" taskLower then
    Resolved ("@action: search "
              +:+ orDefault (matchGroup searchRe 1 taskLower) "tutorial")
  else if includes "find" taskLower && negb (includes "file" taskLower) then
    Resolved ("@action: search "
              +:+ orDefault (matchGroup findRe 1 taskLower) "information")
  (* System operations *)
  else if includes "check" taskLower && includes "disk" taskLower then
    Resolved "@action: check disk usage"
  else if includes "show" taskLower && includes "process" taskLower then
    Resolved "@action: show processes"
  (* Development tasks *)
  else if includes "compile" taskLower || includes "build" taskLower then
    Resolved ("@action: compile "
              +:+ (if includes "research" taskLower
                   then "research_paper.tex" else "document.tex"))
  else if includes "run" taskLower then
    match matchGroup runRe 1 taskLower with
    | Some t => Resolved ("@action: run " +:+ trim t)
    | None => Resolved "@action: run script.sh"
    end
  (* Help and guidance *)
  else if test helpRe taskLower then Resolved helpText
  (* Code and content creation *)
  else if includes "create" taskLower || includes "make" taskLower
          || includes "write" taskLower then
    if includes "program" taskLower || includes "code" taskLower
       || includes "script" taskLower then
      Resolved (generateCode prompt)
    else
      let contentType :=
        if includes "post" taskLower then "post"
        else if includes "article" taskLower then "article" else "document" in
      let topic :=
        match matchGroup aboutRe 1 prompt with
        | Some t => trim t
        | None =>
            match matchGroup makeRe 2 prompt with
            | Some t => trim t
            | None => "general topic"
            end
        end in
      Resolved ("@tool: create_content type=" +:+ quoted contentType
                +:+ " topic=" +:+ quoted topic)
  else if includes "close" taskLower || includes "exit" taskLower
          || includes "quit" taskLower then
    Resolved exitText
  (* Fallback with better suggestions *)
  else
    Rejected ("I'm not sure what you mean by " +:+ quoted prompt +:+ ". "
              +:+ getSuggestions taskLower).

End WithCodeGenerator.

End Resolver.

(** ** Properties of the resolver *)

Module ResolverFacts.
Import JsString Regex Resolver.

Lemma includes_toLowerCase w s :
  toLowerCase w = w -> includes w s = true -> includes w (toLowerCase s) = true.
Proof.
  intros Hw H. apply JsStringFacts.includes_split in H as (a & b & ->).
  rewrite !JsStringFacts.toLowerCase_append, Hw.
  apply JsStringFacts.includes_append.
Qed.

(** A rule placed before the "open" rule fires: one of the two exact
    greeting patterns, or the thanks test. *)
Definition earlierRuleFires (prompt : string) : bool :=
  let taskLower := toLowerCase prompt in
  test greetingRe taskLower || test smallTalkRe taskLower
  || (includes "thank" taskLower || includes "thanks" taskLower).

(** The exact-match patterns accept only their listed phrases. *)
Lemma exact_words_elim w wl s :
  test (Seq Bol (Seq (Group 1 (words w wl)) Eol)) s = true -> In s (w :: wl).
Proof.
  intros H. apply test_Bol_elim in H as [st' M].
  inversion M as [| | | | | r1 r2 st0 st1 st2 M1 M2 | | | | |]; subst.
  inversion M1 as [| | | | | | | | | | i r st0 st3 M3]; subst.
  inversion M2 as [| | | st0 Hend | | | | | | |]; subst.
  apply Matches_words_inv in M3 as (w0 & Hin & Hrest).
  simpl in Hrest, Hend. rewrite Hend in Hrest.
  assert (w0 +:+ EmptyString = w0) as Hnil
    by (clear; induction w0 as [|c w0 IH]; simpl; [reflexivity | f_equal; exact IH]).
  rewrite Hnil in Hrest. subst s. exact Hin.
Qed.

(** The greeting and small-talk rules can never claim a prompt that
    contains "open": among the rules before the "open" rule only the
    thanks test can. *)
Lemma greetings_do_not_contain_open s :
  includes "open" s = true -> test greetingRe s = false /\ test smallTalkRe s = false.
Proof.
  intros H. split.
  - destruct (test greetingRe s) eqn:E; [| reflexivity].
    apply exact_words_elim in E. simpl in E.
    repeat (destruct E as [<- | E]; [vm_compute in H; discriminate H |]). destruct E.
  - destruct (test smallTalkRe s) eqn:E; [| reflexivity].
    apply exact_words_elim in E. simpl in E.
    repeat (destruct E as [<- | E]; [vm_compute in H; discriminate H |]). destruct E.
Qed.

(** C6.  The cascade is ordered and only its first matching rule fires:
    a prompt that contains "open" and is not claimed by one of the earlier
    greeting / thanks rules resolves to "@action: open <target>",
    whatever triggers of later rules ("search" among them) it contains. *)
Theorem open_rule_shadows_later_rules (generateCode : string -> string) (prompt : string) :
  includes "open" prompt = true ->
  earlierRuleFires prompt = false ->
  runPatternMatchingAI generateCode prompt
  = Resolved ("@action: open " +:+ openTarget (toLowerCase prompt)).
Proof.
  intros Hopen Hearly. unfold earlierRuleFires in Hearly.
  apply orb_false_iff in Hearly as [Hearly Hthank].
  apply orb_false_iff in Hearly as [Hgreet Hsmall].
  apply (includes_toLowerCase "open" prompt eq_refl) in Hopen.
  unfold runPatternMatchingAI. rewrite Hgreet, Hsmall, Hthank, Hopen. reflexivity.
Qed.

Lemma open_rule_shadows_later_rules_witness :
  includes "search" "search and open the pod bay doors" = true /\
  runPatternMatchingAI (fun _ => EmptyString) "search and open the pod bay doors"
  = Resolved "@action: open the pod bay doors".
Proof.
  split; [reflexivity |].
  apply (open_rule_shadows_later_rules (fun _ => EmptyString)
           "search and open the pod bay doors"); vm_compute; reflexivity.
Defined.

(** The thanks test is the only earlier rule that matters. *)
Corollary open_rule_needs_only_no_thanks (generateCode : string -> string) (prompt : string) :
  includes "open" prompt = true ->
  includes "thank" (toLowerCase prompt) = false ->
  exists target,
    runPatternMatchingAI generateCode prompt = Resolved ("@action: open " +:+ target).
Proof.
  intros Hopen Hthank.
  pose proof (includes_toLowerCase "open" prompt eq_refl Hopen) as Hlow.
  destruct (greetings_do_not_contain_open _ Hlow) as [Hg Hs].
  assert (includes "thanks" (toLowerCase prompt) = false) as Hthanks.
  { destruct (includes "thanks" (toLowerCase prompt)) eqn:E; [| reflexivity].
    apply JsStringFacts.includes_split in E as (a & b & E).
    rewrite E in Hthank.
    change ("thanks" +:+ b) with ("thank" +:+ (String "s" b)) in Hthank.
    rewrite JsStringFacts.includes_append in Hthank. discriminate Hthank. }
  exists (openTarget (toLowerCase prompt)).
  unfold runPatternMatchingAI. rewrite Hg, Hs, Hthank, Hthanks, Hlow. reflexivity.
Qed.

End ResolverFacts.

(** ** Effects: a trace of observable actions, mutable state, exceptions

    An [async] method of the class is a computation that reads and updates
    a state, appends to a trace of events, and either returns or throws.
    [await] is sequencing: the class runs one command to completion before
    the next. *)

Module Eff.

Inductive outcome (E A : Type) : Type :=
| Ok (a : A)
| Throw (e : E).
Arguments Ok {E A} a.
Arguments Throw {E A} e.

Section Monad.
Context {S E Ev : Type}.

Definition M (A : Type) : Type := S -> outcome E A * S * list Ev.

Definition ret {A} (a : A) : M A := fun s => (Ok a, s, []).

Definition bind {A B} (m : M A) (f : A -> M B) : M B :=
  fun s =>
    match m s with
    | (Ok a, s1, t1) =>
        match f a s1 with (r, s2, t2) => (r, s2, t1 ++ t2) end
    | (Throw e, s1, t1) => (Throw e, s1, t1)
    end.

(** [throw e] *)
Definition throw {A} (e : E) : M A := fun s => (Throw e, s, []).

(** [try { m } catch (e) { h e }]; state changes made before the
    exception stay. *)
Definition tryCatch {A} (m : M A) (h : E -> M A) : M A :=
  fun s =>
    match m s with
    | (Ok a, s1, t1) => (Ok a, s1, t1)
    | (Throw e, s1, t1) =>
        match h e s1 with (r, s2, t2) => (r, s2, t1 ++ t2) end
    end.

Definition emit (ev : Ev) : M unit := fun s => (Ok tt, s, [ev]).
Definition get : M S := fun s => (Ok s, s, []).
Definition put (s : S) : M unit := fun _ => (Ok tt, s, []).

(** Lift the verdict of an external collaborator. *)
Definition lift {A} (r : outcome E A) : M A := fun s => (r, s, []).
End Monad.

Arguments M : clear implicits.

Definition result {S E Ev A} (x : outcome E A * S * list Ev) : outcome E A := fst (fst x).
Definition final {S E Ev A} (x : outcome E A * S * list Ev) : S := snd (fst x).
Definition trace {S E Ev A} (x : outcome E A * S * list Ev) : list Ev := snd x.

Declare Scope eff_scope.
Delimit Scope eff_scope with eff.
Notation "'do' x <- m ; k" := (bind m (fun x => k))
  (at level 10, x name, m at level 100, k at level 200) : eff_scope.
Notation "m ;; k" := (bind m (fun _ => k))
  (at level 100, k at level 200, right associativity) : eff_scope.

End Eff.

(** ** The intent executor ([runIntent]) *)

Module Intent.
Import JsString Eff.
Local Open Scope eff_scope.

(** The failure classes of the design notes; every [throw new Error] of
    [runIntent] belongs to one of them, [CommandFailed] is a rejection of
    [runCommand]. *)
Inductive errorKind : Type :=
| UnknownVerb | UnsupportedTarget | ScriptNotFound | NoCommand | CommandFailed.

Record error : Type := Error { kind : errorKind; message : string }.

Inductive event : Type :=
| Log (text : string)              (* console.log *)
| FsExists (path : string)         (* fs.exists *)
| Spawn (command : string).        (* runCommand: a subprocess *)

Section WithPlatform.
Variable osType : string.                          (* os.platform() *)
Variable scriptsDir : string.                      (* this.scriptsDir *)
Variable pathJoin : string -> string -> string.    (* path.join *)
Variable fsExists : string -> bool.                (* fs.exists *)
Variable encodeURIComponent : string -> string.
(** The subprocess: its trimmed stdout, or the failure it reports. *)
Variable spawnResult : string -> outcome string string.

Definition runCommand (command : string) : M unit error event string :=
  emit (Spawn command) ;;
  match spawnResult command with
  | Ok out => ret out
  | Throw msg => throw (Error CommandFailed msg)
  end.

Definition runIntent (verb target : string) : M unit error event unit :=
  emit (Log ("[DEBUG] runIntent: Verb - " +:+ verb +:+ ", Target - " +:+ target)) ;;
  let v := toLowerCase verb in
  do commandToExecute <-
    (if String.eqb v "open" then
       if String.eqb osType "darwin" then ret ("open " +:+ quoted target)
       else if String.eqb osType "win32" then
         ret ("start " +:+ dquote +:+ dquote +:+ " " +:+ quoted target)
       else ret ("xdg-open " +:+ quoted target)
     else if String.eqb v "compile" then
       (* Assuming .tex files for now, can be expanded *)
       if endsWith ".tex" target then ret ("pdflatex " +:+ quoted target)
       else throw (Error UnsupportedTarget ("Unsupported compile target: " +:+ target))
     else if String.eqb v "run" then
       let scriptPath := pathJoin scriptsDir target in
       emit (FsExists scriptPath) ;;
       if fsExists scriptPath then
         (* Determine interpreter based on extension *)
         if endsWith ".sh" target then
           (* Use bash on Unix, or suggest .bat files on Windows *)
           if String.eqb osType "win32" then
             throw (Error UnsupportedTarget
               "Shell scripts (.sh) not supported on Windows. Use .bat files instead.")
           else ret ("bash " +:+ quoted scriptPath)
         else if endsWith ".bat" target && String.eqb osType "win32" then
           ret (quoted scriptPath)
         else if endsWith ".py" target then
           let pythonCmd := if String.eqb osType "win32" then "python" else "python3" in
           ret (pythonCmd +:+ " " +:+ quoted scriptPath)
         else if endsWith ".js" target then ret ("node " +:+ quoted scriptPath)
         else ret (quoted scriptPath)
       else throw (Error ScriptNotFound ("Script not found: " +:+ target))
     else if String.eqb v "search" then
       (* Basic Google search *)
       let encodedTarget := encodeURIComponent target in
       let url := quoted ("https://www.google.com/search?q=" +:+ encodedTarget) in
       let commandToExecute := "open " +:+ url in
       if String.eqb osType "win32" then
         ret ("start " +:+ dquote +:+ dquote +:+ " " +:+ url)
       else if String.eqb osType "linux" then ret ("xdg-open " +:+ url)
       else ret commandToExecute
     else throw (Error UnknownVerb ("Unknown intent verb: " +:+ verb))) ;
  if truthy commandToExecute then
    emit (Log ("[DEBUG] runIntent: Executing command - " +:+ commandToExecute)) ;;
    do _ <- runCommand commandToExecute ;
    ret tt
  else
    throw (Error NoCommand ("Could not determine command for verb: " +:+ verb
                            +:+ " and target: " +:+ target)).

End WithPlatform.

Definition isSpawn (ev : event) : bool :=
  match ev with Spawn _ => true | _ => false end.

(** No subprocess was started. *)
Definition noSubprocess (t : list event) : bool := negb (existsb isSpawn t).

End Intent.

(** ** Properties of the intent executor *)

Module IntentFacts.
Import JsString Eff Intent.

Definition shOnWindows : string :=
  "Shell scripts (.sh) not supported on Windows. Use .bat files instead.".

Section OnWindows.
Variable scriptsDir : string.
Variable pathJoin : string -> string -> string.
Variable fsExists : string -> bool.
Variable encodeURIComponent : string -> string.
Variable spawnResult : string -> outcome string string.

Let runOnWindows :=
  runIntent "win32" scriptsDir pathJoin fsExists encodeURIComponent spawnResult.

(** C4, as the code has it.  On the Windows family, running a target
    that ends in ".sh" always fails and never starts a subprocess.  The
    script is looked up in the scripts directory first: the failure is
    UnsupportedTarget when the script exists there, and ScriptNotFound
    when it does not. *)
Theorem run_sh_on_windows (verb target : string) :
  toLowerCase verb = "run" ->
  endsWith ".sh" target = true ->
  noSubprocess (trace (runOnWindows verb target tt)) = true /\
  result (runOnWindows verb target tt)
  = Throw (if fsExists (pathJoin scriptsDir target)
           then Error UnsupportedTarget shOnWindows
           else Error ScriptNotFound ("Script not found: " +:+ target)).
Proof.
  intros Hverb Hsh. subst runOnWindows. unfold runIntent.
  rewrite Hverb. cbn. rewrite Hsh.
  destruct (fsExists (pathJoin scriptsDir target)); cbn; split; reflexivity.
Qed.
End OnWindows.

Lemma run_sh_on_windows_witness :
  result (runIntent "win32" "scripts" joinWithSlash (fun _ => true) id
            (fun _ => Ok EmptyString) "run" "script.sh" tt)
  = Throw (Error UnsupportedTarget shOnWindows) /\
  result (runIntent "win32" "scripts" joinWithSlash (fun _ => false) id
            (fun _ => Ok EmptyString) "RUN" "script.sh" tt)
  = Throw (Error ScriptNotFound "Script not found: script.sh").
Proof.
  split.
  - apply (run_sh_on_windows "scripts" joinWithSlash (fun _ => true) id
             (fun _ => Ok EmptyString) "run" "script.sh"); reflexivity.
  - apply (run_sh_on_windows "scripts" joinWithSlash (fun _ => false) id
             (fun _ => Ok EmptyString) "RUN" "script.sh"); reflexivity.
Defined.

(** The failure is not always UnsupportedTarget: a ".sh" script that is
    not in the scripts directory is reported as not found. *)
Lemma run_sh_on_windows_not_always_unsupported :
  ~ (forall scriptsDir pathJoin fsExists encodeURIComponent spawnResult verb target,
       toLowerCase verb = "run" ->
       endsWith ".sh" target = true ->
       exists msg,
         result (runIntent "win32" scriptsDir pathJoin fsExists
                   encodeURIComponent spawnResult verb target tt)
         = Throw (Error UnsupportedTarget msg)).
Proof.
  intros H.
  destruct (H "scripts" joinWithSlash (fun _ => false) id
              (fun _ => Ok EmptyString) "run" "script.sh" eq_refl eq_refl)
    as [msg Hmsg].
  vm_compute in Hmsg. discriminate Hmsg.
Qed.

End IntentFacts.

(** ** The command router ([handleCommand]) and the prompt loop ([interactiveMode]) *)

Module Router.
Import JsString Eff Classifier.
Local Open Scope eff_scope.

(** Calls into the subsystems behind the router. *)
Inductive call : Type :=
| RunAI (model prompt : string)
| StartInteractiveSession (model : string)
| HandleConversation (input : string)
| ProcessNaturalLanguageCommand (input : string)
| ExecuteToolDirective (directive : string)
| SwitchModel (model : option string)
| HandleTodos (action : option string) (args : list string)
| ShowAnalytics
| HandleTools (action : option string) (args : list string)
| HandleModels (action model : option string)
| HandleKnowledgeScan (args : list string)
| HandleIssues (action : option string) (args : list string)
| AchieveGoal (goal : string)
| ShowConfig
| ShowHelp
| ShowBanner.

(** Console texts are recorded without colour codes and emoji. *)
Inductive event : Type :=
| Shell (command : string)      (* runShellCommand: spawn with shell: true *)
| Chdir (dir : string)          (* process.chdir *)
| Invoke (c : call)             (* a subsystem handler is entered *)
| Log (text : string)           (* console.log *)
| ErrorLog (text : string)      (* console.error *)
| Exit (code : nat).            (* process.exit *)

(** Thrown values are [Error] objects; the router reads their message. *)
Definition R (A : Type) : Type := M unit string event A.

Section WithEnvironment.
Variable homedir : string.                            (* os.homedir() *)
(** [process.chdir(d)]: the new [process.cwd()], or the error message. *)
Variable chdir : string -> outcome string string.
(** Whether a subsystem handler returns or throws. *)
Variable handler : call -> outcome string unit.

Definition invoke (c : call) : R unit := emit (Invoke c) ;; lift (handler c).

(** [runShellCommand] resolves on close and on error alike: it never
    rejects. *)
Definition runShellCommand (command : string) : R unit := emit (Shell command).

Definition sigilModes : list string :=
  ["claude"; "gemini"; "local"; "conv"; "chat"; "cmd"; "command"; "tool"].

(** The [switch (mode)] of the sigil block; [true] when a case
    returned from [handleCommand]. *)
Definition sigilSwitch (mode content : string) : R bool :=
  if String.eqb mode "claude" || String.eqb mode "gemini" || String.eqb mode "local" then
    (if truthy content then invoke (RunAI mode content)       (* Direct prompt to AI model *)
     else invoke (StartInteractiveSession mode)) ;;            (* Interactive session *)
    ret true
  else if String.eqb mode "conv" || String.eqb mode "chat" then
    invoke (HandleConversation (if truthy content then content else "Hello!")) ;;
    ret true
  else if String.eqb mode "cmd" || String.eqb mode "command" then
    invoke (ProcessNaturalLanguageCommand content) ;; ret true
  else if String.eqb mode "tool" then
    invoke (ExecuteToolDirective content) ;; ret true
  else ret false.

(** [switch (command.toLowerCase())] with its [default] branch. *)
Definition namedSwitch (input command : string) (args : list string) : R unit :=
  let c := toLowerCase command in
  if String.eqb c "claude" then invoke (RunAI "claude" (join " " args))
  else if String.eqb c "gemini" then invoke (RunAI "gemini" (join " " args))
  else if String.eqb c "switch" then invoke (SwitchModel (nth_error args 0))
  else if String.eqb c "todos" then invoke (HandleTodos (nth_error args 0) (tl args))
  else if String.eqb c "add" then invoke (HandleTodos (Some "add") args)
  else if String.eqb c "analytics" then invoke ShowAnalytics
  else if String.eqb c "tools" then invoke (HandleTools (nth_error args 0) (tl args))
  else if String.eqb c "models" then invoke (HandleModels (nth_error args 0) (nth_error args 1))
  else if String.eqb c "scan" then invoke (HandleKnowledgeScan args)
  else if String.eqb c "issues" then invoke (HandleIssues (nth_error args 0) (tl args))
  else if String.eqb c "achieve" || String.eqb c "goal" then invoke (AchieveGoal (join " " args))
  else if String.eqb c "config" then invoke ShowConfig
  else if String.eqb c "help" then invoke ShowHelp
  else if String.eqb c "logo" || String.eqb c "banner" then invoke ShowBanner
  else
    (* Smart detection: conversation vs command *)
    if truthy command && (0 <? String.length (trim input)) then
      if isConversationalInput (trim input) then invoke (HandleConversation (trim input))
      else invoke (ProcessNaturalLanguageCommand (trim input))
    else ret tt.

(** The body of the [try] block. *)
Definition dispatch (input : string) : R unit :=
  let tokens := split " " input in
  let command := hd EmptyString tokens in
  let args := tl tokens in
  (* Handle shell commands with '!' sigil *)
  if startsWith "!" input then
    let shellCommand := trim (substring 1 input) in
    if truthy shellCommand then
      (* Special handling for 'cd' *)
      if startsWith "cd" shellCommand then
        let targetDir := trim (substring 2 shellCommand) in
        let targetDir :=
          if negb (truthy targetDir) || String.eqb targetDir "~" then homedir
          else targetDir in
        tryCatch
          (emit (Chdir targetDir) ;;
           do cwd <- lift (chdir targetDir) ;
           emit (Log ("Changed directory to: " +:+ cwd)))
          (fun message => emit (ErrorLog ("Error changing directory: " +:+ message)))
      else runShellCommand shellCommand
    else ret tt
  else
    (* Handle sigil-based modes *)
    do handled <-
      (if startsWith "@" input then
         let parts := split " " (substring 1 input) in
         let mode := hd EmptyString parts in
         let content := join " " (tl parts) in
         sigilSwitch mode content
       else ret false) ;
    if handled then ret tt else namedSwitch input command args.

Definition handleCommand (input : string) : R unit :=
  tryCatch (dispatch input)
    (fun message => emit (ErrorLog ("Error executing command: " +:+ message))).

(** *** The prompt loop *)

(** What [inquirer.prompt] hands back: the typed line, or a failure of
    the prompt itself. *)
Inductive prompted : Type :=
| Answer (command : string)
| PromptFailed (isTtyError : bool) (message : string).

Inductive status : Type :=
| Prompting                 (* back at the prompt, the loop goes on *)
| Exited (code : nat).      (* process.exit was called *)

Definition isExitInput (command : string) : bool :=
  String.eqb (trim command) "exit" || String.eqb (trim command) "quit"
  || String.eqb (trim command) "stop"
  (* Emergency exit for Ctrl+C equivalent *)
  || String.eqb (toLowerCase (trim command)) "emergency exit".

(** The [while (true)] loop over the lines the user types. *)
Fixpoint interactiveLoop (answers : list prompted) : status * list event :=
  match answers with
  | [] => (Prompting, [])
  | Answer command :: more =>
      if String.eqb (trim command) "exit" || String.eqb (trim command) "quit"
         || String.eqb (trim command) "stop" then
        (Exited 0, [Log "Thanks for using C9 AI!"; Exit 0])
      else if String.eqb (toLowerCase (trim command)) "emergency exit" then
        (Exited 0, [Log "Emergency exit activated!"; Exit 0])
      else if String.eqb (trim command) EmptyString then interactiveLoop more
      else
        match handleCommand (trim command) tt with
        | (Ok _, _, t) =>
            let (st, t') := interactiveLoop more in (st, t ++ t')
        | (Throw message, _, t) =>
            let (st, t') := interactiveLoop more in
            (st, t ++ ErrorLog ("Error: " +:+ message) :: t')
        end
  | PromptFailed true _ :: _ =>
      (Exited 1, [Log "Interactive mode not supported in this environment"; Exit 1])
  | PromptFailed false message :: more =>
      let (st, t') := interactiveLoop more in
      (st, ErrorLog ("Error: " +:+ message) :: t')
  end.

Definition interactiveMode (answers : list prompted) : status * list event :=
  let (st, t) := interactiveLoop answers in
  (st, Log "banner and quick actions" :: t).

End WithEnvironment.

Definition shellCommands (t : list event) : list string :=
  flat_map (fun ev => match ev with Shell c => [c] | _ => [] end) t.

Definition invoked (t : list event) : list call :=
  flat_map (fun ev => match ev with Invoke c => [c] | _ => [] end) t.

Definition directoryChanges (t : list event) : list string :=
  flat_map (fun ev => match ev with Chdir d => [d] | _ => [] end) t.

End Router.

(** ** Properties of the router *)

Module RouterFacts.
Import JsString Eff Classifier Router.

Lemma split_not_nil sep s : split sep s <> [].
Proof.
  destruct s as [|c s]; simpl; [discriminate |].
  destruct (Ascii.eqb c sep); [discriminate |].
  destruct (split sep s); discriminate.
Qed.

Lemma startsWith_char c s :
  startsWith (String c EmptyString) s = true -> exists s', s = String c s'.
Proof.
  destruct s as [|d s]; simpl; [discriminate |].
  unfold startsWith; simpl. destruct (ascii_dec c d) as [->|]; [| discriminate].
  intros _. exists s; reflexivity.
Qed.

Lemma startsWith_head c s : startsWith (String c EmptyString) (String c s) = true.
Proof.
  unfold startsWith. simpl. destruct (ascii_dec c c); [| congruence].
  destruct s; reflexivity.
Qed.

(** Trimming keeps a leading code unit that is not white space. *)
Lemma trim_keeps_head c s :
  isWhiteSpace c = false -> exists t, trim (String c s) = String c t.
Proof.
  intros Hc. unfold trim. simpl. rewrite Hc. simpl.
  destruct (trimEnd s); [rewrite Hc |]; eauto.
Qed.

Section WithEnvironment.
Variable homedir : string.
Variable chdir : string -> outcome string string.
Variable handler : call -> outcome string unit.

Let handle := handleCommand homedir chdir handler.

(** The directory a built-in [cd] goes to. *)
Definition cdTarget (shellCommand : string) : string :=
  let targetDir := trim (substring 2 shellCommand) in
  if negb (truthy targetDir) || String.eqb targetDir "~" then homedir else targetDir.

(** C2, as the code has it.  For an input that begins with "!", the
    text after the "!" is trimmed.  When the trimmed text starts with
    "cd", the working directory is changed directly, no shell command
    is run, and a failure is only reported.  Otherwise the trimmed text
    is handed unchanged to the shell primitive, and nothing is run when
    it is empty.  In every case the router returns normally and enters
    no other subsystem. *)
Theorem shell_sigil (input : string) :
  startsWith "!" input = true ->
  let shellCommand := trim (substring 1 input) in
  let r := handle input tt in
  result r = Ok tt /\
  invoked (trace r) = [] /\
  (if startsWith "cd" shellCommand
   then shellCommands (trace r) = [] /\
        directoryChanges (trace r) = [cdTarget shellCommand] /\
        (forall message, chdir (cdTarget shellCommand) = Throw message ->
           trace r = [Chdir (cdTarget shellCommand);
                      ErrorLog ("Error changing directory: " +:+ message)])
   else shellCommands (trace r) = (if truthy shellCommand then [shellCommand] else []) /\
        directoryChanges (trace r) = []).
Proof.
  intros Hbang. subst handle. cbv zeta.
  unfold handleCommand, dispatch. rewrite Hbang.
  destruct (truthy (trim (substring 1 input))) eqn:Ht.
  - destruct (startsWith "cd" (trim (substring 1 input))) eqn:Hcd.
    + fold (cdTarget (trim (substring 1 input))).
      destruct (chdir (cdTarget (trim (substring 1 input)))) as [cwd|msg] eqn:Hch;
        unfold tryCatch, bind, emit, lift, result, trace; cbn;
        repeat split; auto; intros message Hm; congruence.
    + cbn. repeat split; reflexivity.
  - assert (trim (substring 1 input) = EmptyString) as ->.
    { unfold truthy in Ht. apply negb_false_iff, String.eqb_eq in Ht. exact Ht. }
    cbn. repeat split; reflexivity.
Qed.

Lemma handleCommand_returns (input : string) :
  result (handleCommand homedir chdir handler input tt) = Ok tt.
Proof.
  unfold handleCommand, tryCatch, result.
  destruct (dispatch homedir chdir handler input tt) as [[[u|msg] s] t];
    [destruct u |]; reflexivity.
Qed.

(** Where the prompt loop stands after a sequence of prompts: it has
    left only at the first exit input (code 0) or at the first prompt that
    cannot run on this terminal (code 1). *)
Lemma interactiveLoop_status (answers : list prompted) :
  fst (interactiveLoop homedir chdir handler answers)
  = match find (fun a => match a with
                         | Answer command => isExitInput command
                         | PromptFailed isTtyError _ => isTtyError
                         end) answers with
    | None => Prompting
    | Some (Answer _) => Exited 0
    | Some (PromptFailed _ _) => Exited 1
    end.
Proof.
  destruct (interactiveLoop homedir chdir handler answers) as [st t] eqn:E.
  simpl. revert st t E.
  induction answers as [|a answers IH]; intros st t E; simpl in E.
  - inversion E; reflexivity.
  - destruct a as [command | [|] message]; simpl.
    + unfold isExitInput.
      destruct (String.eqb (trim command) "exit" || String.eqb (trim command) "quit"
                || String.eqb (trim command) "stop") eqn:E1; simpl.
      { inversion E; reflexivity. }
      destruct (String.eqb (toLowerCase (trim command)) "emergency exit") eqn:E2.
      { inversion E; reflexivity. }
      destruct (String.eqb (trim command) EmptyString); [eapply IH; exact E |].
      destruct (handleCommand homedir chdir handler (trim command) tt)
        as [[[u|msg] s] t0];
        destruct (interactiveLoop homedir chdir handler answers) as [st' t'];
        inversion E; subst; eapply IH; reflexivity.
    + inversion E; reflexivity.
    + destruct (interactiveLoop homedir chdir handler answers) as [st' t'].
      inversion E; subst. eapply IH; reflexivity.
Qed.

(** What one typed line contributes to the trace of the loop. *)
Definition lineTrace (command : string) : list event :=
  if String.eqb (trim command) EmptyString then []
  else trace (handleCommand homedir chdir handler (trim command) tt).


(** C10.  An input that begins with "@" whose first word is not one of
    the eight mode names raises no error of its own.  It leaves the
    sigil switch, matches no named command, and is routed as free text:
    the classifier decides between conversation and command on the
    whole trimmed input, "@" word included. *)
Theorem unknown_sigil_is_free_text (input : string) :
  startsWith "@" input = true ->
  existsb (String.eqb (hd EmptyString (split " " (substring 1 input)))) sigilModes = false ->
  let text := trim input in
  let target := if isConversationalInput text then HandleConversation text
                else ProcessNaturalLanguageCommand text in
  startsWith "@" text = true /\
  handle input tt
  = match handler target with
    | Ok _ => (Ok tt, tt, [Invoke target])
    | Throw message =>
        (Ok tt, tt, [Invoke target; ErrorLog ("Error executing command: " +:+ message)])
    end.
Proof.
  intros Hat Hmode. apply startsWith_char in Hat as [rest ->].
  destruct (trim_keeps_head "@" rest eq_refl) as [t Ht].
  cbv zeta. rewrite Ht. split; [apply startsWith_head |].
  subst handle. unfold handleCommand, dispatch.
  change (startsWith "!" (String "@" rest)) with false.
  rewrite startsWith_head.
  change (substring 1 (String "@" rest)) with rest in *.
  cbn [split]. change (Ascii.eqb "@" " ") with false. cbn iota.
  destruct (split " " rest) as [|mode parts] eqn:Hsplit;
    [exfalso; eapply split_not_nil; exact Hsplit |].
  cbn [hd tl] in *.
  assert (sigilSwitch handler mode (join " " parts) = ret false) as Hsw.
  { unfold sigilSwitch. cbn in Hmode.
    repeat (apply orb_false_iff in Hmode as [? Hmode]).
    repeat match goal with H : String.eqb mode _ = false |- _ => rewrite H; clear H end.
    reflexivity. }
  rewrite Hsw. unfold namedSwitch. rewrite Ht.
  cbn [toLowerCase]. change (lowerChar "@") with "@"%char.
  cbn -[isConversationalInput].
  destruct (isConversationalInput (String "@" t));
    cbn -[isConversationalInput];
    match goal with |- context [handler ?c] => destruct (handler c) as [[]|msg] end;
    reflexivity.
Qed.

End WithEnvironment.

(** The text after "!" is not passed on verbatim: blanks around it are
    dropped, and an empty command is not run at all. *)
Lemma shell_sigil_not_verbatim :
  ~ (forall homedir chdir handler input,
       startsWith "!" input = true ->
       startsWith "cd" (substring 1 input) = false ->
       shellCommands (trace (handleCommand homedir chdir handler input tt))
       = [substring 1 input]).
Proof.
  intros H.
  specialize (H EmptyString (fun d => Ok d) (fun _ => Ok tt) "! ls" eq_refl eq_refl).
  vm_compute in H. discriminate H.
Qed.

Example shell_sigil_alone_runs_nothing :
  trace (handleCommand EmptyString (fun d => Ok d) (fun _ => Ok tt) "!" tt) = [].
Proof. reflexivity. Qed.

Lemma shell_sigil_witness :
  shellCommands (trace (handleCommand "/home/u" (fun d => Ok d) (fun _ => Ok tt) "! ls -la" tt))
  = ["ls -la"] /\
  trace (handleCommand "/home/u" (fun d => Throw "ENOENT") (fun _ => Ok tt) "!cd /nowhere" tt)
  = [Chdir "/nowhere"; ErrorLog "Error changing directory: ENOENT"].
Proof.
  split.
  - apply (shell_sigil "/home/u" (fun d => Ok d) (fun _ => Ok tt) "! ls -la" eq_refl).
  - apply (shell_sigil "/home/u" (fun d => Throw "ENOENT") (fun _ => Ok tt)
             "!cd /nowhere" eq_refl).
    reflexivity.
Defined.


Lemma unknown_sigil_is_free_text_witness :
  handleCommand "/home/u" (fun d => Ok d) (fun _ => Ok tt) "@foo list the files here" tt
  = (Ok tt, tt, [Invoke (ProcessNaturalLanguageCommand "@foo list the files here")]).
Proof.
  apply (unknown_sigil_is_free_text "/home/u" (fun d => Ok d) (fun _ => Ok tt)
           "@foo list the files here" eq_refl eq_refl).
Defined.

End RouterFacts.

(** ** The local-model session ([initLocalModel]) and its retry supervisor ([runLocalAI]) *)

Module LocalModel.
Import JsString Eff Resolver.
Local Open Scope eff_scope.

(** [this.localModel]; [session] is present only after a real load. *)
Record localModel : Type := {
  modelPath : string;
  modelFile : string;
  session : option nat;
  ready : bool;
  fallbackMode : bool
}.

(** The part of [this] these methods touch: [None] is [null]. *)
Definition state : Type := option localModel.

Inductive event : Type :=
| ReadDir (dir : string)                 (* fs.readdir *)
| LoadModel (path : string)              (* new LlamaModel / LlamaContext / LlamaChatSession *)
| Sleep (ms : N)                         (* this.sleep, milliseconds *)
| Infer (formattedPrompt : string)       (* session.prompt *)
| PatternMatch (prompt : string)         (* the body of runPatternMatchingAI *)
| Log (text : string)
| ErrorLog (text : string).

Definition L (A : Type) : Type := M state string event A.

(** Timeout and retry configuration of the constructor. *)
Definition localModelTimeout : N := 30000%N.
Definition maxRetries : nat := 3.

Definition isModelFile (f : string) : bool := endsWith ".gguf" f || endsWith ".bin" f.

Section WithEnvironment.
Variable modelsDir : string.                               (* this.modelsDir *)
Variable pathJoin : string -> string -> string.            (* path.join *)
Variable readdir : outcome string (list string).           (* fs.readdir(modelsDir) *)
Variable llamaAvailable : bool.                            (* LlamaModel is defined *)
(** Building model, context and session from a path: a session
    handle, or the error of node-llama-cpp. *)
Variable loadLlama : string -> outcome string nat.
(** [session.prompt] raced against the timeout, for the call made at
    a given retry count: the reply, or the error message. *)
Variable sessionPrompt : nat -> string -> outcome string string.
Variable generateCode : string -> string.

Definition isReady (s : state) : bool :=
  match s with Some m => ready m | None => false end.

Definition initLocalModel : L unit :=
  do s <- get ;
  if isReady s then ret tt   (* Already initialized *)
  else
    tryCatch
      ((* Find the first available model *)
       emit (ReadDir modelsDir) ;;
       do files <- lift readdir ;
       match find isModelFile files with
       | None =>
           throw "No model files found. Install a model with: c9ai models install phi-3"
       | Some file =>
           let path := pathJoin modelsDir file in
           emit (Log ("Loading local model: " +:+ file +:+ "...")) ;;
           if llamaAvailable then
             (* Try to initialize real llama.cpp model *)
             tryCatch
               (emit (LoadModel path) ;;
                do handle <- lift (loadLlama path) ;
                put (Some {| modelPath := path; modelFile := file;
                             session := Some handle; ready := true;
                             fallbackMode := false |}) ;;
                emit (Log ("Phi-3 model loaded: " +:+ file)))
               (fun llamaError =>
                emit (Log ("Failed to load llama.cpp model: " +:+ llamaError)) ;;
                emit (Log "Falling back to pattern matching mode...") ;;
                (* Fallback to simulation mode *)
                put (Some {| modelPath := path; modelFile := file;
                             session := None; ready := true;
                             fallbackMode := true |}) ;;
                emit (Log ("Local model ready (fallback mode): " +:+ file)))
           else
             (* No llama.cpp available, use simulation mode *)
             emit (Sleep 1000%N) ;;   (* Simulate loading time *)
             put (Some {| modelPath := path; modelFile := file;
                          session := None; ready := true;
                          fallbackMode := true |}) ;;
             emit (Log ("Local model ready (pattern matching): " +:+ file))
       end)
      (fun message =>
         emit (ErrorLog ("Failed to initialize local model: " +:+ message)) ;;
         throw message).

Definition formatPhi3Prompt (userInput : string) : string :=
  "<|system|>You are a helpful AI assistant that converts natural language into actionable commands. Always respond with @action: followed by the command.<|end|>"
  +:+ nl +:+ "<|user|>" +:+ userInput +:+ "<|end|>" +:+ nl +:+ "<|assistant|>".

Definition runRealLocalAI (retryCount : nat) (prompt : string) : L string :=
  emit (Log "Querying local Phi-3 model...") ;;
  emit (Infer (formatPhi3Prompt prompt)) ;;
  do response <- lift (sessionPrompt retryCount (formatPhi3Prompt prompt)) ;
  if String.length (trim response) =? 0 then throw "Empty response from local model"
  else ret (trim response).

Definition runPatternMatchingAI (prompt : string) : L string :=
  emit (Sleep 500%N) ;;   (* Simulate processing time *)
  emit (PatternMatch prompt) ;;
  match Resolver.runPatternMatchingAI generateCode prompt with
  | Resolved text => ret text
  | Rejected message => throw message
  end.

(** The [try] block of [runLocalAI]: one call of the underlying
    inference. *)
Definition attempt (retryCount : nat) (prompt : string) : L string :=
  do s <- get ;
  match s with
  | None => throw "Cannot read properties of null (reading 'session')"
  | Some m =>
      (* Check if we have real llama.cpp integration *)
      match (if llamaAvailable then session m else None) with
      | Some _ => runRealLocalAI retryCount prompt
      | None => runPatternMatchingAI prompt
      end
  end.

Definition natToString (n : nat) : string :=
  String (ascii_of_nat (48 + n)) EmptyString.   (* one digit suffices here *)

Equations? runLocalAI (prompt : string) (retryCount : nat) : L string
  by wf (maxRetries - retryCount) lt :=
  runLocalAI prompt retryCount :=
    do s <- get ;
    (if isReady s then ret tt else initLocalModel) ;;
    tryCatch (attempt retryCount prompt)
      (fun message =>
         match lt_dec retryCount maxRetries with
         | left _ =>
             emit (Log ("Local AI retry " +:+ natToString (retryCount + 1) +:+ "/"
                        +:+ natToString maxRetries +:+ ": " +:+ message)) ;;
             emit (Sleep 1000%N) ;;   (* Wait before retry *)
             runLocalAI prompt (retryCount + 1)
         | right _ =>
             throw ("Local AI failed after " +:+ natToString maxRetries
                    +:+ " attempts: " +:+ message)
         end).
Proof. lia. Qed.

End WithEnvironment.

(** Calls of the underlying inference recorded in a trace. *)
Definition attempts (t : list event) : nat :=
  List.length
    (List.filter
       (fun ev => match ev with Infer _ | PatternMatch _ => true | _ => false end) t).

(** Backoff delays recorded in a trace. *)
Definition backoffs (t : list event) : nat :=
  List.length
    (List.filter
       (fun ev => match ev with Sleep ms => N.eqb ms 1000 | _ => false end) t).

(** Model loads recorded in a trace of [initLocalModel]: the real one
    and the simulated one. *)
Definition loads (t : list event) : nat :=
  List.length
    (List.filter
       (fun ev => match ev with
                  | LoadModel _ => true
                  | Sleep ms => N.eqb ms 1000
                  | _ => false
                  end) t).

End LocalModel.

(** ** Properties of the local-model session and of the retries *)

Module LocalModelFacts.
Import JsString Eff LocalModel.

Section WithEnvironment.
Variable modelsDir : string.
Variable pathJoin : string -> string -> string.
Variable readdir : outcome string (list string).
Variable llamaAvailable : bool.
Variable loadLlama : string -> outcome string nat.

Let init := initLocalModel modelsDir pathJoin readdir llamaAvailable loadLlama.

(** C8.  [initLocalModel] is idempotent.  With a ready session in
    place it returns at once: no directory read, no load, the same
    session object.  Hence after any call that returns, a second call
    is such a no-op, and the two calls together load at most once. *)
Theorem initLocalModel_idempotent (s : state) :
  (isReady s = true -> init s = (Ok tt, s, [])) /\
  (result (init s) = Ok tt ->
   isReady (final (init s)) = true /\
   init (final (init s)) = (Ok tt, final (init s), []) /\
   loads (trace (init s) ++ trace (init (final (init s)))) <= 1).
Proof.
  subst init.
  set (init := initLocalModel modelsDir pathJoin readdir llamaAvailable loadLlama).
  assert (Hready : forall s0, isReady s0 = true -> init s0 = (Ok tt, s0, [])).
  { intros s0 H. subst init. unfold initLocalModel, bind, get. rewrite H.
    reflexivity. }
  assert (Hrun : isReady s = false -> forall s1 t1, init s = (Ok tt, s1, t1) ->
            isReady s1 = true /\ loads t1 <= 1).
  { intros Hs. subst init.
    unfold initLocalModel, bind, get, tryCatch, lift, emit, put, throw, ret.
    rewrite Hs. intros s1 t1.
    destruct readdir as [files|msg]; cbn; [| discriminate].
    destruct (find isModelFile files) as [file|]; cbn; [| discriminate].
    destruct llamaAvailable; cbn.
    - destruct (loadLlama (pathJoin modelsDir file)) as [h|msg]; cbn;
        intros H; inversion H; subst; cbn; split; auto.
    - intros H; inversion H; subst; cbn; split; auto. }
  clearbody init.
  split; [apply Hready |].
  destruct (isReady s) eqn:Hs.
  - intros _. rewrite !(Hready s Hs). cbn. rewrite Hs, !(Hready s Hs). cbn. auto.
  - intros Hok. destruct (init s) as [[r s1] t1] eqn:E.
    unfold result in Hok. cbn in Hok. subst r.
    destruct (Hrun eq_refl s1 t1 eq_refl) as [Hr1 Hl1].
    cbn. rewrite !(Hready s1 Hr1). cbn. rewrite app_nil_r. auto.
Qed.

End WithEnvironment.

(** A models directory with one model file and a working llama.cpp. *)
Definition initWithModel : L unit :=
  initLocalModel "models" joinWithSlash (Ok ["notes.txt"; "phi-3.gguf"]) true
    (fun _ => Ok 1).

Lemma initLocalModel_idempotent_witness :
  loads (trace (initWithModel None)) = 1 /\
  initWithModel (final (initWithModel None)) = (Ok tt, final (initWithModel None), []).
Proof.
  split; [reflexivity |]. unfold initWithModel.
  apply (initLocalModel_idempotent "models" joinWithSlash
           (Ok ["notes.txt"; "phi-3.gguf"]) true (fun _ => Ok 1) None).
  reflexivity.
Defined.

Lemma attempts_app (a b : list event) : attempts (a ++ b) = attempts a + attempts b.
Proof. unfold attempts. rewrite List.filter_app, List.length_app. reflexivity. Qed.

Section RetryBound.
Variable modelsDir : string.
Variable pathJoin : string -> string -> string.
Variable readdir : outcome string (list string).
Variable llamaAvailable : bool.
Variable loadLlama : string -> outcome string nat.
Variable sessionPrompt : nat -> string -> outcome string string.
Variable generateCode : string -> string.

(** One pass through the [try] block calls the inference at most once and
    leaves the session as it was. *)
Lemma attempt_once (retryCount : nat) (prompt : string) (s : state) :
  final (attempt llamaAvailable sessionPrompt generateCode retryCount prompt s) = s /\
  attempts (trace (attempt llamaAvailable sessionPrompt generateCode retryCount prompt s)) <= 1.
Proof.
  unfold attempt, bind, get. destruct s as [m|]; cbn; [| auto].
  destruct (if llamaAvailable then session m else None).
  - unfold runRealLocalAI. generalize (formatPhi3Prompt prompt). intros formatted.
    unfold bind, emit, lift, throw, ret.
    destruct (sessionPrompt retryCount formatted) as [response|e]; cbn;
      [destruct (String.length (trim response) =? 0) |]; cbn; auto.
  - unfold runPatternMatchingAI, bind, emit, throw, ret. cbn.
    destruct (Resolver.runPatternMatchingAI generateCode prompt); cbn; auto.
Qed.

Let runAI := runLocalAI modelsDir pathJoin readdir llamaAvailable loadLlama
               sessionPrompt generateCode.

(** One turn of [runLocalAI] on a ready session. *)
Lemma runLocalAI_step (prompt : string) (retryCount : nat) (s : state) :
  isReady s = true ->
  runAI prompt retryCount s
  = match attempt llamaAvailable sessionPrompt generateCode retryCount prompt s with
    | (Ok text, s1, t1) => (Ok text, s1, t1)
    | (Throw e, s1, t1) =>
        if lt_dec retryCount maxRetries then
          match runAI prompt (retryCount + 1) s1 with
          | (r, s2, t2) =>
              (r, s2,
               t1 ++ Log ("Local AI retry " +:+ natToString (retryCount + 1) +:+ "/"
                          +:+ natToString maxRetries +:+ ": " +:+ e)
                  :: Sleep 1000 :: t2)
          end
        else
          (Throw ("Local AI failed after " +:+ natToString maxRetries
                  +:+ " attempts: " +:+ e), s1, t1 ++ [])
    end.
Proof.
  intros Hready. subst runAI. rewrite runLocalAI_equation_1.
  unfold bind at 1, get. cbn [fst snd]. rewrite Hready.
  unfold bind at 1, ret. unfold tryCatch.
  destruct (attempt llamaAvailable sessionPrompt generateCode retryCount prompt s)
    as [[[text|e] s1] t1]; [reflexivity |].
  destruct (lt_dec retryCount maxRetries); [| reflexivity].
  unfold bind, emit.
  destruct (runLocalAI modelsDir pathJoin readdir llamaAvailable loadLlama
              sessionPrompt generateCode prompt (retryCount + 1) s1) as [[r s2] t2].
  reflexivity.
Qed.

(** Whatever the inference does, a ready session sees at most
    [maxRetries + 1] calls of it from one [runLocalAI]: the bound of the
    code is one more than the number reported in its error text. *)
Lemma runLocalAI_attempts_bounded (prompt : string) (s : state) :
  isReady s = true ->
  forall budget retryCount,
    maxRetries - retryCount = budget ->
    attempts (trace (runAI prompt retryCount s)) <= budget + 1.
Proof.
  intros Hready. induction budget as [|budget IH]; intros retryCount Hb;
    rewrite (runLocalAI_step prompt retryCount s Hready);
    destruct (attempt_once retryCount prompt s) as [Hs Ha];
    destruct (attempt llamaAvailable sessionPrompt generateCode retryCount prompt s)
      as [[[text|e] s1] t1]; unfold final, trace in *; cbn [fst snd] in *;
    try lia; subst s1;
    (destruct (lt_dec retryCount maxRetries) as [Hlt|Hge];
       [| cbn [snd]; rewrite app_nil_r; lia]).
  - lia.
  - specialize (IH (retryCount + 1) ltac:(lia)).
    destruct (runAI prompt (retryCount + 1) s) as [[r2 s2] t2].
    cbn [snd] in *. rewrite attempts_app.
    change (attempts (_ :: _ :: t2)) with (attempts t2). lia.
Qed.
End RetryBound.

(** C3.  What the supervisor does when the inference call fails every
    time: with a ready session backed by a real model, the call is made
    at retry counts 0, 1, 2 and 3, that is [maxRetries + 1] = 4 times,
    with a one-second delay before each of the 3 retries; then the error
    is re-thrown under the text "failed after 3 attempts". *)
Theorem runLocalAI_attempts_when_inference_always_fails
  (modelsDir : string) (pathJoin : string -> string -> string)
  (readdir : outcome string (list string))
  (loadLlama : string -> outcome string nat) (generateCode : string -> string)
  (path file : string) (handle : nat) (prompt message : string) :
  let m := {| modelPath := path; modelFile := file; session := Some handle;
              ready := true; fallbackMode := false |} in
  let r := runLocalAI modelsDir pathJoin readdir true loadLlama
             (fun _ _ => Throw message) generateCode prompt 0 (Some m) in
  attempts (trace r) = 4 /\
  attempts (trace r) = maxRetries + 1 /\
  backoffs (trace r) = maxRetries /\
  result r = Throw ("Local AI failed after 3 attempts: " +:+ message) /\
  final r = Some m.
Proof.
  cbv zeta. vm_compute. repeat split; reflexivity.
Qed.

(** The same count in fallback mode, where the underlying call is the
    deterministic pattern resolver and a prompt it rejects is rejected
    every time. *)
Example runLocalAI_attempts_on_unrecognised_prompt :
  let m := {| modelPath := "models/phi-3.gguf"; modelFile := "phi-3.gguf";
              session := None; ready := true; fallbackMode := true |} in
  let r := runLocalAI "models" joinWithSlash (Ok ["phi-3.gguf"]) false
             (fun _ => Throw "unused") (fun _ _ => Throw "unused") id
             "xyzzy" 0 (Some m) in
  attempts (trace r) = 4 /\ backoffs (trace r) = 3 /\
  startsWith "Local AI failed after 3 attempts: "
    (match result r with Throw e => e | Ok _ => EmptyString end) = true.
Proof. vm_compute. auto. Qed.

End LocalModelFacts.

(** ** Application commands and the learned-mapping cache
       ([getApplicationCommand], [logFailureAndLearn]) *)

Module AppMap.
Import JsString Eff.
Local Open Scope eff_scope.

(** [failed_attempts[app][platform]] *)
Record failure : Type := {
  failedCommand : string;
  failedError : string;
  timestamp : string
}.

(** [this.appMappings] and [this.learningData]: objects keyed by the
    lower-cased application name, then by platform.  A missing
    [successful_mappings] or [failed_attempts] property is [None]. *)
Record state : Type := {
  appMappings : gmap string (gmap string string);
  successful_mappings : option (gmap string (gmap string string));
  failed_attempts : option (gmap string (gmap string failure))
}.

Inductive event : Type :=
| Spawn (command : string)       (* runCommand(command, true) *)
| Save                           (* saveAppMappings: errors are swallowed *)
| Log (text : string).

Definition A (T : Type) : Type := M state string event T.

(** [table[app][platform]] when it is a non-empty string. *)
Definition entry (table : gmap string (gmap string string)) (app platform : string)
  : option string :=
  match table !! app with
  | Some perPlatform =>
      match perPlatform !! platform with
      | Some name => if truthy name then Some name else None
      | None => None
      end
  | None => None
  end.

(** The command for a mapped or learned name. *)
Definition mappedCommand (platform name : string) : string :=
  if String.eqb platform "darwin" then "open -a " +:+ quoted name
  else if String.eqb platform "win32" then
    "start " +:+ dquote +:+ dquote +:+ " " +:+ quoted name
  else name.

(** The default command for an unmapped name. *)
Definition defaultCommand (platform appName : string) : string :=
  if String.eqb platform "darwin" then "open -a " +:+ quoted appName
  else if String.eqb platform "win32" then
    "start " +:+ dquote +:+ dquote +:+ " " +:+ quoted appName
  else "xdg-open " +:+ appName.

Definition getApplicationCommand (appName platform : string) : A string :=
  do st <- get ;
  let appLower := toLowerCase appName in
  (* Check if we have a mapping for this app *)
  match entry (appMappings st) appLower platform with
  | Some platformApp => ret (mappedCommand platform platformApp)
  | None =>
      (* Check learning data for successful mappings *)
      match
        match successful_mappings st with
        | Some learnt => entry learnt appLower platform
        | None => None
        end
      with
      | Some learnedApp =>
          emit (Log ("Using learned mapping: " +:+ appLower +:+ " -> " +:+ learnedApp)) ;;
          ret (mappedCommand platform learnedApp)
      | None =>
          (* Fallback to original behavior *)
          ret (defaultCommand platform appName)
      end
  end.

Definition suggestApplicationAlternatives (appName platform : string) : list string :=
  let perPlatform (darwin win32 linux : list string) :=
    if String.eqb platform "darwin" then darwin
    else if String.eqb platform "win32" then win32
    else if String.eqb platform "linux" then linux
    else [] in
  if String.eqb appName "calculator" then
    perPlatform ["Calculator"; "Spotlight Calculator"] ["calc"; "calculator.exe"]
      ["gnome-calculator"; "kcalc"; "qalculate-gtk"]
  else if String.eqb appName "notepad" then
    perPlatform ["TextEdit"; "Notes"] ["notepad"; "notepad.exe"] ["gedit"; "nano"; "vim"]
  else if String.eqb appName "terminal" then
    perPlatform ["Terminal"; "iTerm"] ["cmd"; "powershell"]
      ["gnome-terminal"; "konsole"; "xterm"]
  else [].

Section WithEnvironment.
Variable osPlatform : string.                              (* os.platform() *)
Variable now : string.                                     (* new Date().toISOString() *)
(** The subprocess behind [runCommand]: stdout, or the failure. *)
Variable spawnResult : string -> outcome string string.

Definition runCommand (command : string) : A string :=
  emit (Spawn command) ;; lift (spawnResult command).

Definition saveAppMappings : A unit := emit Save.

(** [successful_mappings[appLower][platform] = suggestion], creating
    the inner object when missing; reading a property of the missing
    [successful_mappings] throws. *)
Definition recordSuccess (appLower platform suggestion : string) : A unit :=
  do st <- get ;
  match successful_mappings st with
  | None => throw "Cannot read properties of undefined"
  | Some learnt =>
      let inner := default ∅ (learnt !! appLower) in
      put {| appMappings := appMappings st;
             successful_mappings :=
               Some (<[appLower := <[platform := suggestion]> inner]> learnt);
             failed_attempts := failed_attempts st |}
  end.

Definition recordFailure (appLower platform command errorMessage : string) : A unit :=
  do st <- get ;
  let failed := default ∅ (failed_attempts st) in
  let inner := default ∅ (failed !! appLower) in
  put {| appMappings := appMappings st;
         successful_mappings := successful_mappings st;
         failed_attempts :=
           Some (<[appLower :=
                     <[platform := {| failedCommand := command;
                                      failedError := errorMessage;
                                      timestamp := now |}]> inner]> failed) |}.

(** The [for] loop over the suggestions; [true] when an alternative
    worked and the method returned from inside the loop. *)
Fixpoint tryAlternatives (appLower platform : string) (suggestions : list string)
  : A bool :=
  match suggestions with
  | [] => ret false
  | suggestion :: more =>
      emit (Log ("   - " +:+ suggestion)) ;;
      do learned <-
        tryCatch
          (do altCommand <- getApplicationCommand suggestion platform ;
           do _ <- runCommand altCommand ;
           (* If successful, learn this mapping *)
           recordSuccess appLower platform suggestion ;;
           emit (Log ("Found working alternative: " +:+ suggestion)) ;;
           emit (Log ("Learned: " +:+ quoted appLower +:+ " -> " +:+ quoted suggestion)) ;;
           saveAppMappings ;;
           ret true)
          (fun _ =>
             emit (Log ("   " +:+ suggestion +:+ " also failed")) ;;
             ret false) ;
      if (learned : bool) then ret true else tryAlternatives appLower platform more
  end.

(** [parameters.target] is [None] when the property is missing. *)
Definition logFailureAndLearn (toolName : string) (target : option string)
  (command errorMessage : string) : A unit :=
  tryCatch
    (do st <- get ;
     (match failed_attempts st with
      | Some _ => ret tt
      | None => put {| appMappings := appMappings st;
                       successful_mappings := successful_mappings st;
                       failed_attempts := Some ∅ |}
      end) ;;
     (* For application opening failures, try to suggest alternatives *)
     match target with
     | Some t =>
         if String.eqb toolName "open_application" && truthy t then
           let appLower := toLowerCase t in
           let platform := osPlatform in
           recordFailure appLower platform command errorMessage ;;
           (* Try to suggest alternatives based on app name *)
           let suggestions := suggestApplicationAlternatives appLower platform in
           do learned <-
             (if 0 <? List.length suggestions then
                emit (Log "Trying alternative applications:") ;;
                tryAlternatives appLower platform suggestions
              else ret false) ;
           if (learned : bool) then ret tt else saveAppMappings
         else ret tt
     | None => ret tt
     end)
    (fun _ => ret tt).   (* Fail silently for logging errors *)

End WithEnvironment.

(** The learned executable of an application on a platform. *)
Definition learnedFor (st : state) (appLower platform : string) : option string :=
  match successful_mappings st with
  | Some learnt => entry learnt appLower platform
  | None => None
  end.

Definition spawned (t : list event) : list string :=
  flat_map (fun ev => match ev with Spawn c => [c] | _ => [] end) t.

End AppMap.

(** ** Properties of the learned-mapping cache *)

Module AppMapFacts.
Import JsString Eff AppMap.

(** C9, as the code has it.  Once an executable is recorded for an
    application under [successful_mappings] on a platform, every lookup
    of that application (in any letter case) on that platform returns
    the command built from the learned executable, instead of the default
    command and without starting any process, provided the static
    application table has no entry for it on that platform: a static
    entry is consulted first. *)
Theorem learned_mapping_preferred (st : state) (alias platform learned : string) :
  entry (appMappings st) (toLowerCase alias) platform = None ->
  learnedFor st (toLowerCase alias) platform = Some learned ->
  result (getApplicationCommand alias platform st) = Ok (mappedCommand platform learned) /\
  final (getApplicationCommand alias platform st) = st /\
  spawned (trace (getApplicationCommand alias platform st)) = [].
Proof.
  intros Hstatic Hlearned. unfold learnedFor in Hlearned.
  unfold getApplicationCommand, bind, get. cbn.
  rewrite Hstatic, Hlearned. cbn. auto.
Qed.

Section Learning.
Variable osPlatform : string.
Variable now : string.
Variable spawnResult : string -> outcome string string.

(** When the loop over the alternatives reports success, one of the
    suggestions is recorded for the application on the platform. *)
Lemma tryAlternatives_records appLower platform : forall suggestions st st' t,
  tryAlternatives spawnResult appLower platform suggestions st = (Ok true, st', t) ->
  exists s learnt inner,
    In s suggestions /\
    successful_mappings st' = Some learnt /\
    learnt !! appLower = Some inner /\ inner !! platform = Some s.
Proof.
  induction suggestions as [|s more IH]; intros st st' t H.
  - cbn in H. inversion H.
  - cbn [tryAlternatives] in H.
    unfold bind at 1 in H. cbn [emit] in H.
    unfold bind at 1 in H.
    destruct (tryCatch _ _ st) as [[r1 s1] t1] eqn:Etry.
    destruct r1 as [[|]|e].
    + (* this suggestion worked *)
      cbn in H. inversion H; subst st' t. clear H.
      unfold tryCatch in Etry.
      match type of Etry with
      | match ?body with _ => _ end = _ =>
          destruct body as [[r2 s2] t2] eqn:Ebody
      end.
      destruct r2 as [b|e].
      2:{ cbn in Etry. inversion Etry. }
      inversion Etry; subst b s2 t2. clear Etry.
      unfold bind at 1 in Ebody.
      destruct (getApplicationCommand s platform st) as [[rc sc] tc] eqn:Ecmd.
      assert (sc = st) as ->.
      { clear -Ecmd. unfold getApplicationCommand, bind, get in Ecmd. cbn in Ecmd.
        destruct (entry _ _ _); [inversion Ecmd; reflexivity |].
        destruct (match successful_mappings st with Some _ => _ | None => _ end);
          cbn in Ecmd; inversion Ecmd; reflexivity. }
      destruct rc as [altCommand|e]; [| inversion Ebody].
      unfold bind at 1, runCommand, bind at 1, emit, lift in Ebody.
      destruct (spawnResult altCommand) as [out|e]; [| cbn in Ebody; inversion Ebody].
      unfold recordSuccess, bind, get, put, emit, saveAppMappings, ret, throw in Ebody.
      cbn in Ebody.
      destruct (successful_mappings st) as [learnt|] eqn:Hsm;
        cbn in Ebody; inversion Ebody; subst s1. clear Ebody.
      exists s, (<[appLower := <[platform := s]> (default ∅ (learnt !! appLower))]> learnt),
             (<[platform := s]> (default ∅ (learnt !! appLower))).
      repeat split.
      * left; reflexivity.
      * apply lookup_insert_eq.
      * apply lookup_insert_eq.
    + (* try the next one *)
      destruct (tryAlternatives spawnResult appLower platform more s1)
        as [[r3 s3] t3] eqn:Enext.
      cbn in H. inversion H; subst r3 s3 t. clear H.
      apply IH in Enext as (s0 & learnt & inner & Hin & ? & ? & ?).
      exists s0, learnt, inner. repeat split; auto. right; exact Hin.
    + cbn in H. inversion H.
Qed.
End Learning.

(** A session on Linux with no static entry for the calculator: opening
    it failed, and the second alternative started. *)
Definition onlyKcalc (command : string) : outcome string string :=
  if String.eqb command "xdg-open kcalc" then Ok EmptyString
  else Throw "command not found".

Definition fresh : state :=
  {| appMappings := ∅; successful_mappings := Some ∅; failed_attempts := None |}.

Definition afterLearning (st : state) : state :=
  final (logFailureAndLearn "linux" "2025-01-01T00:00:00.000Z" onlyKcalc
           "open_application" (Some "Calculator") "xdg-open Calculator"
           "command not found" st).

Lemma learned_mapping_preferred_witness :
  learnedFor (afterLearning fresh) "calculator" "linux" = Some "kcalc" /\
  result (getApplicationCommand "Calculator" "linux" (afterLearning fresh)) = Ok "kcalc".
Proof.
  split; [vm_compute; reflexivity |].
  apply (learned_mapping_preferred (afterLearning fresh) "Calculator" "linux" "kcalc");
    vm_compute; reflexivity.
Defined.

(** The same session with a static entry whose executable is missing:
    the alternative is learned, yet the next lookup still returns the
    static entry. *)
Definition withStaticEntry : state :=
  {| appMappings := {[ "calculator" := {[ "linux" := "galculator" ]} ]};
     successful_mappings := Some ∅; failed_attempts := None |}.

Lemma learned_mapping_not_always_preferred :
  ~ (forall st alias platform learned,
       learnedFor st (toLowerCase alias) platform = Some learned ->
       result (getApplicationCommand alias platform st)
       = Ok (mappedCommand platform learned)).
Proof.
  intros H.
  specialize (H (afterLearning withStaticEntry) "calculator" "linux" "kcalc").
  assert (learnedFor (afterLearning withStaticEntry) (toLowerCase "calculator") "linux"
          = Some "kcalc") as Hl by (vm_compute; reflexivity).
  specialize (H Hl). vm_compute in H. discriminate H.
Qed.

End AppMapFacts.

(** * Further properties of the modelled code *)

(** ** More facts about the string primitives *)

Module JsStringMore.
Import JsString JsStringFacts.

Lemma append_nil_r (s : string) : s +:+ EmptyString = s.
Proof. induction s as [|c s IH]; simpl; [reflexivity | f_equal; exact IH]. Qed.

Lemma length_append (a b : string) :
  String.length (a +:+ b) = String.length a + String.length b.
Proof. induction a as [|c a IH]; simpl; [reflexivity | f_equal; exact IH]. Qed.

(** [s.split(' ').join(' ')] gives [s] back. *)
Lemma join_split (s : string) : join " " (split " " s) = s.
Proof.
  induction s as [|c s IH]; [reflexivity |].
  cbn [split]. destruct (Ascii.eqb c " ") eqn:E.
  - apply Ascii.eqb_eq in E. subst c.
    destruct (split " " s) as [|h t] eqn:Hs; [destruct s; simpl in Hs |].
    + discriminate Hs.
    + destruct (Ascii.eqb a " "); [discriminate Hs |].
      destruct (split " " s); discriminate Hs.
    + transitivity (String " " (join " " (h :: t))); [reflexivity | f_equal; exact IH].
  - destruct (split " " s) as [|h t] eqn:Hs.
    + destruct s as [|a s]; simpl in Hs; [discriminate Hs |].
      destruct (Ascii.eqb a " "); [discriminate Hs |].
      destruct (split " " s); discriminate Hs.
    + transitivity (String c (join " " (h :: t))); [| f_equal; exact IH].
      destruct t; reflexivity.
Qed.

(** The first token and the remaining tokens of [w ++ " " ++ text] when
    [w] has no blank. *)
Lemma split_cons (sep c : ascii) (s : string) :
  split sep (String c s)
  = if Ascii.eqb c sep then EmptyString :: split sep s
    else match split sep s with
         | h :: t => String c h :: t
         | [] => [String c EmptyString]
         end.
Proof. reflexivity. Qed.

Lemma split_first_word (w text : string) :
  includes " " w = false ->
  split " " (w +:+ " " +:+ text) = w :: split " " text.
Proof.
  induction w as [|c w IH]; intros Hw.
  - reflexivity.
  - rewrite includes_unfold in Hw. apply orb_false_iff in Hw as [Hc Hw].
    change (String c w +:+ " " +:+ text) with (String c (w +:+ " " +:+ text)).
    rewrite split_cons. destruct (Ascii.eqb c " ") eqn:E.
    + apply Ascii.eqb_eq in E. subst c. simpl in Hc.
      destruct w; discriminate Hc.
    + rewrite (IH Hw). reflexivity.
Qed.

Lemma lowerChar_idempotent (c : ascii) : lowerChar (lowerChar c) = lowerChar c.
Proof. destruct c as [[] [] [] [] [] [] [] []]; vm_compute; reflexivity. Qed.

Lemma toLowerCase_idempotent (s : string) : toLowerCase (toLowerCase s) = toLowerCase s.
Proof.
  induction s as [|c s IH]; simpl; [reflexivity |].
  rewrite lowerChar_idempotent, IH. reflexivity.
Qed.

Lemma trimStart_idempotent (s : string) : trimStart (trimStart s) = trimStart s.
Proof.
  induction s as [|c s IH]; simpl; [reflexivity |].
  destruct (isWhiteSpace c) eqn:E; [exact IH |]. simpl. rewrite E. reflexivity.
Qed.

Lemma trimEnd_idempotent (s : string) : trimEnd (trimEnd s) = trimEnd s.
Proof.
  induction s as [|c s IH]; simpl; [reflexivity |].
  destruct (trimEnd s) as [|d t] eqn:E.
  - destruct (isWhiteSpace c) eqn:Ec; simpl; [reflexivity |]. rewrite Ec. reflexivity.
  - simpl in *. rewrite IH. reflexivity.
Qed.

(** Trimming the end keeps a head that is not white space. *)
Lemma trimEnd_head (c : ascii) (s : string) :
  isWhiteSpace c = false -> exists t, trimEnd (String c s) = String c t.
Proof.
  intros Hc. simpl. destruct (trimEnd s); [rewrite Hc |]; eauto.
Qed.

Lemma trimStart_trimEnd (s : string) : trimStart (trimEnd s) = trimEnd (trimStart s).
Proof.
  induction s as [|c s IH]; [reflexivity |].
  cbn [trimStart]. destruct (isWhiteSpace c) eqn:Ec.
  - rewrite <- IH. cbn [trimEnd]. destruct (trimEnd s) as [|d t] eqn:E.
    + rewrite Ec. reflexivity.
    + cbn [trimStart]. rewrite Ec. reflexivity.
  - destruct (trimEnd_head c s Ec) as [t Ht]. rewrite Ht. simpl. rewrite Ec. reflexivity.
Qed.

Lemma trim_idempotent (s : string) : trim (trim s) = trim s.
Proof.
  unfold trim.
  rewrite (trimStart_trimEnd (trimStart s)), trimStart_idempotent, trimEnd_idempotent.
  reflexivity.
Qed.

(** A one-character search is a scan for that code unit. *)
Lemma includes_char_cons (c d : ascii) (s : string) :
  includes (String c EmptyString) (String d s)
  = Ascii.eqb c d || includes (String c EmptyString) s.
Proof.
  rewrite includes_unfold. f_equal. simpl.
  destruct (ascii_dec c d) as [->|Hne].
  - rewrite Ascii.eqb_refl. destruct s; reflexivity.
  - symmetry. apply Ascii.eqb_neq. exact Hne.
Qed.

Lemma includes_char_nil (c : ascii) : includes (String c EmptyString) EmptyString = false.
Proof. reflexivity. Qed.

Lemma includes_char_trimStart (c : ascii) (s : string) :
  isWhiteSpace c = false ->
  includes (String c EmptyString) (trimStart s) = includes (String c EmptyString) s.
Proof.
  intros Hc. induction s as [|d s IH]; [reflexivity |].
  cbn [trimStart]. destruct (isWhiteSpace d) eqn:Ed; [| reflexivity].
  rewrite IH, includes_char_cons.
  destruct (Ascii.eqb c d) eqn:E; [| reflexivity].
  apply Ascii.eqb_eq in E. congruence.
Qed.

Lemma includes_char_trimEnd (c : ascii) (s : string) :
  isWhiteSpace c = false ->
  includes (String c EmptyString) (trimEnd s) = includes (String c EmptyString) s.
Proof.
  intros Hc. induction s as [|d s IH]; [reflexivity |].
  cbn [trimEnd]. rewrite includes_char_cons, <- IH.
  destruct (trimEnd s) as [|e t] eqn:E.
  - destruct (isWhiteSpace d) eqn:Ed.
    + destruct (Ascii.eqb c d) eqn:Ecd; [| reflexivity].
      apply Ascii.eqb_eq in Ecd. congruence.
    + rewrite includes_char_cons. reflexivity.
  - rewrite includes_char_cons. reflexivity.
Qed.

Lemma includes_char_trim (c : ascii) (s : string) :
  isWhiteSpace c = false ->
  includes (String c EmptyString) (trim s) = includes (String c EmptyString) s.
Proof.
  intros Hc. unfold trim.
  rewrite includes_char_trimEnd, includes_char_trimStart; auto.
Qed.

(** A code unit that lower-casing neither produces nor changes. *)
Lemma includes_char_toLowerCase (c : ascii) (s : string) :
  (forall d, Ascii.eqb c (lowerChar d) = Ascii.eqb c d) ->
  includes (String c EmptyString) (toLowerCase s) = includes (String c EmptyString) s.
Proof.
  intros Hc. induction s as [|d s IH]; [reflexivity |].
  cbn [toLowerCase]. rewrite !includes_char_cons, IH, Hc. reflexivity.
Qed.

Lemma question_mark_not_folded (d : ascii) : Ascii.eqb "?" (lowerChar d) = Ascii.eqb "?" d.
Proof. destruct d as [[] [] [] [] [] [] [] []]; vm_compute; reflexivity. Qed.

End JsStringMore.

(** ** More properties of the classifier *)

Module ClassifierMore.
Import JsString JsStringFacts JsStringMore Regex Classifier.

Lemma trim_toLowerCase (s : string) : trim (toLowerCase s) = toLowerCase (trim s).
Proof. unfold trim. rewrite trimStart_toLowerCase, trimEnd_toLowerCase. reflexivity. Qed.

Lemma question_mark_survives (input : string) :
  includes "?" (trim (toLowerCase input)) = includes "?" input.
Proof.
  rewrite includes_char_trim by reflexivity.
  apply includes_char_toLowerCase, question_mark_not_folded.
Qed.

(** X1.  The classifier reads its input only through the lower-cased, trimmed
    text: two inputs that agree up to letter case and surrounding white
    space are classified alike. *)
Theorem classification_ignores_case_and_margins (a b : string) :
  trim (toLowerCase a) = trim (toLowerCase b) ->
  isConversationalInput a = isConversationalInput b.
Proof.
  intros H. unfold isConversationalInput.
  rewrite <- (question_mark_survives a), <- (question_mark_survives b), H.
  reflexivity.
Qed.

Lemma classification_ignores_case_and_margins_witness :
  isConversationalInput "  Will You Help Me Sort These Files?  "
  = isConversationalInput "will you help me sort these files?".
Proof.
  apply (classification_ignores_case_and_margins
           "  Will You Help Me Sort These Files?  "
           "will you help me sort these files?").
  vm_compute. reflexivity.
Defined.



End ClassifierMore.

(** ** More properties of the resolver *)

Module ResolverMore.
Import JsString JsStringFacts JsStringMore Regex Resolver.

Lemma research_contains_search (s : string) :
  includes "research" s = true -> includes "search" s = true.
Proof.
  intros H. apply includes_split in H as (a & b & ->).
  change ("research" +:+ b) with ("re" +:+ "search" +:+ b).
  rewrite <- append_assoc. apply includes_append.
Qed.

(** X3.  The target "research_paper.tex" of the compile rule cannot be
    reached: a prompt that contains "research" contains "search", and the
    search rule (or an earlier one) answers first.  Such a prompt never
    resolves to a compile action. *)
Theorem research_never_compiles (generateCode : string -> string) (prompt target : string) :
  includes "research" (toLowerCase prompt) = true ->
  runPatternMatchingAI generateCode prompt <> Resolved ("@action: compile " +:+ target).
Proof.
  intros H. apply research_contains_search in H.
  unfold runPatternMatchingAI. rewrite H.
  repeat match goal with
         | |- context [if ?c then _ else _] => destruct c
         end;
    intros Heq; inversion Heq.
Qed.

Lemma research_never_compiles_witness :
  runPatternMatchingAI (fun _ => EmptyString) "compile my research paper"
  <> Resolved ("@action: compile " +:+ "research_paper.tex").
Proof.
  apply (research_never_compiles (fun _ => EmptyString) "compile my research paper"
           "research_paper.tex").
  reflexivity.
Defined.

(** Words whose mere presence selects a rule of the cascade. *)
Definition triggerWords : list string :=
  ["thank"; "open"; "search"; "compile"; "build"; "run"; "create"; "make"; "write";
   "close"; "exit"; "quit"].



End ResolverMore.

(** ** More properties of the intent executor *)

Module IntentMore.
Import JsString Eff Intent.

(** The subprocess commands of a trace, in order. *)
Definition spawnedCommands (t : list event) : list string :=
  flat_map (fun ev => match ev with Spawn c => [c] | _ => [] end) t.

Section WithPlatform.
Variable osType : string.
Variable scriptsDir : string.
Variable pathJoin : string -> string -> string.
Variable fsExists : string -> bool.
Variable encodeURIComponent : string -> string.
Variable spawnResult : string -> outcome string string.

Let execute := runIntent osType scriptsDir pathJoin fsExists encodeURIComponent spawnResult.

(** X5.  Every call of [runIntent] ends in one of three ways.  It returns
    after exactly one subprocess that succeeded; or it fails with the
    error of exactly one subprocess that failed; or it fails before any
    subprocess with an unknown verb, an unsupported target or a missing
    script.  The final "Could not determine command" error is never
    raised. *)
Theorem runIntent_outcomes (verb target : string) :
  match result (execute verb target tt) with
  | Ok _ =>
      exists command out,
        spawnedCommands (trace (execute verb target tt)) = [command] /\
        spawnResult command = Ok out
  | Throw e =>
      match kind e with
      | CommandFailed =>
          exists command,
            spawnedCommands (trace (execute verb target tt)) = [command] /\
            spawnResult command = Throw (message e)
      | NoCommand => False
      | UnknownVerb | UnsupportedTarget | ScriptNotFound =>
          spawnedCommands (trace (execute verb target tt)) = []
      end
  end.
Proof.
  subst execute. unfold runIntent, runCommand, bind, emit, ret, throw, result, trace.
  cbn.
  repeat match goal with
         | |- context [if ?c then _ else _] =>
             lazymatch c with
             | context [if _ then _ else _] => fail
             | _ => destruct c eqn:?
             end; cbn
         end;
    repeat match goal with
           | |- context [spawnResult ?c] => destruct (spawnResult c) eqn:?; cbn
           end;
    eauto.
Qed.

(** An unknown verb is a terminal error: nothing is looked up and nothing
    is run. *)
Theorem runIntent_unknown_verb (verb target : string) :
  existsb (String.eqb (toLowerCase verb)) ["open"; "compile"; "run"; "search"] = false ->
  execute verb target tt
  = (Throw (Error UnknownVerb ("Unknown intent verb: " +:+ verb)), tt,
     [Log ("[DEBUG] runIntent: Verb - " +:+ verb +:+ ", Target - " +:+ target)]).
Proof.
  intros H. cbn in H. repeat (apply orb_false_iff in H as [? H]).
  subst execute. unfold runIntent.
  repeat match goal with E : String.eqb (toLowerCase verb) _ = false |- _ =>
    rewrite E; clear E end.
  reflexivity.
Qed.

End WithPlatform.

Lemma runIntent_unknown_verb_witness :
  result (runIntent "linux" "scripts" joinWithSlash (fun _ => true) id
            (fun _ => Ok EmptyString) "delete" "notes.txt" tt)
  = Throw (Error UnknownVerb "Unknown intent verb: delete").
Proof.
  rewrite (runIntent_unknown_verb "linux" "scripts" joinWithSlash (fun _ => true) id
             (fun _ => Ok EmptyString) "delete" "notes.txt"); reflexivity.
Defined.

End IntentMore.

(** ** Executing a resolved action ([executeAction]) *)

Module Actions.
Import JsString Eff Intent.
Local Open Scope eff_scope.

(** [s.replace(pattern, replacement)] with a string pattern: the first
    occurrence only. *)
Fixpoint replaceFirst (pattern replacement s : string) : string :=
  if String.prefix pattern s then replacement +:+ substring (String.length pattern) s
  else match s with
       | EmptyString => EmptyString
       | String c s' => String c (replaceFirst pattern replacement s')
       end.

(** The action handed to [executeAction] by [processNaturalLanguageCommand]
    for a response that starts with "@action:":
    [response.replace('@action:', '').trim()]. *)
Definition actionOf (response : string) : string :=
  trim (replaceFirst "@action:" EmptyString response).

Section WithPlatform.
Variable osType : string.                          (* process.platform / os.platform() *)
Variable scriptsDir : string.
Variable pathJoin : string -> string -> string.
Variable fsExists : string -> bool.
Variable encodeURIComponent : string -> string.
Variable spawnResult : string -> outcome string string.

Let runIntent := Intent.runIntent osType scriptsDir pathJoin fsExists
                   encodeURIComponent spawnResult.
Let runCommand := Intent.runCommand spawnResult.

(** [const result = await this.runCommand(command, true); console.log(result)] *)
Definition runAndShow (command : string) : M unit error event unit :=
  do out <- runCommand command ; emit (Log out).

Definition executeAction (action : string) : M unit error event unit :=
  emit (Log ("Executing: " +:+ action)) ;;
  tryCatch
    (let isWindows := String.eqb osType "win32" in
     (* Parse different action types *)
     if startsWith "open " action then
       runIntent "open" (trim (replaceFirst "open " EmptyString action))
     else if startsWith "search " action then
       runIntent "search" (trim (replaceFirst "search " EmptyString action))
     else if startsWith "list " action then
       (* Handle list commands *)
       runAndShow (if isWindows then "dir" else "ls -la")
     else if includes "disk usage" action then
       runAndShow (if isWindows then "wmic logicaldisk get size,freespace,caption"
                   else "df -h")
     else if includes "processes" action then
       runAndShow (if isWindows then "tasklist" else "ps aux | head -20")
     else if startsWith "compile " action then
       runIntent "compile" (trim (replaceFirst "compile " EmptyString action))
     else if startsWith "run " action then
       let script := trim (replaceFirst "run " EmptyString action) in
       (* Handle different file types *)
       if endsWith ".py" script then
         runAndShow ((if isWindows then "python" else "python3") +:+ " " +:+ script)
       else if endsWith ".js" script then runAndShow ("node " +:+ script)
       else if endsWith ".sh" script then runAndShow ("bash " +:+ script)
       else if endsWith ".bat" script then runAndShow script
       else
         (* Fallback to runIntent for other types *)
         runIntent "run" script
     else
       (* Generic command execution *)
       runAndShow action)
    (fun e => emit (Log ("Action failed: " +:+ message e))).

End WithPlatform.

End Actions.

(** ** Properties of [executeAction] *)

Module ActionsFacts.
Import JsString JsStringFacts JsStringMore Eff Intent IntentMore Actions Resolver.

Lemma replaceFirst_unfold (p r s : string) :
  replaceFirst p r s
  = if String.prefix p s then r +:+ substring (String.length p) s
    else match s with
         | EmptyString => EmptyString
         | String c s' => String c (replaceFirst p r s')
         end.
Proof. destruct s; reflexivity. Qed.

Lemma substring_append (p b : string) : substring (String.length p) (p +:+ b) = b.
Proof. induction p as [|c p IH]; simpl; [destruct b; reflexivity | exact IH]. Qed.

Lemma replaceFirst_prefix (p r b : string) : replaceFirst p r (p +:+ b) = r +:+ b.
Proof.
  rewrite replaceFirst_unfold, prefix_append, substring_append. reflexivity.
Qed.

Lemma trimEnd_append (a t : string) (c : ascii) (t' : string) :
  trimEnd t = String c t' -> trimEnd (a +:+ t) = a +:+ trimEnd t.
Proof.
  intros Ht. induction a as [|d a IH]; [reflexivity |].
  simpl. rewrite IH, Ht. destruct a; reflexivity.
Qed.

(** A non-empty trimmed text stays as it is behind a prefix that starts
    with a visible code unit. *)
Lemma trim_prefixed (c : ascii) (a t : string) :
  isWhiteSpace c = false -> t <> EmptyString -> trim t = t ->
  trim (String c a +:+ t) = String c a +:+ t.
Proof.
  intros Hc Hne Ht.
  assert (trimEnd t = t) as He.
  { rewrite <- Ht at 1. unfold trim. rewrite trimEnd_idempotent. exact Ht. }
  destruct t as [|e t']; [congruence |].
  unfold trim. change (String c a +:+ String e t') with (String c (a +:+ String e t')).
  cbn [trimStart]. rewrite Hc.
  change (String c (a +:+ String e t')) with (String c a +:+ String e t').
  rewrite (trimEnd_append _ _ e t' He), He. reflexivity.
Qed.

Section WithPlatform.
Variable osType : string.
Variable scriptsDir : string.
Variable pathJoin : string -> string -> string.
Variable fsExists : string -> bool.
Variable encodeURIComponent : string -> string.
Variable spawnResult : string -> outcome string string.

Let act := executeAction osType scriptsDir pathJoin fsExists encodeURIComponent spawnResult.
Let intent := runIntent osType scriptsDir pathJoin fsExists encodeURIComponent spawnResult.

Lemma runIntent_spawns_at_most_once (verb target : string) :
  List.length (spawnedCommands (trace (intent verb target tt))) <= 1.
Proof.
  subst intent. unfold runIntent, runCommand, bind, emit, ret, throw, trace.
  cbn.
  repeat match goal with
         | |- context [if ?c then _ else _] =>
             lazymatch c with
             | context [if _ then _ else _] => fail
             | _ => destruct c eqn:?
             end; cbn
         end;
    repeat match goal with
           | |- context [spawnResult ?c] => destruct (spawnResult c) eqn:?; cbn
           end;
    lia.
Qed.

(** X6.  [executeAction] never throws, whatever the action and whatever the
    subprocess does, and it starts at most one subprocess. *)
Theorem executeAction_is_contained (action : string) :
  result (act action tt) = Ok tt /\
  List.length (spawnedCommands (trace (act action tt))) <= 1.
Proof.
  subst act. unfold executeAction.
  assert (Hshow : forall c,
    List.length (spawnedCommands
      (trace (runAndShow spawnResult c tt))) <= 1).
  { intros c. unfold runAndShow, Intent.runCommand, bind, emit, ret, throw, trace. cbn.
    destruct (spawnResult c); cbn; lia. }
  assert (Hwrap : forall body : M unit error event unit,
    List.length (spawnedCommands (trace (body tt))) <= 1 ->
    result ((bind (emit (Log ("Executing: " +:+ action)))
               (fun _ => tryCatch body
                  (fun e => emit (Log ("Action failed: " +:+ message e))))) tt) = Ok tt /\
    List.length (spawnedCommands (trace
      ((bind (emit (Log ("Executing: " +:+ action)))
               (fun _ => tryCatch body
                  (fun e => emit (Log ("Action failed: " +:+ message e))))) tt))) <= 1).
  { intros body Hb. unfold bind, tryCatch, emit, result, trace in *. cbn in *.
    destruct (body tt) as [[[[]|e] []] t]; cbn in *; split; auto.
    unfold spawnedCommands in *. rewrite flat_map_app, List.length_app. simpl. lia. }
  apply Hwrap.
  repeat match goal with
         | |- context [if ?c then _ else _] =>
             lazymatch c with
             | context [if _ then _ else _] => fail
             | _ => destruct c
             end
         end;
    first [apply Hshow | apply runIntent_spawns_at_most_once].
Qed.


(** X8.  From the resolver to the subprocess: the response "@action: open T"
    with a non-empty trimmed target [T], stripped as
    [processNaturalLanguageCommand] strips it, makes [executeAction] run
    [runIntent('open', T)] and nothing else. *)
Theorem open_response_reaches_runIntent (target : string) :
  target <> EmptyString -> trim target = target ->
  act (actionOf ("@action: open " +:+ target)) tt
  = match intent "open" target tt with
    | (Ok u, s, t) => (Ok u, s, Log ("Executing: open " +:+ target) :: t)
    | (Throw e, s, t) =>
        (Ok tt, s, Log ("Executing: open " +:+ target) :: t
                   ++ [Log ("Action failed: " +:+ message e)])
    end.
Proof.
  intros Hne Ht. unfold actionOf.
  change ("@action: open " +:+ target) with ("@action:" +:+ (" open " +:+ target)).
  rewrite replaceFirst_prefix. change (EmptyString +:+ " open " +:+ target)
    with (String " " ("open " +:+ target)).
  assert (trim (String " " ("open " +:+ target)) = "open " +:+ target) as ->.
  { unfold trim. cbn [trimStart]. change (isWhiteSpace " ") with true. cbn iota.
    apply (trim_prefixed "o" "pen " target eq_refl Hne Ht). }
  subst act intent. unfold executeAction, startsWith.
  rewrite prefix_append, replaceFirst_prefix.
  change (EmptyString +:+ target) with target. rewrite Ht.
  unfold bind, tryCatch, emit.
  destruct (runIntent osType scriptsDir pathJoin fsExists encodeURIComponent
              spawnResult "open" target tt) as [[[[]|e] []] t]; reflexivity.
Qed.

End WithPlatform.

(** The target the "open" rule of the resolver hands on is trimmed. *)
Lemma openTarget_trimmed (taskLower : string) : trim (openTarget taskLower) = openTarget taskLower.
Proof.
  unfold openTarget.
  repeat match goal with
         | |- context [if ?c then _ else _] => destruct c
         end; try reflexivity.
  destruct (matchGroup openRe 1 taskLower); [apply trim_idempotent | reflexivity].
Qed.


Lemma open_response_reaches_runIntent_witness :
  executeAction "linux" "scripts" joinWithSlash (fun _ => false) id
    (fun _ => Ok EmptyString)
    (actionOf ("@action: open " +:+ openTarget "open the pod bay doors")) tt
  = (Ok tt, tt,
     [Log "Executing: open the pod bay doors";
      Log "[DEBUG] runIntent: Verb - open, Target - the pod bay doors";
      Log ("[DEBUG] runIntent: Executing command - xdg-open " +:+ quoted "the pod bay doors");
      Spawn ("xdg-open " +:+ quoted "the pod bay doors")]).
Proof.
  rewrite (open_response_reaches_runIntent "linux" "scripts" joinWithSlash
             (fun _ => false) id (fun _ => Ok EmptyString)
             (openTarget "open the pod bay doors")).
  - reflexivity.
  - vm_compute. discriminate.
  - apply openTarget_trimmed.
Defined.

End ActionsFacts.

(** ** Cloud sessions ([runAI], [startInteractiveSession]) *)

Module Sessions.
Import JsString Eff.
Local Open Scope eff_scope.

Inductive event : Type :=
| Log (text : string)
| LogInteraction (model prompt : string)           (* logInteraction: never throws *)
| SpawnSession (command : string) (args : list string).
                                                    (* spawn(command, args, {stdio: 'inherit', shell: true}) *)

Definition S (A : Type) : Type := M unit string event A.

Section WithUpperCase.
(** [String.prototype.toUpperCase], used only in console texts. *)
Variable toUpperCase : string -> string.

Definition startInteractiveSession (model initialPrompt : string) : S unit :=
  emit (Log ("Entering interactive session with " +:+ toUpperCase model
             +:+ ". Type 'exit' or 'quit' to return.")) ;;
  let command := if String.eqb model "claude" then "claude" else "gemini" in
  let args := if truthy initialPrompt then [initialPrompt] else [] in
  (* the promise resolves on 'close' and on 'error' alike *)
  emit (SpawnSession command args).

(** [runAI(model, prompt)] as the router calls it, without options. *)
Definition runAI (model prompt : string) : S unit :=
  if negb (truthy (trim prompt)) then emit (Log "Please provide a prompt")
  else
    tryCatch
      ((* Log the interaction *)
       emit (LogInteraction model prompt) ;;
       emit (Log ("An interactive " +:+ toUpperCase model
                  +:+ " session has started to help analyze the error.")) ;;
       emit (Log ("   Please interact with " +:+ toUpperCase model
                  +:+ " directly. Type 'exit' or 'quit' to return to c9ai.")) ;;
       startInteractiveSession model prompt)
      (fun message =>
         emit (Log ("Error running " +:+ model +:+ ": " +:+ message)) ;;
         emit (Log "Make sure the CLI is installed and configured:") ;;
         emit (Log ("   " +:+ (if String.eqb model "claude" then "claude" else "gemini-cli")
                    +:+ " --version"))).

End WithUpperCase.

Definition sessions (t : list event) : list (string * list string) :=
  flat_map (fun ev => match ev with SpawnSession c a => [(c, a)] | _ => [] end) t.

Definition logged (t : list event) : list (string * string) :=
  flat_map (fun ev => match ev with LogInteraction m p => [(m, p)] | _ => [] end) t.

End Sessions.

(** ** More properties of the router *)

Module RouterMore.
Import JsString JsStringFacts JsStringMore Eff Classifier Router.

Lemma blank_not_folded (d : ascii) : Ascii.eqb " " (lowerChar d) = Ascii.eqb " " d.
Proof. destruct d as [[] [] [] [] [] [] [] []]; vm_compute; reflexivity. Qed.

Lemma no_blank_in_lowered (s : string) :
  includes " " (toLowerCase s) = false -> includes " " s = false.
Proof.
  intros H. rewrite <- (includes_char_toLowerCase " " s blank_not_folded). exact H.
Qed.

(** A first code unit that lower-cases to a letter is no sigil. *)
Lemma letter_is_no_sigil (c : ascii) :
  isWordChar (lowerChar c) = true -> Ascii.eqb c "!" = false /\ Ascii.eqb c "@" = false.
Proof. destruct c as [[] [] [] [] [] [] [] []]; vm_compute; auto; discriminate. Qed.

Lemma startsWith_other (c d : ascii) (s : string) :
  Ascii.eqb d c = false -> startsWith (String c EmptyString) (String d s) = false.
Proof.
  intros H. unfold startsWith. simpl. destruct (ascii_dec c d) as [->|]; [| reflexivity].
  rewrite Ascii.eqb_refl in H. discriminate H.
Qed.

(** The call made for a command word that takes free text. *)
Definition textCall (word text : string) : call :=
  if String.eqb word "achieve" || String.eqb word "goal" then AchieveGoal text
  else RunAI word text.

Section WithEnvironment.
Variable homedir : string.
Variable chdir : string -> outcome string string.
Variable handler : call -> outcome string unit.

(** X9.  The commands [claude], [gemini], [achieve] and [goal], in any letter
    case, receive the text after the first blank exactly as typed, inner
    and trailing blanks included: splitting at blanks and joining again
    loses nothing. *)
Theorem text_commands_receive_text_verbatim (command text : string) :
  In (toLowerCase command) ["claude"; "gemini"; "achieve"; "goal"] ->
  invoked (trace (handleCommand homedir chdir handler (command +:+ " " +:+ text) tt))
  = [textCall (toLowerCase command) text].
Proof.
  intros Hin.
  assert (includes " " command = false) as Hblank.
  { apply no_blank_in_lowered. simpl in Hin.
    repeat (destruct Hin as [<- | Hin]; [reflexivity |]). destruct Hin. }
  destruct command as [|c rest]; [simpl in Hin; intuition discriminate |].
  assert (isWordChar (lowerChar c) = true) as Hc.
  { simpl in Hin. repeat (destruct Hin as [Hin | Hin];
      [injection Hin as Hh _; rewrite <- Hh; reflexivity |]). destruct Hin. }
  destruct (letter_is_no_sigil c Hc) as [Hbang Hat].
  unfold handleCommand, dispatch.
  change (String c rest +:+ " " +:+ text) with (String c (rest +:+ " " +:+ text)).
  rewrite (startsWith_other "!" c _ Hbang), (startsWith_other "@" c _ Hat).
  change (String c (rest +:+ " " +:+ text)) with (String c rest +:+ " " +:+ text).
  rewrite (split_first_word _ text Hblank). cbn [hd tl].
  unfold namedSwitch. rewrite join_split.
  remember (toLowerCase (String c rest)) as w eqn:Hw. clear Hw. simpl in Hin.
  repeat (destruct Hin as [<- | Hin];
    [unfold textCall, invoke, bind, tryCatch, emit, lift, ret, trace; cbn;
     match goal with |- context [handler ?x] => destruct (handler x) as [[]|m] end;
     reflexivity |]).
  destruct Hin.
Qed.

End WithEnvironment.

Lemma text_commands_receive_text_verbatim_witness :
  invoked (trace (handleCommand "/home/u" (fun d => Ok d) (fun _ => Ok tt)
                    ("Claude" +:+ " " +:+ " explain   monads  ") tt))
  = [RunAI "claude" " explain   monads  "].
Proof.
  apply (text_commands_receive_text_verbatim "/home/u" (fun d => Ok d) (fun _ => Ok tt)
           "Claude" " explain   monads  ").
  simpl. tauto.
Defined.

End RouterMore.

(** ** Properties of the cloud sessions *)

Module SessionsFacts.
Import JsString Eff Sessions.

(** A blank prompt only earns a hint: nothing is logged and no session is
    started.  This is what the bare commands [claude] and [gemini] do,
    whereas the bare sigils [@claude] and [@gemini] open a session. *)
Theorem runAI_blank_prompt (toUpperCase : string -> string) (model prompt : string) :
  trim prompt = EmptyString ->
  runAI toUpperCase model prompt tt = (Ok tt, tt, [Log "Please provide a prompt"]).
Proof. intros H. unfold runAI. rewrite H. reflexivity. Qed.

Lemma runAI_blank_prompt_witness :
  runAI id "claude" "   " tt = (Ok tt, tt, [Log "Please provide a prompt"]).
Proof. apply (runAI_blank_prompt id "claude" "   "). reflexivity. Defined.

(** X10.  With a prompt, [runAI] never throws, logs the interaction once and
    starts exactly one session with the prompt as its only argument.  The
    program started is [claude] only for the model "claude"; every other
    model name, "local" included, starts [gemini]. *)
Theorem runAI_starts_one_session (toUpperCase : string -> string) (model prompt : string) :
  trim prompt <> EmptyString ->
  result (runAI toUpperCase model prompt tt) = Ok tt /\
  logged (trace (runAI toUpperCase model prompt tt)) = [(model, prompt)] /\
  sessions (trace (runAI toUpperCase model prompt tt))
  = [(if String.eqb model "claude" then "claude" else "gemini", [prompt])].
Proof.
  intros H. unfold runAI.
  assert (truthy (trim prompt) = true) as Ht.
  { unfold truthy. apply negb_true_iff, String.eqb_neq. exact H. }
  rewrite Ht.
  assert (truthy prompt = true) as Hp.
  { destruct prompt; [exfalso; apply H; reflexivity | reflexivity]. }
  unfold startInteractiveSession. rewrite Hp.
  unfold tryCatch, bind, emit, result, trace. cbn. auto.
Qed.

Lemma runAI_starts_one_session_witness :
  sessions (trace (runAI id "local" "summarise this file" tt))
  = [("gemini", ["summarise this file"])].
Proof.
  apply (runAI_starts_one_session id "local" "summarise this file").
  vm_compute. discriminate.
Defined.

End SessionsFacts.

(** ** The model probe and the tool-selection query *)

Module LocalModelTools.
Import JsString Eff LocalModel.
Local Open Scope eff_scope.

Section WithEnvironment.
Variable modelsDir : string.
Variable pathJoin : string -> string -> string.
Variable readdir : outcome string (list string).
Variable llamaAvailable : bool.
Variable loadLlama : string -> outcome string nat.
(** The value of [getLlama && llamaCppLoaded]; [None] when the
    identifiers are bound nowhere, so that reading them raises a
    ReferenceError. *)
Variable llamaGlobals : option bool.
(** [session.prompt] raced against the 15 s timeout, for the call made
    at a given retry count. *)
Variable toolPrompt : nat -> string -> outcome string string.

(** [hasLocalModel()] *)
Definition hasLocalModel : L bool :=
  tryCatch
    (emit (ReadDir modelsDir) ;;
     do files <- lift readdir ;
     ret (existsb isModelFile files))
    (fun _ => ret false).

Definition hasSession (m : localModel) : bool :=
  match session m with Some _ => true | None => false end.

(** The [try] block of [runLocalAIForToolSelection]. *)
Definition toolAttempt (retryCount : nat) (prompt : string) : L string :=
  (* Use simple prompt format for tool selection *)
  let simplePrompt := prompt +:+ nl +:+ nl +:+ "Response:" in
  do s <- get ;
  match llamaGlobals with
  | None => throw "getLlama is not defined"
  | Some false => throw "Local model not available for tool selection"
  | Some true =>
      match s with
      | None => throw "Cannot read properties of null (reading 'session')"
      | Some m =>
          if hasSession m && negb (fallbackMode m) then
            emit (Log "Querying local model for tool selection...") ;;
            emit (Infer simplePrompt) ;;
            do response <- lift (toolPrompt retryCount simplePrompt) ;
            (* Ensure we have complete JSON *)
            let response :=
              if truthy response && negb (includes "}" response)
              then response +:+ "}" else response in
            ret (trim response)
          else
            (* Fallback to pattern matching directly *)
            throw "Local model not available for tool selection"
      end
  end.

Equations? runLocalAIForToolSelection (prompt : string) (retryCount : nat) : L string
  by wf (1 - retryCount) lt :=
  runLocalAIForToolSelection prompt retryCount :=
    do s <- get ;
    (if isReady s then ret tt
     else initLocalModel modelsDir pathJoin readdir llamaAvailable loadLlama) ;;
    tryCatch (toolAttempt retryCount prompt)
      (fun message =>
         match lt_dec retryCount 1 with   (* Only retry once for tool selection *)
         | left _ =>
             emit (Log ("Tool selection retry: " +:+ message)) ;;
             emit (Sleep 500%N) ;;
             runLocalAIForToolSelection prompt (retryCount + 1)
         | right _ => throw ("Tool selection failed: " +:+ message)
         end).
Proof. lia. Qed.

End WithEnvironment.

(** Queries of the model recorded in a trace. *)
Definition queries (t : list event) : nat :=
  List.length
    (List.filter (fun ev => match ev with Infer _ => true | _ => false end) t).

(** Delays of a given length recorded in a trace. *)
Definition delays (ms : N) (t : list event) : nat :=
  List.length
    (List.filter (fun ev => match ev with Sleep d => N.eqb d ms | _ => false end) t).

End LocalModelTools.

(** ** Further properties of the local-model session *)

Module LocalModelMore.
Import JsString Eff LocalModel LocalModelFacts LocalModelTools.

Lemma existsb_find {A : Type} (p : A -> bool) (l : list A) :
  existsb p l = match find p l with Some _ => true | None => false end.
Proof.
  induction l as [|a l IH]; [reflexivity |]. cbn. destruct (p a); [reflexivity | exact IH].
Qed.

Lemma backoffs_app (a b : list event) : backoffs (a ++ b) = backoffs a + backoffs b.
Proof. unfold backoffs. rewrite List.filter_app, List.length_app. reflexivity. Qed.

Lemma queries_app (a b : list event) : queries (a ++ b) = queries a + queries b.
Proof. unfold queries. rewrite List.filter_app, List.length_app. reflexivity. Qed.

Lemma delays_app (ms : N) (a b : list event) :
  delays ms (a ++ b) = delays ms a + delays ms b.
Proof. unfold delays. rewrite List.filter_app, List.length_app. reflexivity. Qed.

Section WithEnvironment.
Variable modelsDir : string.
Variable pathJoin : string -> string -> string.
Variable readdir : outcome string (list string).
Variable llamaAvailable : bool.
Variable loadLlama : string -> outcome string nat.

Local Abbreviation init := (initLocalModel modelsDir pathJoin readdir llamaAvailable loadLlama).
Local Abbreviation probe := (hasLocalModel modelsDir readdir).

(** The error [initLocalModel] throws when the probe is negative. *)
Definition initError : string :=
  match readdir with
  | Throw e => e
  | Ok _ => "No model files found. Install a model with: c9ai models install phi-3"
  end.

(** X11.  For a session that is not ready, [initLocalModel] returns normally
    exactly when [hasLocalModel] answers true, whatever llama.cpp does:
    a failed load is replaced by the fallback mode.  After a normal
    return the session is ready on a model file of the directory and is
    in fallback mode exactly when it has no llama.cpp session.  After a
    throw the session is as before and nothing was loaded. *)
Theorem initLocalModel_succeeds_iff_hasLocalModel (s : state) :
  isReady s = false ->
  (result (init s) = Ok tt <-> result (probe s) = Ok true) /\
  (result (init s) = Ok tt ->
   exists m, final (init s) = Some m /\ ready m = true /\
             isModelFile (modelFile m) = true /\
             modelPath m = pathJoin modelsDir (modelFile m) /\
             fallbackMode m = negb (hasSession m)) /\
  (result (init s) <> Ok tt ->
   result (init s) = Throw initError /\ final (init s) = s /\
   loads (trace (init s)) = 0).
Proof.
  intros Hs.
  unfold initLocalModel, hasLocalModel, initError, bind, get, tryCatch, lift, emit, put,
    throw, ret, result, final, trace.
  rewrite Hs. cbn [fst snd].
  destruct readdir as [files|msg]; cbn [fst snd app].
  2:{ repeat split; try discriminate; try reflexivity; intros H; discriminate. }
  rewrite existsb_find.
  destruct (find isModelFile files) as [file|] eqn:Hfind; cbn [fst snd app].
  2:{ repeat split; try discriminate; try reflexivity; intros H; discriminate. }
  apply find_some in Hfind. destruct Hfind as [_ Hfile].
  destruct llamaAvailable; cbn [fst snd app].
  - destruct (loadLlama (pathJoin modelsDir file)) as [h|msg]; cbn [fst snd app];
      (split; [split; reflexivity |]);
      (split; [intros _; eexists; repeat split; cbn; auto | intros H; now contradiction H]).
  - (split; [split; reflexivity |]);
      (split; [intros _; eexists; repeat split; cbn; auto | intros H; now contradiction H]).
Qed.

End WithEnvironment.

Lemma initLocalModel_succeeds_iff_hasLocalModel_witness :
  result (initLocalModel "models" joinWithSlash (Ok ["notes.txt"; "phi-3.gguf"]) true
            (fun _ => Throw "bad magic") None) = Ok tt
  <-> result (hasLocalModel "models" (Ok ["notes.txt"; "phi-3.gguf"]) None) = Ok true.
Proof.
  apply (initLocalModel_succeeds_iff_hasLocalModel "models" joinWithSlash
           (Ok ["notes.txt"; "phi-3.gguf"]) true (fun _ => Throw "bad magic") None).
  reflexivity.
Defined.

Section Retries.
Variable modelsDir : string.
Variable pathJoin : string -> string -> string.
Variable readdir : outcome string (list string).
Variable llamaAvailable : bool.
Variable loadLlama : string -> outcome string nat.
Variable sessionPrompt : nat -> string -> outcome string string.
Variable generateCode : string -> string.

Local Abbreviation runAI :=
  (runLocalAI modelsDir pathJoin readdir llamaAvailable loadLlama sessionPrompt generateCode).
Local Abbreviation try := (attempt llamaAvailable sessionPrompt generateCode).

(** On a ready session one pass through the [try] block is exactly one
    call of the inference, and no backoff. *)
Lemma attempt_exactly_once (retryCount : nat) (prompt : string) (s : state) :
  isReady s = true ->
  attempts (trace (try retryCount prompt s)) = 1 /\
  backoffs (trace (try retryCount prompt s)) = 0.
Proof.
  intros Hs. unfold attempt, bind, get. destruct s as [m|]; [| discriminate]. cbn.
  destruct (if llamaAvailable then session m else None).
  - unfold runRealLocalAI. generalize (formatPhi3Prompt prompt). intros formatted.
    unfold bind, emit, lift, throw, ret.
    destruct (sessionPrompt retryCount formatted) as [response|e]; cbn;
      [destruct (String.length (trim response) =? 0) |]; cbn; auto.
  - unfold runPatternMatchingAI, bind, emit, throw, ret. cbn.
    destruct (Resolver.runPatternMatchingAI generateCode prompt); cbn; auto.
Qed.

Lemma initLocalModel_failure (s : state) :
  isReady s = false ->
  result (hasLocalModel modelsDir readdir s) = Ok false ->
  exists t1,
    initLocalModel modelsDir pathJoin readdir llamaAvailable loadLlama s
    = (Throw (initError readdir), s, t1) /\ attempts t1 = 0 /\ backoffs t1 = 0.
Proof.
  intros Hs.
  unfold initLocalModel, hasLocalModel, initError, bind, get, tryCatch, lift, emit, put,
    throw, ret, result.
  rewrite Hs. cbn [fst snd].
  destruct readdir as [files|msg]; cbn [fst snd app].
  2:{ intros _. eexists. split; [reflexivity | split; reflexivity]. }
  rewrite existsb_find.
  destruct (find isModelFile files) as [file|]; cbn [fst snd app]; [discriminate |].
  intros _. eexists. split; [reflexivity | split; reflexivity].
Qed.

(** X12.  [initLocalModel] sits outside the [try] block: when the session is
    not ready and no model can be found, [runLocalAI] throws the
    initialisation error as it is, at once, at any retry count: no
    inference call, no backoff, no "failed after" text. *)
Theorem runLocalAI_without_model_is_not_retried
  (prompt : string) (retryCount : nat) (s : state) :
  isReady s = false ->
  result (hasLocalModel modelsDir readdir s) = Ok false ->
  result (runAI prompt retryCount s) = Throw (initError readdir) /\
  final (runAI prompt retryCount s) = s /\
  attempts (trace (runAI prompt retryCount s)) = 0 /\
  backoffs (trace (runAI prompt retryCount s)) = 0.
Proof.
  intros Hs Hprobe.
  destruct (initLocalModel_failure s Hs Hprobe) as (t1 & E & Ha & Hb).
  assert (Hrun : runAI prompt retryCount s = (Throw (initError readdir), s, t1)).
  { rewrite runLocalAI_equation_1.
    unfold bind at 1, get. cbn [fst snd]. rewrite Hs.
    unfold bind at 1. rewrite E. reflexivity. }
  rewrite Hrun. unfold result, final, trace. cbn [fst snd]. auto.
Qed.

Lemma runLocalAI_first_success_from
  (prompt : string) (s : state) (k : nat) (text : string) :
  isReady s = true -> k <= maxRetries ->
  (forall j, j < k -> exists e, result (try j prompt s) = Throw e) ->
  result (try k prompt s) = Ok text ->
  forall d j, k - j = d -> j <= k ->
    result (runAI prompt j s) = Ok text /\
    final (runAI prompt j s) = s /\
    attempts (trace (runAI prompt j s)) = d + 1 /\
    backoffs (trace (runAI prompt j s)) = d.
Proof.
  intros Hready Hk Hfail Hok.
  induction d as [|d IH]; intros j Hd Hj; rewrite (runLocalAI_step _ _ _ _ _ _ _ prompt j s Hready);
    destruct (attempt_once llamaAvailable sessionPrompt generateCode j prompt s) as [Hs _];
    destruct (attempt_exactly_once j prompt s Hready) as [Ha Hb].
  - assert (j = k) by lia. subst j.
    destruct (try k prompt s) as [[[text'|e] s1] t1]; unfold result, final, trace in *;
      cbn [fst snd] in *; [| discriminate].
    inversion Hok; subst. auto.
  - destruct (Hfail j ltac:(lia)) as [e He].
    destruct (try j prompt s) as [[[text'|e'] s1] t1]; unfold result, final, trace in *;
      cbn [fst snd] in *; [discriminate |]. subst s1.
    destruct (lt_dec j maxRetries) as [_|Hge]; [| lia].
    destruct (IH (j + 1) ltac:(lia) ltac:(lia)) as (Hr & Hf & Hat & Hbk).
    destruct (runAI prompt (j + 1) s) as [[r2 s2] t2]. cbn [fst snd] in *.
    rewrite attempts_app, backoffs_app.
    change (attempts (_ :: _ :: t2)) with (attempts t2).
    change (backoffs (_ :: _ :: t2)) with (Datatypes.S (backoffs t2)).
    repeat split; auto; lia.
Qed.

(** X13.  On a ready session whose inference fails at retry counts below [k]
    and answers at count [k], with [k] within the retry budget,
    [runLocalAI] returns that answer: the inference was called [k + 1]
    times, [k] one-second backoffs were taken, and the session is as
    before. *)
Theorem runLocalAI_returns_first_answer
  (prompt : string) (s : state) (k : nat) (text : string) :
  isReady s = true -> k <= maxRetries ->
  (forall j, j < k -> exists e, result (try j prompt s) = Throw e) ->
  result (try k prompt s) = Ok text ->
  result (runAI prompt 0 s) = Ok text /\
  final (runAI prompt 0 s) = s /\
  attempts (trace (runAI prompt 0 s)) = k + 1 /\
  backoffs (trace (runAI prompt 0 s)) = k.
Proof.
  intros Hready Hk Hfail Hok.
  apply (runLocalAI_first_success_from prompt s k text Hready Hk Hfail Hok k 0); lia.
Qed.

End Retries.

Lemma runLocalAI_without_model_is_not_retried_witness :
  let r := runLocalAI "models" joinWithSlash (Ok ["notes.txt"]) true (fun _ => Ok 1)
             (fun _ _ => Ok "@action: open notes") id "open notes" 2 None in
  result r = Throw "No model files found. Install a model with: c9ai models install phi-3" /\
  final r = None /\ attempts (trace r) = 0 /\ backoffs (trace r) = 0.
Proof.
  apply (runLocalAI_without_model_is_not_retried "models" joinWithSlash (Ok ["notes.txt"])
           true (fun _ => Ok 1) (fun _ _ => Ok "@action: open notes") id "open notes" 2 None);
    reflexivity.
Defined.

(** A real session whose first two calls time out. *)
Definition flakyPrompt (retryCount : nat) (_ : string) : outcome string string :=
  if retryCount <? 2 then Throw "Local AI timeout after 30 seconds"
  else Ok " @action: open notes ".

Definition loadedModel : state :=
  Some {| modelPath := "models/phi-3.gguf"; modelFile := "phi-3.gguf";
          session := Some 1; ready := true; fallbackMode := false |}.

Lemma runLocalAI_returns_first_answer_witness :
  let r := runLocalAI "models" joinWithSlash (Ok ["phi-3.gguf"]) true (fun _ => Ok 1)
             flakyPrompt id "open notes" 0 loadedModel in
  result r = Ok "@action: open notes" /\ final r = loadedModel /\
  attempts (trace r) = 2 + 1 /\ backoffs (trace r) = 2.
Proof.
  apply (runLocalAI_returns_first_answer "models" joinWithSlash (Ok ["phi-3.gguf"]) true
           (fun _ => Ok 1) flakyPrompt id "open notes" loadedModel 2 "@action: open notes").
  - reflexivity.
  - unfold maxRetries. lia.
  - intros j Hj. destruct j as [|[|j]]; [eexists; reflexivity | eexists; reflexivity | lia].
  - reflexivity.
Defined.

Section ToolSelection.
Variable modelsDir : string.
Variable pathJoin : string -> string -> string.
Variable readdir : outcome string (list string).
Variable llamaAvailable : bool.
Variable loadLlama : string -> outcome string nat.
Variable llamaGlobals : option bool.
Variable toolPrompt : nat -> string -> outcome string string.

Local Abbreviation runTool :=
  (runLocalAIForToolSelection modelsDir pathJoin readdir llamaAvailable loadLlama
     llamaGlobals toolPrompt).
Local Abbreviation tryTool := (toolAttempt llamaGlobals toolPrompt).

(** The session can answer a tool-selection query. *)
Definition usable (s : state) : bool :=
  match llamaGlobals, s with
  | Some true, Some m => hasSession m && negb (fallbackMode m)
  | _, _ => false
  end.

(** The error of the [try] block when the session cannot answer. *)
Definition unavailable : string :=
  match llamaGlobals with
  | None => "getLlama is not defined"
  | Some _ => "Local model not available for tool selection"
  end.

Lemma toolAttempt_once (retryCount : nat) (prompt : string) (s : state) :
  final (tryTool retryCount prompt s) = s /\
  queries (trace (tryTool retryCount prompt s)) <= 1 /\
  delays 500 (trace (tryTool retryCount prompt s)) = 0.
Proof.
  unfold toolAttempt, bind, get. cbn [fst snd].
  destruct llamaGlobals as [[]|]; cbn; auto.
  destruct s as [m|]; cbn; auto.
  destruct (hasSession m && negb (fallbackMode m)); cbn; auto.
  unfold bind, emit, lift, ret.
  match goal with
  | |- context [toolPrompt retryCount ?p] => destruct (toolPrompt retryCount p)
  end; cbn; auto.
Qed.

Lemma toolAttempt_unusable (retryCount : nat) (prompt : string) (s : state) :
  isReady s = true -> usable s = false ->
  tryTool retryCount prompt s = (Throw unavailable, s, []).
Proof.
  unfold usable, unavailable, toolAttempt, bind, get. cbn [fst snd].
  destruct llamaGlobals as [[]|]; cbn; auto.
  destruct s as [m|]; cbn; [| discriminate].
  intros _ ->. reflexivity.
Qed.

(** One turn of [runLocalAIForToolSelection] on a ready session. *)
Lemma runLocalAIForToolSelection_step (prompt : string) (retryCount : nat) (s : state) :
  isReady s = true ->
  runTool prompt retryCount s
  = match tryTool retryCount prompt s with
    | (Ok text, s1, t1) => (Ok text, s1, t1)
    | (Throw e, s1, t1) =>
        if lt_dec retryCount 1 then
          match runTool prompt (retryCount + 1) s1 with
          | (r, s2, t2) =>
              (r, s2, t1 ++ Log ("Tool selection retry: " +:+ e) :: Sleep 500 :: t2)
          end
        else (Throw ("Tool selection failed: " +:+ e), s1, t1 ++ [])
    end.
Proof.
  intros Hready. rewrite runLocalAIForToolSelection_equation_1.
  unfold bind at 1, get. cbn [fst snd]. rewrite Hready.
  unfold bind at 1, ret. unfold tryCatch.
  destruct (tryTool retryCount prompt s) as [[[text|e] s1] t1]; [reflexivity |].
  destruct (lt_dec retryCount 1); [| reflexivity].
  unfold bind, emit.
  destruct (runTool prompt (retryCount + 1) s1) as [[r s2] t2].
  reflexivity.
Qed.

(** X14.  From a ready session, [runLocalAIForToolSelection] queries the model
    at most twice with at most one half-second delay in between, and
    leaves the session as it was.  When it throws, the delay was taken
    and the error text starts with "Tool selection failed: ". *)
Theorem runLocalAIForToolSelection_bounded (prompt : string) (s : state) :
  isReady s = true ->
  queries (trace (runTool prompt 0 s)) <= 2 /\
  delays 500 (trace (runTool prompt 0 s)) <= 1 /\
  final (runTool prompt 0 s) = s /\
  (forall e, result (runTool prompt 0 s) = Throw e ->
     startsWith "Tool selection failed: " e = true /\
     delays 500 (trace (runTool prompt 0 s)) = 1).
Proof.
  intros Hready.
  rewrite (runLocalAIForToolSelection_step prompt 0 s Hready).
  destruct (toolAttempt_once 0 prompt s) as (Hs0 & Hq0 & Hd0).
  destruct (tryTool 0 prompt s) as [[[text|e0] s1] t1]; unfold result, final, trace in *;
    cbn [fst snd] in *.
  { subst s1. split; [lia | split; [lia | split; [reflexivity |]]].
    intros e H; discriminate. }
  subst s1. destruct (lt_dec 0 1) as [_|Hge]; [| lia].
  rewrite (runLocalAIForToolSelection_step prompt (0 + 1) s Hready).
  destruct (toolAttempt_once (0 + 1) prompt s) as (Hs1 & Hq1 & Hd1).
  destruct (tryTool (0 + 1) prompt s) as [[[text|e1] s2] t2]; unfold result, final, trace in *;
    cbn [fst snd] in *; subst s2.
  - rewrite queries_app, delays_app.
    change (queries (_ :: _ :: t2)) with (queries t2).
    change (delays 500 (_ :: _ :: t2)) with (Datatypes.S (delays 500 t2)).
    split; [lia | split; [lia | split; [reflexivity |]]].
    intros e H; discriminate.
  - destruct (lt_dec (0 + 1) 1) as [Hlt|_]; [lia |]. cbn [fst snd].
    rewrite queries_app, delays_app, app_nil_r.
    change (queries (_ :: _ :: t2)) with (queries t2).
    change (delays 500 (_ :: _ :: t2)) with (Datatypes.S (delays 500 t2)).
    split; [lia | split; [lia | split; [reflexivity |]]].
    intros e H. injection H as <-.
    split; [apply (JsStringFacts.prefix_append "Tool selection failed: " e1) | lia].
Qed.


End ToolSelection.

Lemma runLocalAIForToolSelection_bounded_witness :
  let r := runLocalAIForToolSelection "models" joinWithSlash (Ok ["phi-3.gguf"]) true
             (fun _ => Ok 1) (Some true) (fun _ _ => Throw "Tool selection timeout (15s)")
             "Select a tool" 0 loadedModel in
  queries (trace r) <= 2 /\ delays 500 (trace r) <= 1 /\ final r = loadedModel /\
  (forall e, result r = Throw e ->
     startsWith "Tool selection failed: " e = true /\ delays 500 (trace r) = 1).
Proof.
  apply (runLocalAIForToolSelection_bounded "models" joinWithSlash (Ok ["phi-3.gguf"]) true
           (fun _ => Ok 1) (Some true) (fun _ _ => Throw "Tool selection timeout (15s)")
           "Select a tool" loadedModel).
  reflexivity.
Defined.


End LocalModelMore.

(** ** Further properties of the learned-mapping cache *)

Module AppMapMore.
Import JsString Eff AppMap.

(** The command [getApplicationCommand] returns in a state. *)
Definition commandOf (st : state) (platform appName : string) : string :=
  match result (getApplicationCommand appName platform st) with
  | Ok command => command
  | Throw _ => EmptyString
  end.

Lemma spawned_app (a b : list event) : spawned (a ++ b) = spawned a ++ spawned b.
Proof. unfold spawned. apply flat_map_app. Qed.

(** [getApplicationCommand] only reads, never throws and starts nothing. *)
Lemma getApplicationCommand_run (appName platform : string) (st : state) :
  exists logs,
    getApplicationCommand appName platform st = (Ok (commandOf st platform appName), st, logs)
    /\ spawned logs = [].
Proof.
  unfold commandOf, getApplicationCommand, bind, get, ret, emit, result. cbn.
  destruct (entry (appMappings st) (toLowerCase appName) platform); cbn.
  - eexists; split; reflexivity.
  - destruct (match successful_mappings st with Some _ => _ | None => _ end); cbn;
      eexists; split; reflexivity.
Qed.

Lemma commandOf_ext (st st' : state) (platform appName : string) :
  appMappings st = appMappings st' ->
  successful_mappings st = successful_mappings st' ->
  commandOf st platform appName = commandOf st' platform appName.
Proof.
  intros Ha Hs. unfold commandOf, getApplicationCommand, bind, get, ret, emit, result. cbn.
  rewrite Ha, Hs.
  destruct (entry (appMappings st') (toLowerCase appName) platform); [reflexivity |].
  destruct (match successful_mappings st' with Some _ => _ | None => _ end); reflexivity.
Qed.

(** The lookup is by the lower-cased name, so names that differ in
    letter case only share their mapped or learned command. *)
Lemma commandOf_mapped (st : state) (platform appName name : string) :
  entry (appMappings st) (toLowerCase appName) platform = Some name ->
  commandOf st platform appName = mappedCommand platform name.
Proof.
  intros H. unfold commandOf, getApplicationCommand, bind, get, ret, result. cbn.
  rewrite H. reflexivity.
Qed.

Section Learning.
Variable osPlatform : string.
Variable now : string.
Variable spawnResult : string -> outcome string string.

Local Abbreviation loop := (tryAlternatives spawnResult).
Local Abbreviation learn := (logFailureAndLearn osPlatform now spawnResult).

(** The state after [successful_mappings[appLower][platform] = suggestion]. *)
Definition learnt (st : state) (appLower platform suggestion : string) : state :=
  match successful_mappings st with
  | Some table =>
      {| appMappings := appMappings st;
         successful_mappings :=
           Some (<[appLower := <[platform := suggestion]> (default ∅ (table !! appLower))]>
                   table);
         failed_attempts := failed_attempts st |}
  | None => st
  end.

(** One pass through the loop body for a suggestion. *)
Lemma tryAlternatives_cons (appLower platform s : string) (more : list string) (st : state) :
  exists logs,
    spawned logs = [commandOf st platform s] /\
    loop appLower platform (s :: more) st
    = match spawnResult (commandOf st platform s), successful_mappings st with
      | Ok _, Some _ =>
          (Ok true, learnt st appLower platform s,
           logs ++ [Log ("Found working alternative: " +:+ s);
                    Log ("Learned: " +:+ quoted appLower +:+ " -> " +:+ quoted s); Save])
      | _, _ =>
          match loop appLower platform more st with
          | (r, st', t) => (r, st', logs ++ [Log ("   " +:+ s +:+ " also failed")] ++ t)
          end
      end.
Proof.
  destruct (getApplicationCommand_run s platform st) as (lg & Hcmd & Hlg).
  exists (Log ("   - " +:+ s) :: lg ++ [Spawn (commandOf st platform s)]).
  split.
  { unfold spawned. cbn [flat_map app].
    fold (spawned (lg ++ [Spawn (commandOf st platform s)])).
    rewrite spawned_app, Hlg. reflexivity. }
  cbn [tryAlternatives].
  unfold bind at 1. cbn [emit].
  unfold bind at 1. unfold tryCatch. unfold bind at 1. rewrite Hcmd.
  unfold bind at 1, runCommand, bind at 1, emit, lift.
  destruct (spawnResult (commandOf st platform s)) as [out|e].
  - unfold learnt, recordSuccess, bind, get, put, saveAppMappings, emit, ret, throw.
    destruct (successful_mappings st) as [table|]; cbv beta iota zeta.
    + f_equal. cbn [app]. rewrite ?app_nil_r, <- ?app_assoc. reflexivity.
    + destruct (loop appLower platform more st) as [[r st'] t].
      f_equal. cbn [app]. rewrite ?app_nil_r, <- ?app_assoc. reflexivity.
  - unfold bind, ret. cbv beta iota zeta.
    destruct (loop appLower platform more st) as [[r st'] t].
    destruct (successful_mappings st);
      (f_equal; cbn [app]; rewrite ?app_nil_r, <- ?app_assoc; reflexivity).
Qed.

(** The loop never throws and touches nothing but [successful_mappings]. *)
Lemma tryAlternatives_frame (appLower platform : string) :
  forall (suggestions : list string) (st : state),
  exists learned st' t,
    loop appLower platform suggestions st = (Ok learned, st', t) /\
    appMappings st' = appMappings st /\
    failed_attempts st' = failed_attempts st.
Proof.
  induction suggestions as [|s more IH]; intros st.
  - exists false, st, []. repeat split; reflexivity.
  - destruct (tryAlternatives_cons appLower platform s more st) as (logs & _ & ->).
    destruct (IH st) as (learned & st' & t & -> & Ha & Hf).
    destruct (spawnResult (commandOf st platform s)) as [out|e].
    + unfold learnt. destruct (successful_mappings st) as [table|].
      * eexists _, _, _. repeat split; reflexivity.
      * eexists _, _, _. repeat split; [exact Ha | exact Hf].
    + eexists _, _, _. repeat split; [exact Ha | exact Hf].
Qed.

(** When no suggestion starts, or nothing can be recorded because
    [successful_mappings] is missing, the loop spawns every suggestion in
    turn and leaves the state as it was. *)
Lemma tryAlternatives_exhausts (appLower platform : string) (st : state) :
  forall suggestions : list string,
  (successful_mappings st = None \/
   forall s, In s suggestions ->
             exists e, spawnResult (commandOf st platform s) = Throw e) ->
  exists t,
    loop appLower platform suggestions st = (Ok false, st, t) /\
    spawned t = map (commandOf st platform) suggestions.
Proof.
  induction suggestions as [|s more IH]; intros H.
  - exists []. split; reflexivity.
  - destruct (tryAlternatives_cons appLower platform s more st) as (logs & Hlogs & ->).
    destruct IH as (t & -> & Ht).
    { destruct H as [H|H]; [left; exact H | right; intros x Hx; apply H; right; exact Hx]. }
    assert (Hcase :
      match spawnResult (commandOf st platform s), successful_mappings st with
      | Ok _, Some _ => False
      | _, _ => True
      end).
    { destruct H as [H|H]; [rewrite H; destruct (spawnResult _); exact I |].
      destruct (H s (or_introl eq_refl)) as [e ->]. exact I. }
    exists (logs ++ [Log ("   " +:+ s +:+ " also failed")] ++ t).
    split.
    + destruct (spawnResult (commandOf st platform s));
        [destruct (successful_mappings st); [contradiction |] |]; reflexivity.
    + rewrite !spawned_app, Hlogs, Ht. reflexivity.
Qed.

(** The loop stops at the first suggestion that starts, and records it. *)
Lemma tryAlternatives_first_working (appLower platform : string) (st : state)
  (s out : string) (post : list string) :
  successful_mappings st <> None ->
  spawnResult (commandOf st platform s) = Ok out ->
  forall pre : list string,
  (forall p, In p pre -> exists e, spawnResult (commandOf st platform p) = Throw e) ->
  exists t,
    loop appLower platform (pre ++ s :: post) st
    = (Ok true, learnt st appLower platform s, t) /\
    spawned t = map (commandOf st platform) (pre ++ [s]).
Proof.
  intros Hsm Hok. induction pre as [|p pre IH]; intros Hpre.
  - change ([] ++ s :: post) with (s :: post).
    destruct (tryAlternatives_cons appLower platform s post st) as (logs & Hlogs & ->).
    rewrite Hok. destruct (successful_mappings st) as [table|]; [| contradiction].
    eexists. split; [reflexivity |]. rewrite spawned_app, Hlogs. reflexivity.
  - change ((p :: pre) ++ s :: post) with (p :: pre ++ s :: post).
    destruct (tryAlternatives_cons appLower platform p (pre ++ s :: post) st)
      as (logs & Hlogs & ->).
    destruct (Hpre p (or_introl eq_refl)) as [e ->].
    destruct IH as (t & -> & Ht).
    { intros x Hx. apply Hpre. right. exact Hx. }
    eexists. split; [reflexivity |].
    rewrite !spawned_app, Hlogs, Ht. reflexivity.
Qed.

(** The state after the failure of [command] on [appLower] is written
    to [failed_attempts]. *)
Definition recorded (st : state) (appLower command errorMessage : string) : state :=
  let failed := default ∅ (failed_attempts st) in
  {| appMappings := appMappings st;
     successful_mappings := successful_mappings st;
     failed_attempts :=
       Some (<[appLower :=
                 <[osPlatform := {| failedCommand := command;
                                    failedError := errorMessage;
                                    timestamp := now |}]>
                   (default ∅ (failed !! appLower))]> failed) |}.

(** [logFailureAndLearn] for a failed [open_application] with a target. *)
Lemma logFailureAndLearn_open (t command errorMessage : string) (st : state) :
  truthy t = true ->
  learn "open_application" (Some t) command errorMessage st
  = let st1 := recorded st (toLowerCase t) command errorMessage in
    match suggestApplicationAlternatives (toLowerCase t) osPlatform with
    | [] => (Ok tt, st1, [Save])
    | suggestions =>
        match loop (toLowerCase t) osPlatform suggestions st1 with
        | (Ok true, st2, tr) => (Ok tt, st2, Log "Trying alternative applications:" :: tr)
        | (Ok false, st2, tr) =>
            (Ok tt, st2, Log "Trying alternative applications:" :: tr ++ [Save])
        | (Throw _, st2, tr) => (Ok tt, st2, Log "Trying alternative applications:" :: tr)
        end
    end.
Proof.
  intros Ht. unfold logFailureAndLearn.
  change (String.eqb "open_application" "open_application") with true.
  rewrite Ht. cbn [andb].
  unfold recorded, tryCatch, recordFailure, saveAppMappings, bind, get, put, ret, emit.
  cbv beta iota zeta.
  destruct (failed_attempts st) as [failed|] eqn:Hf;
    cbv beta iota zeta delta [default from_option id];
    cbn [appMappings successful_mappings failed_attempts];
    rewrite ?Hf;
    (destruct (suggestApplicationAlternatives (toLowerCase t) osPlatform) as [|s0 more];
     [reflexivity |]);
    cbn [List.length Nat.ltb Nat.leb]; cbv beta iota zeta;
    destruct (loop _ _ _ _) as [[[[]|e] st2] tr];
    cbn [app]; rewrite ?app_nil_r; reflexivity.
Qed.

Lemma learnedFor_learnt (st : state) (appLower platform s : string) :
  successful_mappings st <> None -> truthy s = true ->
  learnedFor (learnt st appLower platform s) appLower platform = Some s.
Proof.
  intros Hsm Hs. unfold learnt, learnedFor, entry.
  destruct (successful_mappings st) as [table|]; [| contradiction].
  cbn [successful_mappings]. rewrite !lookup_insert_eq, Hs. reflexivity.
Qed.

Lemma commandOf_learned (st : state) (platform appName name : string) :
  entry (appMappings st) (toLowerCase appName) platform = None ->
  learnedFor st (toLowerCase appName) platform = Some name ->
  commandOf st platform appName = mappedCommand platform name.
Proof.
  intros Hstatic Hlearned. unfold learnedFor in Hlearned.
  unfold commandOf, getApplicationCommand, bind, get, ret, emit, result. cbn [fst snd].
  rewrite Hstatic, Hlearned. reflexivity.
Qed.


(** X17.  With [learningData.successful_mappings] missing, as it is until a
    mappings file is loaded or a success is logged, recording a working
    alternative throws inside the loop's [try]: the loop goes on, so
    every alternative of the table is started, whether the earlier ones
    started or not, and nothing is learned. *)
Theorem logFailureAndLearn_without_successful_mappings
  (t command errorMessage : string) (st : state) :
  truthy t = true ->
  successful_mappings st = None ->
  result (learn "open_application" (Some t) command errorMessage st) = Ok tt /\
  spawned (trace (learn "open_application" (Some t) command errorMessage st))
  = map (commandOf st osPlatform)
      (suggestApplicationAlternatives (toLowerCase t) osPlatform) /\
  successful_mappings (final (learn "open_application" (Some t) command errorMessage st))
  = None.
Proof.
  intros Ht Hsm.
  rewrite (logFailureAndLearn_open t command errorMessage st Ht). cbv zeta.
  set (st1 := recorded st (toLowerCase t) command errorMessage).
  assert (Hcmd : forall a, commandOf st1 osPlatform a = commandOf st osPlatform a)
    by (intros a; apply commandOf_ext; reflexivity).
  destruct (tryAlternatives_exhausts (toLowerCase t) osPlatform st1
              (suggestApplicationAlternatives (toLowerCase t) osPlatform))
    as (tr & Hloop & Htr).
  { left. exact Hsm. }
  destruct (suggestApplicationAlternatives (toLowerCase t) osPlatform) as [|x l] eqn:Hsugg.
  - repeat split. exact Hsm.
  - rewrite Hloop. unfold result, final, trace. cbn [fst snd].
    repeat split; [| exact Hsm].
    unfold spawned. cbn [flat_map app]. fold (spawned (tr ++ [Save])).
    rewrite spawned_app, Htr, app_nil_r. apply map_ext. exact Hcmd.
Qed.

(** X18.  [logFailureAndLearn] never throws and never touches the static
    table.  For a failed [open_application] with a target the failure is
    written under [failed_attempts] for the lower-cased target and the
    platform, whatever the alternatives do; for any other call nothing
    is started, logged or saved. *)
Theorem logFailureAndLearn_records_failure
  (toolName : string) (target : option string) (command errorMessage : string)
  (st : state) :
  result (learn toolName target command errorMessage st) = Ok tt /\
  appMappings (final (learn toolName target command errorMessage st)) = appMappings st /\
  match target with
  | Some t =>
      if String.eqb toolName "open_application" && truthy t then
        exists failed inner,
          failed_attempts (final (learn toolName target command errorMessage st))
          = Some failed /\
          failed !! toLowerCase t = Some inner /\
          inner !! osPlatform = Some {| failedCommand := command;
                                        failedError := errorMessage;
                                        timestamp := now |}
      else trace (learn toolName target command errorMessage st) = []
  | None => trace (learn toolName target command errorMessage st) = []
  end.
Proof.
  assert (Hquiet : forall k : A unit, k = ret tt ->
    tryCatch
      (bind get (fun st0 =>
         bind (match failed_attempts st0 with
               | Some _ => ret tt
               | None => put {| appMappings := appMappings st0;
                                successful_mappings := successful_mappings st0;
                                failed_attempts := Some ∅ |}
               end) (fun _ => k)))
      (fun _ => ret tt) st
    = (Ok tt, match failed_attempts st with
              | Some _ => st
              | None => {| appMappings := appMappings st;
                           successful_mappings := successful_mappings st;
                           failed_attempts := Some ∅ |}
              end, [])).
  { intros k ->. unfold tryCatch, bind, get, put, ret. cbv beta iota zeta.
    destruct (failed_attempts st); reflexivity. }
  destruct target as [t|].
  2:{ unfold logFailureAndLearn. rewrite (Hquiet _ eq_refl).
      destruct (failed_attempts st); repeat split; reflexivity. }
  destruct (String.eqb toolName "open_application" && truthy t) eqn:Hopen.
  2:{ unfold logFailureAndLearn. rewrite Hopen. rewrite (Hquiet _ eq_refl).
      destruct (failed_attempts st); repeat split; reflexivity. }
  apply andb_true_iff in Hopen as [Htool Ht]. apply String.eqb_eq in Htool. subst toolName.
  rewrite (logFailureAndLearn_open t command errorMessage st Ht). cbv zeta.
  set (st1 := recorded st (toLowerCase t) command errorMessage).
  assert (Hrec : exists failed inner,
            failed_attempts st1 = Some failed /\
            failed !! toLowerCase t = Some inner /\
            inner !! osPlatform = Some {| failedCommand := command;
                                          failedError := errorMessage;
                                          timestamp := now |}).
  { eexists _, _. split; [reflexivity |]. split; apply lookup_insert_eq. }
  destruct (suggestApplicationAlternatives (toLowerCase t) osPlatform) as [|x l].
  { repeat split. exact Hrec. }
  destruct (tryAlternatives_frame (toLowerCase t) osPlatform (x :: l) st1)
    as (learned & st2 & tr & -> & Ha & Hf).
  unfold result, final, trace.
  destruct learned; cbn [fst snd]; (split; [reflexivity |]); (split; [exact Ha |]);
    rewrite Hf; exact Hrec.
Qed.

End Learning.


(** The learning data as the constructor leaves it. *)
Definition unloaded : state :=
  {| appMappings := ∅; successful_mappings := None; failed_attempts := None |}.

Lemma logFailureAndLearn_without_successful_mappings_witness :
  let r := logFailureAndLearn "linux" "2025-01-01T00:00:00.000Z" (fun _ => Ok EmptyString)
             "open_application" (Some "Calculator") "xdg-open Calculator"
             "command not found" unloaded in
  result r = Ok tt /\
  spawned (trace r)
  = map (commandOf unloaded "linux")
      (suggestApplicationAlternatives (toLowerCase "Calculator") "linux") /\
  successful_mappings (final r) = None.
Proof.
  apply (logFailureAndLearn_without_successful_mappings "linux" "2025-01-01T00:00:00.000Z"
           (fun _ => Ok EmptyString) "Calculator" "xdg-open Calculator" "command not found"
           unloaded); reflexivity.
Defined.

End AppMapMore.

(** ** Which match the backtracking matcher returns

    [run_sound] and [run_complete] say when a pattern matches.  The
    lemmas below say which match is found for the shapes the code uses:
    a literal, and a greedy repetition of a character class. *)

Module RegexMore.
Import JsString JsStringFacts JsStringMore Regex.

(** The longest prefix of code units in a class, and what follows it. *)
Fixpoint span (p : ascii -> bool) (s : string) : string * string :=
  match s with
  | String c s' =>
      if p c then (String c (fst (span p s')), snd (span p s')) else (EmptyString, s)
  | EmptyString => (EmptyString, EmptyString)
  end.

Fixpoint allb (p : ascii -> bool) (s : string) : bool :=
  match s with
  | String c s' => p c && allb p s'
  | EmptyString => true
  end.

(** The class does not go on at the head of [s]. *)
Definition stops (p : ascii -> bool) (s : string) : bool :=
  match s with
  | String c _ => negb (p c)
  | EmptyString => true
  end.

Lemma span_append p s : fst (span p s) +:+ snd (span p s) = s.
Proof.
  induction s as [|c s IH]; [reflexivity |]. cbn [span].
  destruct (p c); cbn; [rewrite IH |]; reflexivity.
Qed.

Lemma span_allb p s : allb p (fst (span p s)) = true.
Proof.
  induction s as [|c s IH]; [reflexivity |]. cbn [span].
  destruct (p c) eqn:E; cbn; [rewrite E, IH |]; reflexivity.
Qed.

Lemma span_stops p s : stops p (snd (span p s)) = true.
Proof.
  induction s as [|c s IH]; [reflexivity |]. cbn [span].
  destruct (p c) eqn:E; cbn; [exact IH | rewrite E; reflexivity].
Qed.

Lemma span_exact p x b :
  allb p x = true -> stops p b = true -> span p (x +:+ b) = (x, b).
Proof.
  intros Hx Hb. induction x as [|c x IH]; cbn.
  - destruct b as [|d b]; [reflexivity |]. cbn in Hb. cbn.
    destruct (p d); [discriminate | reflexivity].
  - cbn in Hx. apply andb_true_iff in Hx as [Hc Hx]. rewrite Hc, (IH Hx). reflexivity.
Qed.

Lemma lastOf_append p a b : lastOf p (a +:+ b) = lastOf (lastOf p a) b.
Proof. revert p. induction a as [|c a IH]; intros p; cbn; [reflexivity | apply IH]. Qed.

Lemma take_append (x b : string) : take (String.length x) (x +:+ b) = x.
Proof. induction x as [|c x IH]; cbn; [destruct b |]; [reflexivity .. | rewrite IH; reflexivity]. Qed.

(** What a group records when the matcher went from [x ++ b] to [b]. *)
Lemma consumed_append p p' x b cs cs' :
  consumed (MState p (x +:+ b) cs) (MState p' b cs') = x.
Proof.
  unfold consumed. cbn [rest]. rewrite length_append.
  replace (String.length x + String.length b - String.length b) with (String.length x) by lia.
  apply take_append.
Qed.

(** A literal reads itself or fails. *)
Lemma run_lit w : forall p s cs k,
  run (lit w) (MState p s cs) k
  = if String.prefix w s
    then k (MState (lastOf p w) (substring (String.length w) s) cs)
    else None.
Proof.
  induction w as [|c w IH]; intros p s cs k.
  - cbn. destruct s; reflexivity.
  - cbn [lit run rest caps]. destruct s as [|d s]; [reflexivity |].
    cbn [String.prefix String.length substring lastOf].
    destruct (ascii_dec c d) as [->|Hne].
    + rewrite Ascii.eqb_refl. apply IH.
    + apply Ascii.eqb_neq in Hne. rewrite Hne. reflexivity.
Qed.

(** The splits of a greedy repetition of a class, longest first. *)
Fixpoint backtrack (k : mstate -> option mstate) (pv : option ascii) (x b : string)
  (cs : list (nat * string)) : option mstate :=
  match x with
  | EmptyString => k (MState pv b cs)
  | String c x' =>
      orElse (backtrack k (Some c) x' b cs) (fun _ => k (MState pv (String c x' +:+ b) cs))
  end.

Lemma run_chr p pv s cs k :
  run (Chr p) (MState pv s cs) k
  = match s with
    | String c s' => if p c then k (MState (Some c) s' cs) else None
    | EmptyString => None
    end.
Proof. reflexivity. Qed.

Lemma star_loop_class p k : forall x pv b cs n,
  String.length (x +:+ b) < n -> allb p x = true -> stops p b = true ->
  star_loop (run (Chr p)) true k n (MState pv (x +:+ b) cs) = backtrack k pv x b cs.
Proof.
  induction x as [|c x IH]; intros pv b cs n Hn Hx Hb;
    (destruct n as [|n]; [lia |]); cbn [star_loop]; rewrite run_chr.
  - cbn [String.append backtrack]. destruct b as [|d b]; [reflexivity |].
    cbn in Hb. destruct (p d); [discriminate | reflexivity].
  - cbn [String.append allb backtrack] in *. apply andb_true_iff in Hx as [Hc Hx].
    rewrite Hc. cbn [rest String.length].
    destruct (Nat.ltb_spec (String.length (x +:+ b)) (Datatypes.S (String.length (x +:+ b))))
      as [_|Hbad]; [| lia].
    rewrite (IH (Some c) b cs n); [reflexivity | | exact Hx | exact Hb].
    cbn in Hn. lia.
Qed.

Lemma run_star_class p k x pv b cs :
  allb p x = true -> stops p b = true ->
  run (Star true (Chr p)) (MState pv (x +:+ b) cs) k = backtrack k pv x b cs.
Proof.
  intros Hx Hb. cbn [run rest]. apply star_loop_class; [lia | exact Hx | exact Hb].
Qed.

(** When the continuation accepts the longest split, that is the answer. *)
Lemma backtrack_longest k res : forall x pv b cs,
  k (MState (lastOf pv x) b cs) = Some res -> backtrack k pv x b cs = Some res.
Proof.
  induction x as [|c x IH]; intros pv b cs H; cbn in *; [exact H |].
  rewrite (IH (Some c) b cs H). reflexivity.
Qed.

(** When the continuation rejects every split, there is no match. *)
Lemma backtrack_none k : forall x pv b cs,
  (forall x1 x2, x = x1 +:+ x2 -> k (MState (lastOf pv x1) (x2 +:+ b) cs) = None) ->
  backtrack k pv x b cs = None.
Proof.
  induction x as [|c x IH]; intros pv b cs H; cbn.
  - apply (H EmptyString EmptyString). reflexivity.
  - rewrite (IH (Some c) b cs).
    + cbn. apply (H EmptyString (String c x)). reflexivity.
    + intros x1 x2 ->. apply (H (String c x1) x2). reflexivity.
Qed.

End RegexMore.

(** ** The local todo file ([addTodo], [addIntelligentTodo],
       [parseLocalTodos], [parseActionableTodos], [parseNaturalLanguageTodo]) *)

Module Todos.
Import JsString Regex Eff Actions.
Local Open Scope eff_scope.

(** An entry of [parseActionableTodos]. *)
Record todo : Type := {
  task : string;
  verb : string;
  target : string
}.

(** The content of [todo.md] in the working directory; [None] when the
    file does not exist.  An existing file is taken to be readable.
    Console texts are recorded without colour codes, emoji and
    box-drawing symbols; the texts of a spinner are recorded as log
    lines. *)
Definition state : Type := option string.

Inductive event : Type :=
| AppendFile (text : string)             (* fs.appendFile(todoFilePath, text) *)
| Log (text : string)
| ErrorLog (text : string).

Definition T (A : Type) : Type := M state string event A.

Definition lf : ascii := ascii_of_nat 10.

(** [s.indexOf(sub)]; [None] stands for -1. *)
Fixpoint indexOf (sub s : string) : option nat :=
  if String.prefix sub s then Some 0
  else match s with
       | EmptyString => None
       | String _ s' => option_map Datatypes.S (indexOf sub s')
       end.

(** [s.split(sep)[0]] for a non-empty separator: what comes before its
    first occurrence, or all of [s]. *)
Fixpoint beforeFirst (sep s : string) : string :=
  if String.prefix sep s then EmptyString
  else match s with
       | EmptyString => EmptyString
       | String c s' => String c (beforeFirst sep s')
       end.

(** [s.replace(/\s+/g, '_')]: every maximal run of white space becomes
    one underscore. *)
Fixpoint underscored (inRun : bool) (s : string) : string :=
  match s with
  | EmptyString => EmptyString
  | String c s' =>
      if isWhiteSpace c then
        if inRun then underscored true s' else String "_" (underscored true s')
      else String c (underscored false s')
  end.

(** The pattern of an action: the text @action:, optional white space,
    a word (group 1), optional white space, the rest of the line
    (group 2). *)
Definition actionRe : regex :=
  Seq (lit "@action:")
    (Seq (Star true ws)
       (Seq (Group 1 (plus true (Chr isWordChar)))
          (Seq (Star true ws) (Group 2 (Star true dot))))).

(** [m[i]] of a successful match, for a group that took part in it. *)
Definition group (i : nat) (m : mstate) : string :=
  match capture i (caps m) with Some v => v | None => EmptyString end.

(** The body of the loop of [parseActionableTodos] for one line. *)
Definition parseLine (line : string) : option todo :=
  match exec actionRe line with
  | Some actionMatch =>
      Some {| task := trim (replaceFirst "- [ ]" EmptyString (beforeFirst "@action:" line));
              verb := group 1 actionMatch;
              target := trim (group 2 actionMatch) |}
  | None => None
  end.

Definition actionableIn (content : string) : list todo :=
  flat_map (fun line => match parseLine line with Some t => [t] | None => [] end)
    (split lf content).

Definition parseActionableTodos : T (list todo) :=
  do st <- get ;
  match st with
  | None => ret []
  | Some content => ret (actionableIn content)
  end.

Definition parseLocalTodos : T (list string) :=
  do st <- get ;
  match st with
  | None => ret []
  | Some content => ret (List.filter (startsWith "- [ ]") (split lf content))
  end.

Section WithEnvironment.
Variable initResult : outcome string unit.                 (* this.init() *)
(** Whether [fs.appendFile] can write the text: the file is created
    when missing. *)
Variable appendResult : string -> outcome string unit.
Variable currentModel : string.                            (* this.currentModel *)
Variable hasLocalModel : bool.                             (* await this.hasLocalModel() *)
Variable runLocalAI : string -> outcome string string.    (* await this.runLocalAI(text) *)
Variable toUpperCase : string -> string.   (* String.prototype.toUpperCase, in log texts *)

Definition appendFile (text : string) : T unit :=
  emit (AppendFile text) ;;
  lift (appendResult text) ;;
  do st <- get ;
  put (Some (match st with Some content => content | None => EmptyString end +:+ text)).

Definition parseNaturalLanguageTodo (todoText : string) : T (string * string) :=
  tryCatch
    (do response <- lift (runLocalAI todoText) ;
     (* Extract the action from the response *)
     match exec actionRe response with
     | Some actionMatch => ret (group 1 actionMatch, trim (group 2 actionMatch))
     | None => throw "Could not parse action from response"
     end)
    (fun message => throw ("Failed to parse natural language: " +:+ message)).

Definition addIntelligentTodo (task : string) : T unit :=
  emit (Log ("Analyzing: " +:+ quoted task)) ;;
  (* Try local AI first (if available) *)
  do done <-
    (if String.eqb currentModel "local" && hasLocalModel then
       tryCatch
         (emit (Log "Processing with local AI...") ;;   (* the spinner *)
          do parsed <- parseNaturalLanguageTodo task ;
          emit (Log "Local AI processed successfully") ;;
          appendFile (nl +:+ "- [ ] " +:+ task +:+ " @action: " +:+ fst parsed +:+ " "
                      +:+ snd parsed) ;;
          emit (Log ("Added intelligent task: " +:+ quoted task)) ;;
          emit (Log ("   AI suggested: @action: " +:+ fst parsed +:+ " " +:+ snd parsed)) ;;
          ret true)
         (fun _ => emit (Log "Local AI failed, trying cloud...") ;; ret false)
     else ret false) ;
  if (done : bool) then ret tt
  else
    (* Try cloud AI fallback *)
    do done <-
      (if String.eqb currentModel "claude" || String.eqb currentModel "gemini" then
         tryCatch
           (emit (Log ("Processing with " +:+ toUpperCase currentModel +:+ "...")) ;;
            appendFile (nl +:+ "- [ ] " +:+ task +:+ " @action: search "
                        +:+ underscored false (toLowerCase task)) ;;
            emit (Log ("Added task: " +:+ quoted task)) ;;
            emit (Log ("   Processed with " +:+ toUpperCase currentModel)) ;;
            ret true)
           (fun _ => emit (Log "Cloud AI failed, adding as manual task...") ;; ret false)
       else ret false) ;
    if (done : bool) then ret tt
    else
      (* Final fallback - add as manual todo *)
      tryCatch
        (appendFile (nl +:+ "- [ ] " +:+ task) ;;
         emit (Log ("Added task: " +:+ quoted task)) ;;
         emit (Log "Add @action: for automatic execution"))
        (fun message => emit (ErrorLog ("Error adding task: " +:+ message))).

Definition addTodo (task : string) : T unit :=
  lift initResult ;;   (* Ensure initialization is complete *)
  (* Check if it's already structured with @action *)
  if includes "@action:" task then
    tryCatch
      (appendFile (nl +:+ "- [ ] " +:+ task) ;;
       emit (Log ("Added structured task: " +:+ quoted task)))
      (fun message => emit (ErrorLog ("Error adding task: " +:+ message)))
  else
    (* Check if it has manual @action format *)
    match indexOf "@" task with
    | Some actionIndex =>
        let description := trim (take actionIndex task) in
        let rawActionString := trim (substring (actionIndex + 1) task) in
        tryCatch
          (appendFile (nl +:+ "- [ ] " +:+ description +:+ " @action: " +:+ rawActionString) ;;
           emit (Log ("Added task: " +:+ quoted description)) ;;
           emit (Log ("   With intent: @" +:+ rawActionString)))
          (fun message => emit (ErrorLog ("Error adding task: " +:+ message)))
    | None =>
        (* Try intelligent processing for natural language todos *)
        addIntelligentTodo task
    end.

End WithEnvironment.

(** Texts handed to [fs.appendFile] in a trace. *)
Definition appended (t : list event) : list string :=
  flat_map (fun ev => match ev with AppendFile text => [text] | _ => [] end) t.

End Todos.

(** ** Properties of the todo file *)

Module TodosFacts.
Import JsString JsStringFacts JsStringMore Regex RegexMore Eff Actions ActionsFacts Todos.

Definition notLineTerminator (c : ascii) : bool := negb (isLineTerminator c).

(** What the pattern reads from [s] after @action: - the word after the leading
    white space, and the rest of the line after the white space that
    follows the word. *)
Definition tailParse (s : string) : option (string * string) :=
  let s1 := snd (span isWhiteSpace s) in
  match fst (span isWordChar s1) with
  | EmptyString => None
  | w =>
      let s3 := snd (span isWhiteSpace (snd (span isWordChar s1))) in
      Some (w, fst (span notLineTerminator s3))
  end.

(** The scanner the pattern amounts to: the first place where
    "@action:" is followed by a word. *)
Fixpoint findAction (s : string) : option (string * string) :=
  match (if String.prefix "@action:" s then tailParse (substring 8 s) else None) with
  | Some r => Some r
  | None =>
      match s with
      | EmptyString => None
      | String _ s' => findAction s'
      end
  end.

Lemma run_seq r1 r2 st k : run (Seq r1 r2) st k = run r1 st (fun st' => run r2 st' k).
Proof. reflexivity. Qed.

Lemma run_group i r st k :
  run (Group i r) st k
  = run r st (fun st' => k (MState (prev st') (rest st') ((i, consumed st st') :: caps st'))).
Proof. reflexivity. Qed.

Lemma allb_append p a b : allb p (a +:+ b) = allb p a && allb p b.
Proof. induction a as [|c a IH]; cbn; [reflexivity | rewrite IH, andb_assoc; reflexivity]. Qed.

Lemma span_empty_stops p s : fst (span p s) = EmptyString -> stops p s = true.
Proof.
  destruct s as [|c s]; [reflexivity |]. cbn. destruct (p c); [discriminate | reflexivity].
Qed.

Lemma word_is_no_space c : isWhiteSpace c = true -> isWordChar c = false.
Proof. destruct c as [[] [] [] [] [] [] [] []]; vm_compute; congruence. Qed.

(** The last two parts of the pattern always match. *)
Lemma run_rest_of_line pv s cs :
  exists pv' r',
    run (Seq (Star true ws) (Group 2 (Star true dot))) (MState pv s cs) Some
    = Some (MState pv' r'
              ((2, fst (span notLineTerminator (snd (span isWhiteSpace s)))) :: cs)).
Proof.
  pose proof (span_append isWhiteSpace s) as Hs.
  pose proof (span_allb isWhiteSpace s) as Hsp.
  pose proof (span_stops isWhiteSpace s) as Hs3.
  set (sp := fst (span isWhiteSpace s)) in *.
  set (s3 := snd (span isWhiteSpace s)) in *.
  clearbody sp s3. subst s.
  pose proof (span_append notLineTerminator s3) as Hs3'.
  pose proof (span_allb notLineTerminator s3) as Hd.
  pose proof (span_stops notLineTerminator s3) as Hs4.
  set (d := fst (span notLineTerminator s3)) in *.
  set (s4 := snd (span notLineTerminator s3)) in *.
  clearbody d s4. subst s3.
  rewrite run_seq. unfold ws, dot. fold notLineTerminator.
  rewrite run_star_class by assumption.
  eexists _, _. apply backtrack_longest.
  rewrite run_group.
  rewrite run_star_class by assumption.
  apply backtrack_longest. cbn [prev rest caps].
  rewrite consumed_append. reflexivity.
Qed.

(** The part of the pattern after "@action:" finds what [tailParse] finds. *)
Lemma run_tail pv s cs :
  match tailParse s with
  | Some (w, d) =>
      exists pv' r',
        run (Seq (Star true ws)
               (Seq (Group 1 (plus true (Chr isWordChar)))
                  (Seq (Star true ws) (Group 2 (Star true dot)))))
          (MState pv s cs) Some
        = Some (MState pv' r' ((2, d) :: (1, w) :: cs))
  | None =>
      run (Seq (Star true ws)
             (Seq (Group 1 (plus true (Chr isWordChar)))
                (Seq (Star true ws) (Group 2 (Star true dot)))))
        (MState pv s cs) Some
      = None
  end.
Proof.
  unfold tailParse.
  pose proof (span_append isWhiteSpace s) as Hs.
  pose proof (span_allb isWhiteSpace s) as Hsp.
  pose proof (span_stops isWhiteSpace s) as Hstop1.
  set (sp := fst (span isWhiteSpace s)) in *.
  set (s1 := snd (span isWhiteSpace s)) in *.
  clearbody sp s1. subst s.
  pose proof (span_append isWordChar s1) as Hs1.
  pose proof (span_allb isWordChar s1) as Hw.
  pose proof (span_stops isWordChar s1) as Hstop2.
  pose proof (span_empty_stops isWordChar s1) as Hempty.
  set (w := fst (span isWordChar s1)) in *.
  set (s2 := snd (span isWordChar s1)) in *.
  clearbody w s2.
  rewrite run_seq. unfold ws at 1 3.
  destruct w as [|c w'].
  - (* no word after the white space *)
    specialize (Hempty eq_refl).
    rewrite run_star_class by assumption.
    apply backtrack_none. intros x1 x2 Hx.
    rewrite run_seq, run_group. unfold plus. rewrite run_seq, run_chr.
    destruct x2 as [|d x2].
    + cbn [String.append]. destruct s1 as [|d s1]; [reflexivity |].
      cbn in Hempty. destruct (isWordChar d); [discriminate | reflexivity].
    + cbn [String.append].
      rewrite Hx, allb_append in Hsp. apply andb_true_iff in Hsp as [_ Hd].
      cbn in Hd. apply andb_true_iff in Hd as [Hd _].
      rewrite (word_is_no_space d Hd). reflexivity.
  - (* the word, then the rest of the line *)
    destruct (run_rest_of_line (lastOf (Some c) w') s2 ((1, String c w') :: cs))
      as (pv' & r' & Hrest).
    exists pv', r'.
    rewrite run_star_class by assumption.
    apply backtrack_longest.
    rewrite run_seq, run_group. unfold plus. rewrite run_seq, run_chr.
    subst s1. cbn [String.append].
    cbn [allb] in Hw. apply andb_true_iff in Hw as [Hc Hw]. rewrite Hc.
    rewrite run_star_class by assumption.
    apply backtrack_longest. cbn [prev rest caps].
    change (String c (w' +:+ s2)) with (String c w' +:+ s2).
    rewrite consumed_append. exact Hrest.
Qed.

Lemma slide_unfold r p s :
  slide r p s
  = orElse (run r (MState p s []) Some)
      (fun _ => match s with
                | String c s' => slide r (Some c) s'
                | EmptyString => None
                end).
Proof. destruct s; reflexivity. Qed.

(** The search for the pattern is the scanner. *)
Lemma slide_actionRe : forall s pv,
  match findAction s with
  | Some (w, d) => exists pv' r', slide actionRe pv s = Some (MState pv' r' [(2, d); (1, w)])
  | None => slide actionRe pv s = None
  end.
Proof.
  assert (Hhere : forall s pv,
    match (if String.prefix "@action:" s then tailParse (substring 8 s) else None) with
    | Some (w, d) =>
        exists pv' r', run actionRe (MState pv s []) Some
                       = Some (MState pv' r' [(2, d); (1, w)])
    | None => run actionRe (MState pv s []) Some = None
    end).
  { intros s pv. unfold actionRe. rewrite run_seq, run_lit.
    destruct (String.prefix "@action:" s); [| reflexivity].
    apply (run_tail (lastOf pv "@action:") (substring 8 s) []). }
  induction s as [|c s IH]; intros pv; rewrite slide_unfold;
    specialize (Hhere) as Hh; cbn [findAction].
  - specialize (Hh EmptyString pv).
    destruct (if String.prefix "@action:" EmptyString then _ else _) as [[w d]|].
    + destruct Hh as (pv' & r' & ->). eexists _, _. reflexivity.
    + rewrite Hh. reflexivity.
  - specialize (Hh (String c s) pv).
    destruct (if String.prefix "@action:" (String c s) then _ else _) as [[w d]|].
    + destruct Hh as (pv' & r' & ->). eexists _, _. reflexivity.
    + rewrite Hh. cbn [orElse]. apply IH.
Qed.

(** [parseLine] in terms of the scanner. *)
Lemma parseLine_scan (line : string) :
  parseLine line
  = match findAction line with
    | Some (w, d) =>
        Some {| task := trim (replaceFirst "- [ ]" EmptyString (beforeFirst "@action:" line));
                verb := w;
                target := trim d |}
    | None => None
    end.
Proof.
  unfold parseLine, exec. pose proof (slide_actionRe line None) as H.
  destruct (findAction line) as [[w d]|].
  - destruct H as (pv' & r' & ->). reflexivity.
  - rewrite H. reflexivity.
Qed.

(** *** Strings *)

Lemma prefix_at_other (c d : ascii) (w s : string) :
  Ascii.eqb c d = false -> String.prefix (String c w) (String d s) = false.
Proof.
  intros H. cbn. destruct (ascii_dec c d) as [->|]; [| reflexivity].
  rewrite Ascii.eqb_refl in H. discriminate.
Qed.

Lemma split_append (sep : ascii) (b : string) : forall a,
  split sep (a +:+ String sep b) = split sep a ++ split sep b.
Proof.
  induction a as [|c a IH].
  - cbn [String.append split]. rewrite Ascii.eqb_refl. reflexivity.
  - cbn [String.append]. rewrite !split_cons, IH.
    destruct (Ascii.eqb c sep); [reflexivity |].
    destruct (split sep a) as [|h t] eqn:E; [| reflexivity].
    destruct a as [|x a]; [discriminate |]. rewrite split_cons in E.
    destruct (Ascii.eqb x sep); [discriminate |]. destruct (split sep a); discriminate.
Qed.

Lemma split_one (sep : ascii) : forall s,
  includes (String sep EmptyString) s = false -> split sep s = [s].
Proof.
  induction s as [|c s IH]; intros H; [reflexivity |].
  rewrite includes_char_cons in H. apply orb_false_iff in H as [Hc Hs].
  rewrite split_cons. rewrite Ascii.eqb_sym, Hc, (IH Hs). reflexivity.
Qed.

Lemma includes_char_append (c : ascii) (a b : string) :
  includes (String c EmptyString) (a +:+ b)
  = includes (String c EmptyString) a || includes (String c EmptyString) b.
Proof.
  induction a as [|d a IH]; [reflexivity |].
  cbn [String.append]. rewrite !includes_char_cons, IH, orb_assoc. reflexivity.
Qed.

Lemma allb_no_char (p : ascii -> bool) (c : ascii) : forall s,
  p c = false -> allb p s = true -> includes (String c EmptyString) s = false.
Proof.
  induction s as [|d s IH]; intros Hc Hs; [reflexivity |].
  cbn in Hs. apply andb_true_iff in Hs as [Hd Hs].
  rewrite includes_char_cons, (IH Hc Hs), orb_false_r.
  apply Ascii.eqb_neq. intros ->. congruence.
Qed.

(** *** The scanner on a line of the shape [addTodo] writes *)

Lemma findAction_at (r : string * string) (t : string) : forall a,
  includes "@" a = false -> tailParse t = Some r ->
  findAction (a +:+ "@action:" +:+ t) = Some r.
Proof.
  induction a as [|c a IH]; intros Ha Ht.
  - change (EmptyString +:+ "@action:" +:+ t) with ("@action:" +:+ t).
    destruct ("@action:" +:+ t) as [|x y] eqn:E; [discriminate |].
    cbn [findAction]. rewrite <- E, (prefix_append "@action:" t).
    change 8 with (String.length "@action:"). rewrite substring_append, Ht. reflexivity.
  - rewrite includes_char_cons in Ha. apply orb_false_iff in Ha as [Hc Ha].
    change (String c a +:+ "@action:" +:+ t) with (String c (a +:+ "@action:" +:+ t)).
    cbn [findAction]. rewrite (prefix_at_other _ _ _ _ Hc). apply IH; assumption.
Qed.

Lemma findAction_none : forall s, includes "@action:" s = false -> findAction s = None.
Proof.
  induction s as [|c s IH]; intros H; rewrite includes_unfold in H;
    apply orb_false_iff in H as [Hp Hs]; cbn [findAction]; rewrite Hp; [reflexivity |].
  apply IH, Hs.
Qed.

Lemma beforeFirst_at (t : string) : forall a,
  includes "@" a = false -> beforeFirst "@action:" (a +:+ "@action:" +:+ t) = a.
Proof.
  induction a as [|c a IH]; intros Ha.
  - change (EmptyString +:+ "@action:" +:+ t) with ("@action:" +:+ t).
    destruct ("@action:" +:+ t) as [|x y] eqn:E; [discriminate |].
    cbn [beforeFirst]. rewrite <- E, (prefix_append "@action:" t). reflexivity.
  - rewrite includes_char_cons in Ha. apply orb_false_iff in Ha as [Hc Ha].
    change (String c a +:+ "@action:" +:+ t) with (String c (a +:+ "@action:" +:+ t)).
    cbn [beforeFirst]. rewrite (prefix_at_other _ _ _ _ Hc), (IH Ha). reflexivity.
Qed.

Lemma indexOf_at (t : string) : forall a,
  includes "@" a = false -> indexOf "@" (a +:+ "@" +:+ t) = Some (String.length a).
Proof.
  induction a as [|c a IH]; intros Ha.
  - cbn. destruct t; reflexivity.
  - rewrite includes_char_cons in Ha. apply orb_false_iff in Ha as [Hc Ha].
    change (String c a +:+ "@" +:+ t) with (String c (a +:+ "@" +:+ t)).
    cbn [indexOf]. rewrite (prefix_at_other _ _ _ _ Hc), (IH Ha). reflexivity.
Qed.

Lemma indexOf_none (sub : string) : forall s,
  includes sub s = false -> indexOf sub s = None.
Proof.
  induction s as [|c s IH]; intros H; rewrite includes_unfold in H;
    apply orb_false_iff in H as [Hp Hs]; cbn [indexOf]; rewrite Hp; [reflexivity |].
  rewrite (IH Hs). reflexivity.
Qed.

Lemma span_space_is_trimStart (s : string) : snd (span isWhiteSpace s) = trimStart s.
Proof.
  induction s as [|c s IH]; [reflexivity |]. cbn.
  destruct (isWhiteSpace c); [exact IH | reflexivity].
Qed.

Lemma allb_trimStart p s : allb p s = true -> allb p (trimStart s) = true.
Proof.
  induction s as [|c s IH]; intros H; [reflexivity |]. cbn [trimStart].
  destruct (isWhiteSpace c); [| exact H].
  cbn in H. apply andb_true_iff in H as [_ H]. apply IH, H.
Qed.

Lemma allb_trimEnd p s : allb p s = true -> allb p (trimEnd s) = true.
Proof.
  induction s as [|c s IH]; intros H; [reflexivity |]. cbn [trimEnd].
  cbn in H. apply andb_true_iff in H as [Hc H]. specialize (IH H).
  destruct (trimEnd s) as [|d t].
  - destruct (isWhiteSpace c); [reflexivity | cbn; rewrite Hc; reflexivity].
  - cbn [allb] in *. rewrite Hc, IH. reflexivity.
Qed.

Lemma allb_trim p s : allb p s = true -> allb p (trim s) = true.
Proof. intros H. apply allb_trimEnd, allb_trimStart, H. Qed.

Lemma span_all p s : allb p s = true -> span p s = (s, EmptyString).
Proof.
  intros H. rewrite <- (append_nil_r s) at 1. apply span_exact; [exact H | reflexivity].
Qed.

(** The pattern applied to [" " ++ word ++ rest] when the word ends
    where [rest] starts and [rest] stays on the line. *)
Lemma tailParse_word (w rest : string) :
  w <> EmptyString -> allb isWordChar w = true -> stops isWordChar rest = true ->
  allb notLineTerminator rest = true ->
  tailParse (" " +:+ w +:+ rest) = Some (w, trimStart rest).
Proof.
  intros Hne Hw Hstop Hline. unfold tailParse.
  assert (Hsp : span isWhiteSpace (" " +:+ w +:+ rest) = (" ", w +:+ rest)).
  { apply (span_exact isWhiteSpace " " (w +:+ rest)); [reflexivity |].
    destruct w as [|c w]; [contradiction |]. cbn in *.
    apply andb_true_iff in Hw as [Hc _].
    destruct (isWhiteSpace c) eqn:E; [| reflexivity].
    apply word_is_no_space in E. congruence. }
  rewrite Hsp. cbn [fst snd].
  rewrite (span_exact isWordChar w rest Hw Hstop). cbn [fst snd].
  destruct w as [|c w]; [contradiction |].
  rewrite span_space_is_trimStart, (span_all _ _ (allb_trimStart _ _ Hline)). reflexivity.
Qed.

Lemma trimEnd_space_r (s : string) : trimEnd (s +:+ " ") = trimEnd s.
Proof.
  induction s as [|c s IH]; [reflexivity |].
  cbn [String.append trimEnd]. rewrite IH. reflexivity.
Qed.

Lemma trim_padded (s : string) : trim (" " +:+ s +:+ " ") = trim s.
Proof.
  unfold trim. change (trimStart (" " +:+ s +:+ " ")) with (trimStart (s +:+ " ")).
  rewrite <- !trimStart_trimEnd, trimEnd_space_r. reflexivity.
Qed.

Lemma no_char_allb (c : ascii) (s : string) :
  includes (String c EmptyString) s = false <->
  allb (fun d => negb (Ascii.eqb c d)) s = true.
Proof.
  induction s as [|d s IH]; [split; reflexivity |].
  rewrite includes_char_cons. cbn [allb].
  rewrite orb_false_iff, andb_true_iff, negb_true_iff, IH. reflexivity.
Qed.

Lemma no_char_trim (c : ascii) (s : string) :
  includes (String c EmptyString) s = false ->
  includes (String c EmptyString) (trim s) = false.
Proof. rewrite !no_char_allb. apply allb_trim. Qed.

(** The contents of the file, [None] read as empty. *)
Definition contentOf (st : state) : string :=
  match st with Some content => content | None => EmptyString end.

Lemma parseActionableTodos_run (st : state) :
  parseActionableTodos st = (Ok (actionableIn (contentOf st)), st, []).
Proof.
  assert (Hempty : actionableIn EmptyString = []).
  { unfold actionableIn. cbn [split flat_map]. rewrite parseLine_scan. reflexivity. }
  destruct st as [content|]; [reflexivity |].
  unfold parseActionableTodos, bind, get, ret, contentOf. rewrite Hempty. reflexivity.
Qed.

Lemma parseLocalTodos_run (st : state) :
  parseLocalTodos st
  = (Ok (List.filter (startsWith "- [ ]") (split lf (contentOf st))), st, []).
Proof. unfold parseLocalTodos, bind, get, ret. destruct st; reflexivity. Qed.

Lemma actionableIn_append (old line : string) :
  actionableIn (old +:+ nl +:+ line) = actionableIn old ++ actionableIn line.
Proof.
  unfold actionableIn. change (nl +:+ line) with (String lf line).
  rewrite split_append, flat_map_app. reflexivity.
Qed.

(** A line of the shape [addTodo] writes is read back as one entry. *)
Lemma parseLine_written (body w rest : string) :
  includes "@" body = false ->
  w <> EmptyString -> allb isWordChar w = true -> stops isWordChar rest = true ->
  allb notLineTerminator rest = true ->
  parseLine ("- [ ] " +:+ body +:+ " @action: " +:+ w +:+ rest)
  = Some {| task := trim body; verb := w; target := trim rest |}.
Proof.
  intros Hbody Hne Hw Hstop Hline.
  assert (Hshape : "- [ ] " +:+ body +:+ " @action: " +:+ w +:+ rest
                   = ("- [ ] " +:+ body +:+ " ") +:+ "@action:" +:+ (" " +:+ w +:+ rest)).
  { rewrite !append_assoc. reflexivity. }
  assert (Ha : includes "@" ("- [ ] " +:+ body +:+ " ") = false).
  { rewrite !includes_char_append, Hbody. reflexivity. }
  rewrite parseLine_scan, Hshape.
  rewrite (findAction_at _ _ _ Ha (tailParse_word w rest Hne Hw Hstop Hline)).
  rewrite (beforeFirst_at _ _ Ha).
  change ("- [ ] " +:+ body +:+ " ") with ("- [ ]" +:+ " " +:+ body +:+ " ").
  rewrite (replaceFirst_prefix "- [ ]" EmptyString (" " +:+ body +:+ " ")).
  change (EmptyString +:+ " " +:+ body +:+ " ") with (" " +:+ body +:+ " ").
  rewrite trim_padded.
  unfold trim at 2. rewrite trimStart_idempotent. reflexivity.
Qed.

Lemma written_line_is_one_line (body w rest : string) :
  includes (String lf EmptyString) body = false ->
  allb isWordChar w = true -> allb notLineTerminator rest = true ->
  includes (String lf EmptyString)
    ("- [ ] " +:+ body +:+ " @action: " +:+ w +:+ rest) = false.
Proof.
  intros Hbody Hw Hrest.
  rewrite !includes_char_append, Hbody.
  rewrite (allb_no_char isWordChar lf w eq_refl Hw).
  rewrite (allb_no_char notLineTerminator lf rest eq_refl Hrest).
  reflexivity.
Qed.

Lemma action_marker_has_at (s : string) :
  includes "@" s = false -> includes "@action:" s = false.
Proof.
  intros H. destruct (includes "@action:" s) eqn:E; [| reflexivity].
  apply includes_split in E as (a & b & ->).
  change ("@action:" +:+ b) with ("@" +:+ "action:" +:+ b) in H.
  rewrite !includes_char_append in H. rewrite orb_true_r in H. discriminate.
Qed.

Lemma allb_weaken (p q : ascii -> bool) (s : string) :
  (forall c, p c = true -> q c = true) -> allb p s = true -> allb q s = true.
Proof.
  intros Hpq. induction s as [|c s IH]; intros H; [reflexivity |].
  cbn in *. apply andb_true_iff in H as [Hc H]. rewrite (Hpq c Hc), (IH H). reflexivity.
Qed.

Definition visible (c : ascii) : bool := negb (isWhiteSpace c).

Lemma underscored_visible : forall s inRun, allb visible (underscored inRun s) = true.
Proof.
  induction s as [|c s IH]; intros inRun; [reflexivity |]. cbn [underscored].
  destruct (isWhiteSpace c) eqn:E.
  - destruct inRun; [apply IH |]. cbn [allb]. rewrite IH. reflexivity.
  - cbn [allb]. unfold visible at 1. rewrite E, IH. reflexivity.
Qed.

Lemma visible_trimStart (s : string) : allb visible s = true -> trimStart s = s.
Proof.
  destruct s as [|c s]; [reflexivity |]. cbn. unfold visible.
  destruct (isWhiteSpace c); [discriminate | reflexivity].
Qed.

Lemma visible_trimEnd (s : string) : allb visible s = true -> trimEnd s = s.
Proof.
  induction s as [|c s IH]; intros H; [reflexivity |].
  cbn in H. apply andb_true_iff in H as [Hc H]. cbn [trimEnd]. rewrite (IH H).
  unfold visible in Hc. destruct s; [destruct (isWhiteSpace c); [discriminate |] |]; reflexivity.
Qed.

Lemma visible_trim (s : string) : allb visible s = true -> trim s = s.
Proof. intros H. unfold trim. rewrite (visible_trimStart s H). apply visible_trimEnd, H. Qed.

Lemma visible_on_line (c : ascii) : visible c = true -> notLineTerminator c = true.
Proof. destruct c as [[] [] [] [] [] [] [] []]; vm_compute; congruence. Qed.

Lemma trim_space_l (s : string) : trim (" " +:+ s) = trim s.
Proof. reflexivity. Qed.

Lemma tailParse_inv (s w d : string) :
  tailParse s = Some (w, d) ->
  w <> EmptyString /\ allb isWordChar w = true /\ allb notLineTerminator d = true.
Proof.
  unfold tailParse.
  pose proof (span_allb isWordChar (snd (span isWhiteSpace s))) as Hw.
  destruct (fst (span isWordChar (snd (span isWhiteSpace s)))) as [|c w'];
    [discriminate |].
  intros H. injection H as <- <-.
  split; [discriminate |]. split; [exact Hw | apply span_allb].
Qed.

Lemma findAction_inv : forall (s w d : string),
  findAction s = Some (w, d) ->
  w <> EmptyString /\ allb isWordChar w = true /\ allb notLineTerminator d = true.
Proof.
  induction s as [|c s IH]; intros w d; cbn [findAction].
  - destruct (String.prefix "@action:" EmptyString); [| discriminate].
    destruct (tailParse _) as [[w0 d0]|] eqn:E; [| discriminate].
    intros H. injection H as <- <-. apply (tailParse_inv _ _ _ E).
  - destruct (if String.prefix "@action:" (String c s) then _ else _) as [[w0 d0]|] eqn:E.
    + intros H. injection H as <- <-.
      destruct (String.prefix "@action:" (String c s)); [| discriminate].
      apply (tailParse_inv _ _ _ E).
    + apply IH.
Qed.

Section WithEnvironment.
Variable initResult : outcome string unit.
Variable appendResult : string -> outcome string unit.
Variable currentModel : string.
Variable hasLocalModel : bool.
Variable runLocalAI : string -> outcome string string.
Variable toUpperCase : string -> string.

Local Abbreviation add :=
  (addTodo initResult appendResult currentModel hasLocalModel runLocalAI toUpperCase).
Local Abbreviation addIntelligent :=
  (addIntelligentTodo appendResult currentModel hasLocalModel runLocalAI toUpperCase).

Lemma bind_emit {A : Type} (ev : event) (k : T A) (s : state) :
  bind (emit ev) (fun _ => k) s = match k s with (r, s', t) => (r, s', ev :: t) end.
Proof. unfold bind, emit. destruct (k s) as [[r s'] t]. reflexivity. Qed.

Lemma appendFile_run (text : string) (st : state) :
  appendFile appendResult text st
  = match appendResult text with
    | Ok _ => (Ok tt, Some (contentOf st +:+ text), [AppendFile text])
    | Throw e => (Throw e, st, [AppendFile text])
    end.
Proof.
  unfold appendFile, bind, emit, lift, get, put, contentOf.
  destruct (appendResult text) as [[]|e]; reflexivity.
Qed.

(** One [try { appendFile; logs } catch { error log }] of [addTodo]:
    the text is written or the error is logged, never thrown. *)
Lemma guarded_append_run (text : string) (k : T unit) (logs : list event) (st : state) :
  (forall s0, k s0 = (Ok tt, s0, logs)) ->
  tryCatch (bind (appendFile appendResult text) (fun _ => k))
    (fun message => emit (ErrorLog ("Error adding task: " +:+ message))) st
  = match appendResult text with
    | Ok _ => (Ok tt, Some (contentOf st +:+ text), AppendFile text :: logs)
    | Throw e => (Ok tt, st, [AppendFile text; ErrorLog ("Error adding task: " +:+ e)])
    end.
Proof.
  intros Hk. unfold tryCatch, bind at 1. rewrite appendFile_run.
  destruct (appendResult text) as [[]|e]; [| reflexivity].
  rewrite Hk. reflexivity.
Qed.

(** What [addTodo] does with a task of the form [description @ intent]. *)
Lemma addTodo_manual_run (description raw : string) (st : state) :
  initResult = Ok tt ->
  includes "@" description = false ->
  includes "@action:" (description +:+ "@" +:+ raw) = false ->
  let text := nl +:+ "- [ ] " +:+ trim description +:+ " @action: " +:+ trim raw in
  add (description +:+ "@" +:+ raw) st
  = match appendResult text with
    | Ok _ =>
        (Ok tt, Some (contentOf st +:+ text),
         [AppendFile text; Log ("Added task: " +:+ quoted (trim description));
          Log ("   With intent: @" +:+ trim raw)])
    | Throw e => (Ok tt, st, [AppendFile text; ErrorLog ("Error adding task: " +:+ e)])
    end.
Proof.
  intros Hinit Hdesc Hstruct text. unfold addTodo.
  rewrite Hinit, Hstruct, (indexOf_at raw description Hdesc).
  rewrite take_append.
  replace (String.length description + 1) with (String.length (description +:+ "@"))
    by (rewrite length_append; reflexivity).
  replace (substring (String.length (description +:+ "@")) (description +:+ "@" +:+ raw))
    with raw
    by (rewrite <- (append_assoc description "@" raw); symmetry; apply substring_append).
  unfold bind at 1, lift.
  subst text. erewrite guarded_append_run by (intros s0; reflexivity).
  destruct (appendResult _) as [[]|e]; reflexivity.
Qed.


Lemma parseNaturalLanguageTodo_run (todoText : string) (s : state) :
  parseNaturalLanguageTodo runLocalAI todoText s
  = match runLocalAI todoText with
    | Ok response =>
        match findAction response with
        | Some (w, d) => (Ok (w, trim d), s, [])
        | None =>
            (Throw "Failed to parse natural language: Could not parse action from response",
             s, [])
        end
    | Throw e => (Throw ("Failed to parse natural language: " +:+ e), s, [])
    end.
Proof.
  unfold parseNaturalLanguageTodo, tryCatch, bind, lift, throw, ret, exec.
  destruct (runLocalAI todoText) as [response|e]; [| reflexivity].
  pose proof (slide_actionRe response None) as H.
  destruct (findAction response) as [[w d]|].
  - destruct H as (pv' & r' & ->). reflexivity.
  - rewrite H. reflexivity.
Qed.

Lemma exec_none_findAction (s : string) : exec actionRe s = None -> findAction s = None.
Proof.
  unfold exec. pose proof (slide_actionRe s None) as H.
  destruct (findAction s) as [[w d]|]; [| reflexivity].
  destruct H as (pv & r & ->). discriminate.
Qed.

(** The local branch of [addIntelligentTodo] when it is not taken or the
    local parse fails. *)
Definition localUnavailable (task : string) : Prop :=
  String.eqb currentModel "local" && hasLocalModel = true ->
  match runLocalAI task with
  | Ok response => exec actionRe response = None
  | Throw _ => True
  end.

Lemma addIntelligentTodo_fallback (task : string) (st : state) :
  localUnavailable task ->
  String.eqb currentModel "claude" || String.eqb currentModel "gemini" = false ->
  exists logs logs',
    appended logs = [] /\ appended logs' = [] /\
    addIntelligent task st
    = match appendResult (nl +:+ "- [ ] " +:+ task) with
      | Ok _ =>
          (Ok tt, Some (contentOf st +:+ nl +:+ "- [ ] " +:+ task),
           logs ++ AppendFile (nl +:+ "- [ ] " +:+ task) :: logs')
      | Throw e =>
          (Ok tt, st,
           logs ++ [AppendFile (nl +:+ "- [ ] " +:+ task);
                    ErrorLog ("Error adding task: " +:+ e)])
      end.
Proof.
  intros Hlocal Hcloud. unfold addIntelligentTodo. rewrite Hcloud.
  rewrite bind_emit.
  assert (Hfinal : forall s0,
    tryCatch
      (bind (appendFile appendResult (nl +:+ "- [ ] " +:+ task))
         (fun _ => bind (emit (Log ("Added task: " +:+ quoted task)))
                     (fun _ => emit (Log "Add @action: for automatic execution"))))
      (fun message => emit (ErrorLog ("Error adding task: " +:+ message))) s0
    = match appendResult (nl +:+ "- [ ] " +:+ task) with
      | Ok _ => (Ok tt, Some (contentOf s0 +:+ nl +:+ "- [ ] " +:+ task),
                 AppendFile (nl +:+ "- [ ] " +:+ task)
                 :: [Log ("Added task: " +:+ quoted task);
                     Log "Add @action: for automatic execution"])
      | Throw e => (Ok tt, s0, [AppendFile (nl +:+ "- [ ] " +:+ task);
                                ErrorLog ("Error adding task: " +:+ e)])
      end).
  { intros s0. apply guarded_append_run. intros s1. reflexivity. }
  destruct (String.eqb currentModel "local" && hasLocalModel) eqn:Hl.
  - specialize (Hlocal Hl).
    unfold bind at 1. unfold tryCatch at 1. rewrite bind_emit. unfold bind at 1.
    rewrite parseNaturalLanguageTodo_run.
    assert (Hfail : exists e,
      match runLocalAI task with
      | Ok response =>
          match findAction response with
          | Some (w, d) => (Ok (w, trim d), st, [])
          | None =>
              (Throw "Failed to parse natural language: Could not parse action from response",
               st, [])
          end
      | Throw e => (Throw ("Failed to parse natural language: " +:+ e), st, [])
      end = (Throw e : outcome string (string * string), st, @nil event)).
    { destruct (runLocalAI task) as [response|e]; [| eexists; reflexivity].
      rewrite (exec_none_findAction response Hlocal). eexists; reflexivity. }
    destruct Hfail as (e & ->). cbv beta iota zeta.
    rewrite bind_emit. unfold ret at 1. cbv beta iota zeta.
    unfold bind at 1, ret at 1. unfold bind at 1. rewrite Hfinal.
    destruct (appendResult (nl +:+ "- [ ] " +:+ task)) as [[]|e'];
      [eexists (Log _ :: Log _ :: Log _ :: nil), (Log _ :: Log _ :: nil)
      | eexists (Log _ :: Log _ :: Log _ :: nil), nil];
      repeat split.
  - unfold bind at 1, ret at 1. unfold bind at 1, ret at 1. rewrite Hfinal.
    destruct (appendResult (nl +:+ "- [ ] " +:+ task)) as [[]|e];
      [eexists (Log _ :: nil), (Log _ :: Log _ :: nil) | eexists (Log _ :: nil), nil];
      repeat split.
Qed.

Lemma localTodos_append (old line : string) :
  includes (String lf EmptyString) line = false ->
  List.filter (startsWith "- [ ]") (split lf (old +:+ nl +:+ line))
  = List.filter (startsWith "- [ ]") (split lf old)
    ++ (if startsWith "- [ ]" line then [line] else []).
Proof.
  intros Hline. change (nl +:+ line) with (String lf line).
  rewrite split_append, List.filter_app, (split_one lf line Hline). reflexivity.
Qed.

(** X20.  A task without "@", when neither the local model nor a cloud model
    handles it, is written as a plain line: [parseLocalTodos] lists it
    last, and the actionable entries are as before. *)
Theorem addTodo_plain_task_is_listed_not_actionable (task : string) (st : state) :
  initResult = Ok tt ->
  includes "@" task = false ->
  includes (String lf EmptyString) task = false ->
  localUnavailable task ->
  String.eqb currentModel "claude" || String.eqb currentModel "gemini" = false ->
  appendResult (nl +:+ "- [ ] " +:+ task) = Ok tt ->
  result (add task st) = Ok tt /\
  appended (trace (add task st)) = [nl +:+ "- [ ] " +:+ task] /\
  (exists listed,
     result (parseLocalTodos st) = Ok listed /\
     result (parseLocalTodos (final (add task st))) = Ok (listed ++ ["- [ ] " +:+ task])) /\
  result (parseActionableTodos (final (add task st))) = result (parseActionableTodos st).
Proof.
  intros Hinit Hat Hnl Hlocal Hcloud Happend.
  assert (Hrun : exists logs,
            add task st = (Ok tt, Some (contentOf st +:+ nl +:+ "- [ ] " +:+ task), logs) /\
            appended logs = [nl +:+ "- [ ] " +:+ task]).
  { unfold addTodo.
    rewrite Hinit, (action_marker_has_at task Hat), (indexOf_none "@" task Hat).
    unfold bind at 1, lift.
    destruct (addIntelligentTodo_fallback task st Hlocal Hcloud)
      as (logs & logs' & Hl & Hl' & ->).
    rewrite Happend. eexists. split; [reflexivity |].
    unfold appended in *. cbn [app]. rewrite flat_map_app. cbn [flat_map].
    rewrite Hl, Hl'. reflexivity. }
  destruct Hrun as (logs & -> & Hlogs). unfold result, final, trace. cbn [fst snd].
  assert (Hline : includes (String lf EmptyString) ("- [ ] " +:+ task) = false)
    by (rewrite includes_char_append, Hnl; reflexivity).
  repeat split.
  - exact Hlogs.
  - exists (List.filter (startsWith "- [ ]") (split lf (contentOf st))).
    rewrite !parseLocalTodos_run. cbn [fst snd contentOf].
    split; [reflexivity |]. f_equal.
    rewrite (localTodos_append (contentOf st) ("- [ ] " +:+ task) Hline).
    unfold startsWith. change ("- [ ] " +:+ task) with ("- [ ]" +:+ " " +:+ task).
    rewrite prefix_append. reflexivity.
  - rewrite !parseActionableTodos_run. cbn [fst snd contentOf]. f_equal.
    rewrite (actionableIn_append (contentOf st) ("- [ ] " +:+ task)).
    unfold actionableIn at 2. rewrite (split_one lf _ Hline). cbn [flat_map].
    rewrite parseLine_scan, findAction_none.
    + apply app_nil_r.
    + apply action_marker_has_at. rewrite includes_char_append, Hat. reflexivity.
Qed.

(** A line written for a task without "@" and an intent, read back. *)
Lemma intelligent_line_round_trip (task w rest : string) (old : string) :
  includes "@" task = false ->
  includes (String lf EmptyString) task = false ->
  w <> EmptyString -> allb isWordChar w = true -> stops isWordChar rest = true ->
  allb notLineTerminator rest = true ->
  actionableIn (old +:+ nl +:+ "- [ ] " +:+ task +:+ " @action: " +:+ w +:+ rest)
  = actionableIn old ++ [{| task := trim task; verb := w; target := trim rest |}].
Proof.
  intros Hat Hnl Hne Hw Hstop Hline.
  rewrite (actionableIn_append old ("- [ ] " +:+ task +:+ " @action: " +:+ w +:+ rest)).
  f_equal. unfold actionableIn.
  rewrite split_one by (apply written_line_is_one_line; assumption).
  cbn [flat_map]. rewrite (parseLine_written task w rest); try assumption. reflexivity.
Qed.

(** X21.  With a cloud model selected, a task without "@" is written with a
    search intent whose target is the lower-cased task with every run of
    white space replaced by an underscore, and is read back so. *)
Theorem addTodo_cloud_round_trip (task : string) (st : state) :
  initResult = Ok tt ->
  includes "@" task = false ->
  includes (String lf EmptyString) task = false ->
  String.eqb currentModel "claude" || String.eqb currentModel "gemini" = true ->
  appendResult (nl +:+ "- [ ] " +:+ task +:+ " @action: search "
                +:+ underscored false (toLowerCase task)) = Ok tt ->
  result (add task st) = Ok tt /\
  exists before,
    result (parseActionableTodos st) = Ok before /\
    result (parseActionableTodos (final (add task st)))
    = Ok (before ++ [{| task := trim task; verb := "search";
                        target := underscored false (toLowerCase task) |}]).
Proof.
  intros Hinit Hat Hnl Hcloud Happend.
  assert (Hlocal : String.eqb currentModel "local" = false).
  { apply orb_true_iff in Hcloud as [H|H]; apply String.eqb_eq in H; rewrite H; reflexivity. }
  set (u := underscored false (toLowerCase task)) in *.
  assert (Hrun : exists logs,
            add task st
            = (Ok tt, Some (contentOf st +:+ nl +:+ "- [ ] " +:+ task +:+ " @action: search "
                            +:+ u), logs)).
  { unfold addTodo.
    rewrite Hinit, (action_marker_has_at task Hat), (indexOf_none "@" task Hat).
    unfold bind at 1, lift. unfold addIntelligentTodo.
    rewrite Hlocal, Hcloud. cbn [andb]. rewrite bind_emit.
    unfold bind at 1, ret at 1. unfold bind at 1.
    unfold tryCatch. rewrite bind_emit. unfold bind at 1. rewrite appendFile_run.
    fold u. rewrite Happend. eexists. reflexivity. }
  destruct Hrun as (logs & ->). unfold result, final. cbn [fst snd].
  split; [reflexivity |].
  exists (actionableIn (contentOf st)).
  rewrite !parseActionableTodos_run. cbn [fst snd contentOf].
  split; [reflexivity |]. f_equal.
  pose proof (underscored_visible (toLowerCase task) false) as Hu. fold u in Hu.
  change (" @action: search " +:+ u) with (" @action: " +:+ "search" +:+ " " +:+ u).
  rewrite (intelligent_line_round_trip task "search" (" " +:+ u) (contentOf st));
    try assumption; try reflexivity; try discriminate.
  - rewrite trim_space_l, (visible_trim u Hu). reflexivity.
  - cbn [String.append allb]. apply (allb_weaken visible); [apply visible_on_line | exact Hu].
Qed.

(** X22.  With the local model selected and answering with an action, a task
    without "@" is written with the verb and target that
    [parseNaturalLanguageTodo] extracted, and [parseActionableTodos]
    reads the same verb and target back. *)
Theorem addTodo_local_round_trip (task v t : string) (st : state) :
  initResult = Ok tt ->
  includes "@" task = false ->
  includes (String lf EmptyString) task = false ->
  String.eqb currentModel "local" && hasLocalModel = true ->
  result (parseNaturalLanguageTodo runLocalAI task st) = Ok (v, t) ->
  appendResult (nl +:+ "- [ ] " +:+ task +:+ " @action: " +:+ v +:+ " " +:+ t) = Ok tt ->
  result (add task st) = Ok tt /\
  exists before,
    result (parseActionableTodos st) = Ok before /\
    result (parseActionableTodos (final (add task st)))
    = Ok (before ++ [{| task := trim task; verb := v; target := t |}]).
Proof.
  intros Hinit Hat Hnl Hlocal Hparsed Happend.
  pose proof (parseNaturalLanguageTodo_run task st) as Hp.
  assert (Hfound : exists d, parseNaturalLanguageTodo runLocalAI task st = (Ok (v, t), st, [])
                             /\ t = trim d /\ v <> EmptyString
                             /\ allb isWordChar v = true
                             /\ allb notLineTerminator d = true).
  { rewrite Hp in Hparsed |- *. destruct (runLocalAI task) as [response|e]; [| discriminate].
    destruct (findAction response) as [[w d]|] eqn:E; [| discriminate].
    unfold result in Hparsed. cbn [fst] in Hparsed. injection Hparsed as <- <-.
    destruct (findAction_inv _ _ _ E) as (Hne & Hw & Hd).
    exists d. repeat split; assumption. }
  destruct Hfound as (d & Hrun & -> & Hne & Hw & Hd).
  assert (Hadd : exists logs,
            add task st
            = (Ok tt, Some (contentOf st +:+ nl +:+ "- [ ] " +:+ task +:+ " @action: "
                            +:+ v +:+ " " +:+ trim d), logs)).
  { unfold addTodo.
    rewrite Hinit, (action_marker_has_at task Hat), (indexOf_none "@" task Hat).
    unfold bind at 1, lift. unfold addIntelligentTodo. rewrite Hlocal, bind_emit.
    unfold bind at 1. unfold tryCatch at 1. rewrite bind_emit. unfold bind at 1.
    rewrite Hrun.
    cbn [fst snd]. rewrite bind_emit. unfold bind at 1. rewrite appendFile_run, Happend.
    eexists. reflexivity. }
  destruct Hadd as (logs & ->). unfold result, final. cbn [fst snd].
  split; [reflexivity |].
  exists (actionableIn (contentOf st)).
  rewrite !parseActionableTodos_run. cbn [fst snd contentOf].
  split; [reflexivity |]. f_equal.
  rewrite (intelligent_line_round_trip task v (" " +:+ trim d) (contentOf st));
    try assumption; try reflexivity.
  - rewrite trim_space_l, trim_idempotent. reflexivity.
  - cbn [String.append allb]. apply allb_trim, Hd.
Qed.

(** A block of [addTodo] or [addIntelligentTodo] leaves the file as it
    was or with one more line. *)
Definition oneLineMore (st : state) (r : outcome string unit * state * list event) : Prop :=
  result r = Ok tt /\
  (final r = st \/
   exists body,
     In (nl +:+ "- [ ] " +:+ body) (appended (trace r)) /\
     final r = Some (contentOf st +:+ nl +:+ "- [ ] " +:+ body)).

Lemma appended_app (a b : list event) : appended (a ++ b) = appended a ++ appended b.
Proof. unfold appended. apply flat_map_app. Qed.

Lemma addIntelligentTodo_one_line (task : string) (st : state) :
  oneLineMore st (addIntelligent task st).
Proof.
  unfold addIntelligentTodo. rewrite bind_emit.
  (* the final fallback *)
  assert (Hfinal : forall s0 : state,
    exists t,
      tryCatch
        (bind (appendFile appendResult (nl +:+ "- [ ] " +:+ task))
           (fun _ => bind (emit (Log ("Added task: " +:+ quoted task)))
                       (fun _ => emit (Log "Add @action: for automatic execution"))))
        (fun message => emit (ErrorLog ("Error adding task: " +:+ message))) s0
      = (Ok tt, match appendResult (nl +:+ "- [ ] " +:+ task) with
                | Ok _ => Some (contentOf s0 +:+ nl +:+ "- [ ] " +:+ task)
                | Throw _ => s0
                end, AppendFile (nl +:+ "- [ ] " +:+ task) :: t)).
  { intros s0. erewrite guarded_append_run by (intros s1; reflexivity).
    match goal with |- context [appendResult ?x] => destruct (appendResult x) as [[]|e] end;
      eexists; reflexivity. }
  (* the cloud block *)
  assert (Hcloud : forall s0 : state,
    exists t (done : bool),
      (if String.eqb currentModel "claude" || String.eqb currentModel "gemini" then
         tryCatch
           (bind (emit (Log ("Processing with " +:+ toUpperCase currentModel +:+ "...")))
              (fun _ =>
               bind (appendFile appendResult
                       (nl +:+ "- [ ] " +:+ task +:+ " @action: search "
                        +:+ underscored false (toLowerCase task)))
                 (fun _ =>
                  bind (emit (Log ("Added task: " +:+ quoted task)))
                    (fun _ =>
                     bind (emit (Log ("   Processed with " +:+ toUpperCase currentModel)))
                       (fun _ => ret true)))))
           (fun _ => bind (emit (Log "Cloud AI failed, adding as manual task..."))
                       (fun _ => ret false))
       else ret false) s0
      = (Ok done,
         if done then Some (contentOf s0 +:+ nl +:+ "- [ ] "
                            +:+ (task +:+ " @action: search "
                                 +:+ underscored false (toLowerCase task)))
         else s0, t) /\
      (done = true ->
       In (nl +:+ "- [ ] " +:+ (task +:+ " @action: search "
                                +:+ underscored false (toLowerCase task))) (appended t))).
  { intros s0.
    destruct (String.eqb currentModel "claude" || String.eqb currentModel "gemini").
    2:{ exists [], false. split; [reflexivity | discriminate]. }
    unfold tryCatch. rewrite bind_emit. unfold bind at 1. rewrite appendFile_run.
    match goal with |- context [appendResult ?x] => destruct (appendResult x) as [[]|e] end.
    - eexists _, true. split; [reflexivity |]. intros _.
      unfold appended. cbn [flat_map app In]. left. reflexivity.
    - eexists _, false. split; [reflexivity | discriminate]. }
  (* the local block *)
  assert (Hlocal : forall s0 : state,
    exists t (done : bool) body,
      (if String.eqb currentModel "local" && hasLocalModel then
         tryCatch
           (bind (emit (Log "Processing with local AI..."))
              (fun _ =>
            bind (parseNaturalLanguageTodo runLocalAI task)
              (fun parsed =>
               bind (emit (Log "Local AI processed successfully"))
                 (fun _ =>
                  bind (appendFile appendResult
                          (nl +:+ "- [ ] " +:+ task +:+ " @action: " +:+ fst parsed
                           +:+ " " +:+ snd parsed))
                    (fun _ =>
                     bind (emit (Log ("Added intelligent task: " +:+ quoted task)))
                       (fun _ =>
                        bind (emit (Log ("   AI suggested: @action: " +:+ fst parsed
                                         +:+ " " +:+ snd parsed)))
                          (fun _ => ret true)))))))
           (fun _ => bind (emit (Log "Local AI failed, trying cloud..."))
                       (fun _ => ret false))
       else ret false) s0
      = (Ok done,
         if done then Some (contentOf s0 +:+ nl +:+ "- [ ] " +:+ body) else s0, t) /\
      (done = true -> In (nl +:+ "- [ ] " +:+ body) (appended t)) /\
      (done = false -> appended t = [] \/ True)).
  { intros s0. destruct (String.eqb currentModel "local" && hasLocalModel).
    2:{ exists [], false, EmptyString. repeat split; try discriminate. left; reflexivity. }
    unfold tryCatch. rewrite bind_emit. unfold bind at 1.
    rewrite parseNaturalLanguageTodo_run.
    destruct (runLocalAI task) as [response|e].
    2:{ eexists _, false, EmptyString. repeat split; try discriminate. right; exact I. }
    destruct (findAction response) as [[w d]|].
    2:{ eexists _, false, EmptyString. repeat split; try discriminate. right; exact I. }
    cbn [fst snd]. rewrite bind_emit. unfold bind at 1. rewrite appendFile_run.
    match goal with |- context [appendResult ?x] => destruct (appendResult x) as [[]|e] end.
    - eexists _, true, _. split; [reflexivity |]. split; [| discriminate].
      intros _. unfold appended. cbn [flat_map app In]. left. reflexivity.
    - eexists _, false, EmptyString. repeat split; try discriminate. right; exact I. }
  unfold bind at 1.
  destruct (Hlocal st) as (t1 & done1 & body1 & -> & Hin1 & _).
  destruct done1.
  { unfold ret. cbv beta iota zeta. unfold oneLineMore, result, final, trace. cbn [fst snd].
    split; [reflexivity |]. right. exists body1. split; [| reflexivity].
    change (Log ("Analyzing: " +:+ quoted task) :: t1 ++ [])
      with ([Log ("Analyzing: " +:+ quoted task)] ++ t1 ++ []).
    rewrite !appended_app. apply in_or_app. right. apply in_or_app. left.
    apply (Hin1 eq_refl). }
  unfold bind at 1.
  destruct (Hcloud st) as (t2 & done2 & -> & Hin2).
  destruct done2.
  { unfold ret. cbv beta iota zeta. unfold oneLineMore, result, final, trace. cbn [fst snd].
    split; [reflexivity |]. right. eexists. split; [| reflexivity].
    change (Log ("Analyzing: " +:+ quoted task) :: t1 ++ t2 ++ [])
      with ([Log ("Analyzing: " +:+ quoted task)] ++ t1 ++ t2 ++ []).
    rewrite !appended_app. apply in_or_app. right. apply in_or_app. right.
    apply in_or_app. left. apply (Hin2 eq_refl). }
  destruct (Hfinal st) as (t3 & ->).
  cbv beta iota zeta. unfold oneLineMore, result, final, trace. cbn [fst snd].
  split; [reflexivity |].
  destruct (appendResult (nl +:+ "- [ ] " +:+ task)) as [[]|e]; [right | left; reflexivity].
  exists task. split; [| reflexivity].
  change (Log ("Analyzing: " +:+ quoted task)
          :: t1 ++ t2 ++ AppendFile (nl +:+ "- [ ] " +:+ task) :: t3)
    with ([Log ("Analyzing: " +:+ quoted task)]
          ++ t1 ++ t2 ++ [AppendFile (nl +:+ "- [ ] " +:+ task)] ++ t3).
  rewrite !appended_app. apply in_or_app. right. apply in_or_app. right.
  apply in_or_app. right. apply in_or_app. left. left. reflexivity.
Qed.

Lemma addTodo_one_line (task : string) (st : state) :
  initResult = Ok tt -> oneLineMore st (add task st).
Proof.
  intros Hinit. unfold addTodo. rewrite Hinit. unfold bind at 1, lift.
  assert (Hguard : forall (body : string) (k : T unit) (logs : list event),
    (forall s0, k s0 = (Ok tt, s0, logs)) ->
    oneLineMore st
      (let (p, t2) :=
         tryCatch (bind (appendFile appendResult (nl +:+ "- [ ] " +:+ body)) (fun _ => k))
           (fun message => emit (ErrorLog ("Error adding task: " +:+ message))) st in
       let (r, s2) := p in (r, s2, [] ++ t2))).
  { intros body k logs Hk. rewrite (guarded_append_run _ k logs st Hk).
    unfold oneLineMore, result, final, trace.
    destruct (appendResult (nl +:+ "- [ ] " +:+ body)) as [[]|e]; cbn [fst snd app];
      (split; [reflexivity |]); [right | left; reflexivity].
    exists body. split; [left; reflexivity | reflexivity]. }
  destruct (includes "@action:" task).
  { apply (Hguard task _ [Log ("Added structured task: " +:+ quoted task)]).
    intros s0. reflexivity. }
  destruct (indexOf "@" task) as [actionIndex|].
  { apply (Hguard (trim (take actionIndex task) +:+ " @action: "
                   +:+ trim (substring (actionIndex + 1) task)) _
             [Log ("Added task: " +:+ quoted (trim (take actionIndex task)));
              Log ("   With intent: @" +:+ trim (substring (actionIndex + 1) task))]).
    intros s0. reflexivity. }
  pose proof (addIntelligentTodo_one_line task st) as H.
  destruct (addIntelligent task st) as [[r s2] t2]. exact H.
Qed.

(** X23.  [addTodo] throws only what [init] throws.  Otherwise it returns
    normally, even when the file cannot be written, and the file is as
    before or has one more line that starts with the open checkbox: what
    [parseLocalTodos] listed before is still listed, in the same order,
    before anything new. *)
Theorem addTodo_appends_at_most_one_line (task : string) (st : state) :
  match initResult with
  | Throw e => add task st = (Throw e, st, [])
  | Ok _ =>
      result (add task st) = Ok tt /\
      (final (add task st) = st \/
       exists body,
         In (nl +:+ "- [ ] " +:+ body) (appended (trace (add task st))) /\
         final (add task st) = Some (contentOf st +:+ nl +:+ "- [ ] " +:+ body)) /\
      exists listed extra,
        result (parseLocalTodos st) = Ok listed /\
        result (parseLocalTodos (final (add task st))) = Ok (listed ++ extra)
  end.
Proof.
  assert (Hthrow : forall e, initResult = Throw e -> add task st = (Throw e, st, [])).
  { intros e Hinit. unfold addTodo. rewrite Hinit. reflexivity. }
  assert (Hreturn : initResult = Ok tt ->
    result (add task st) = Ok tt /\
    (final (add task st) = st \/
     exists body,
       In (nl +:+ "- [ ] " +:+ body) (appended (trace (add task st))) /\
       final (add task st) = Some (contentOf st +:+ nl +:+ "- [ ] " +:+ body)) /\
    exists listed extra,
      result (parseLocalTodos st) = Ok listed /\
      result (parseLocalTodos (final (add task st))) = Ok (listed ++ extra)).
  { intros Hinit. destruct (addTodo_one_line task st Hinit) as [Hok Hfinal].
    split; [exact Hok |]. split; [exact Hfinal |].
    exists (List.filter (startsWith "- [ ]") (split lf (contentOf st))).
    rewrite !parseLocalTodos_run. unfold result at 1 2. cbn [fst snd].
    destruct Hfinal as [-> | (body & _ & ->)].
    - exists []. rewrite app_nil_r. split; reflexivity.
    - eexists. split; [reflexivity |]. f_equal. cbn [contentOf].
      change (nl +:+ "- [ ] " +:+ body) with (String lf ("- [ ] " +:+ body)).
      rewrite split_append, List.filter_app. reflexivity. }
  destruct initResult as [[]|e]; [exact (Hreturn eq_refl) | exact (Hthrow e eq_refl)].
Qed.

End WithEnvironment.

(** A todo file with one plain task. *)
Definition oneTask : state := Some "- [ ] water the plants".


Lemma addTodo_plain_task_is_listed_not_actionable_witness :
  let r := addTodo (Ok tt) (fun _ => Ok tt) "local" true (fun _ => Throw "no model") id
             "buy milk" oneTask in
  result r = Ok tt /\
  appended (trace r) = [nl +:+ "- [ ] " +:+ "buy milk"] /\
  (exists listed,
     result (parseLocalTodos oneTask) = Ok listed /\
     result (parseLocalTodos (final r)) = Ok (listed ++ ["- [ ] " +:+ "buy milk"])) /\
  result (parseActionableTodos (final r)) = result (parseActionableTodos oneTask).
Proof.
  apply (addTodo_plain_task_is_listed_not_actionable (Ok tt) (fun _ => Ok tt) "local" true
           (fun _ => Throw "no model") id "buy milk" oneTask); try reflexivity.
  intros _. exact I.
Defined.

Lemma addTodo_cloud_round_trip_witness :
  let r := addTodo (Ok tt) (fun _ => Ok tt) "gemini" false (fun _ => Throw "unused") id
             "Buy  oat Milk" oneTask in
  result r = Ok tt /\
  exists before,
    result (parseActionableTodos oneTask) = Ok before /\
    result (parseActionableTodos (final r))
    = Ok (before ++ [{| task := trim "Buy  oat Milk"; verb := "search";
                        target := underscored false (toLowerCase "Buy  oat Milk") |}]).
Proof.
  apply (addTodo_cloud_round_trip (Ok tt) (fun _ => Ok tt) "gemini" false
           (fun _ => Throw "unused") id "Buy  oat Milk" oneTask); reflexivity.
Defined.

Lemma addTodo_local_round_trip_witness :
  let r := addTodo (Ok tt) (fun _ => Ok tt) "local" true
             (fun _ => Ok "@action: open  budget.xlsx ") id "open the budget" oneTask in
  result r = Ok tt /\
  exists before,
    result (parseActionableTodos oneTask) = Ok before /\
    result (parseActionableTodos (final r))
    = Ok (before ++ [{| task := trim "open the budget"; verb := "open";
                        target := "budget.xlsx" |}]).
Proof.
  apply (addTodo_local_round_trip (Ok tt) (fun _ => Ok tt) "local" true
           (fun _ => Ok "@action: open  budget.xlsx ") id "open the budget" "open"
           "budget.xlsx" oneTask); reflexivity.
Defined.

End TodosFacts.

(** ** Learning from a successful tool run ([logSuccess]) *)

Module AppSuccess.
Import JsString Regex Eff AppMap.
Local Open Scope eff_scope.

Definition notQuote (c : ascii) : bool := negb (Ascii.eqb c (ascii_of_nat 34)).

(** The pattern of [logSuccess]: the text -a, a blank, a double quote,
    one or more code units other than a double quote (group 1), a double
    quote. *)
Definition openArgRe : regex :=
  Seq (lit ("-a " +:+ dquote)) (Seq (Group 1 (plus true (Chr notQuote))) (lit dquote)).

Definition withSuccessful (st : state) (table : gmap string (gmap string string)) : state :=
  {| appMappings := appMappings st;
     successful_mappings := Some table;
     failed_attempts := failed_attempts st |}.

Section WithEnvironment.
Variable osPlatform : string.                              (* os.platform() *)

(** [parameters.target] is [None] when the property is missing. *)
Definition logSuccess (toolName : string) (target : option string) (command : string)
  : A unit :=
  tryCatch
    (do st <- get ;
     (match successful_mappings st with
      | Some _ => ret tt
      | None => put (withSuccessful st ∅)
      end) ;;
     (* For application opening, learn the successful mapping *)
     match target with
     | Some t =>
         if String.eqb toolName "open_application" && truthy t then
           let appLower := toLowerCase t in
           let platform := osPlatform in
           do st <- get ;
           match successful_mappings st with
           | None => throw "Cannot read properties of undefined"
           | Some table =>
               (match table !! appLower with
                | Some _ => ret tt
                | None => put (withSuccessful st (<[appLower := ∅]> table))
                end) ;;
               (* Extract the actual app name that worked *)
               if String.eqb platform "darwin" && includes ("-a " +:+ dquote) command then
                 match exec openArgRe command with
                 | Some m =>
                     let name := Todos.group 1 m in
                     do st <- get ;
                     match successful_mappings st with
                     | None => throw "Cannot read properties of undefined"
                     | Some table =>
                         put (withSuccessful st
                                (<[appLower := <[platform := name]>
                                                 (default ∅ (table !! appLower))]> table)) ;;
                         emit (Log ("Learned: " +:+ appLower +:+ " -> " +:+ name +:+ " on "
                                    +:+ platform)) ;;
                         saveAppMappings
                     end
                 | None => ret tt
                 end
               else ret tt
           end
         else ret tt
     | None => ret tt
     end)
    (fun _ => ret tt).   (* Fail silently for logging errors *)

End WithEnvironment.

End AppSuccess.

(** ** Properties of [logSuccess] *)

Module AppSuccessFacts.
Import JsString JsStringFacts JsStringMore Regex RegexMore Eff AppMap AppMapMore AppSuccess.

(** A pattern that starts with a literal cannot match where the
    literal's first code unit is absent. *)
Lemma slide_lit_skip (c : ascii) (w : string) (r : regex) (b : string) : forall a p,
  includes (String c EmptyString) a = false ->
  slide (Seq (lit (String c w)) r) p (a +:+ b)
  = slide (Seq (lit (String c w)) r) (lastOf p a) b.
Proof.
  induction a as [|d a IH]; intros p Ha; [reflexivity |].
  rewrite includes_char_cons in Ha. apply orb_false_iff in Ha as [Hd Ha].
  change (String d a +:+ b) with (String d (a +:+ b)).
  rewrite TodosFacts.slide_unfold, TodosFacts.run_seq, run_lit.
  rewrite (TodosFacts.prefix_at_other c d w (a +:+ b) Hd). cbn [orElse lastOf].
  apply IH, Ha.
Qed.

(** The pattern gives back the name that [getApplicationCommand] quoted. *)
Lemma exec_openArgRe (name : string) :
  name <> EmptyString -> allb notQuote name = true ->
  exists pv r,
    exec openArgRe ("open -a " +:+ quoted name) = Some (MState pv r [(1, name)]).
Proof.
  intros Hne Hall. unfold exec, openArgRe, quoted.
  change ("open -a " +:+ dquote +:+ name +:+ dquote)
    with ("open " +:+ (("-a " +:+ dquote) +:+ (name +:+ dquote))).
  change (lit ("-a " +:+ dquote)) with (lit (String "-" ("a " +:+ dquote))).
  rewrite (slide_lit_skip "-" ("a " +:+ dquote) _ _ "open " None eq_refl).
  change (lit (String "-" ("a " +:+ dquote))) with (lit ("-a " +:+ dquote)).
  rewrite TodosFacts.slide_unfold, TodosFacts.run_seq, run_lit.
  rewrite (prefix_append ("-a " +:+ dquote) (name +:+ dquote)).
  rewrite (ActionsFacts.substring_append ("-a " +:+ dquote) (name +:+ dquote)).
  rewrite TodosFacts.run_seq, TodosFacts.run_group. unfold plus.
  rewrite TodosFacts.run_seq, run_chr.
  destruct name as [|c n]; [contradiction |].
  cbn [allb] in Hall. apply andb_true_iff in Hall as [Hc Hn].
  change (String c n +:+ dquote) with (String c (n +:+ dquote)) at 1.
  cbv beta iota. rewrite Hc.
  rewrite (run_star_class notQuote _ n (Some c) dquote [] Hn eq_refl).
  erewrite backtrack_longest.
  - cbn [orElse]. eexists _, _. reflexivity.
  - cbn [prev rest caps]. rewrite run_lit. cbn [String.prefix].
    change (String c (n +:+ dquote)) with (String c n +:+ dquote).
    rewrite consumed_append. reflexivity.
Qed.

Lemma withSuccessful_same (st : state) (table : gmap string (gmap string string)) :
  successful_mappings st = Some table -> withSuccessful st table = st.
Proof. destruct st as [a s f]. cbn. intros ->. reflexivity. Qed.

(** The table after [logSuccess] made sure that [successful_mappings]
    and its entry for the application exist. *)
Definition prepared (st : state) (appLower : string) : gmap string (gmap string string) :=
  let table := default ∅ (successful_mappings st) in
  match table !! appLower with
  | Some _ => table
  | None => <[appLower := ∅]> table
  end.

Section WithEnvironment.
Variable osPlatform : string.

(** [logSuccess] for a successful [open_application] with a target. *)
Lemma logSuccess_open (t command : string) (st : state) :
  truthy t = true ->
  logSuccess osPlatform "open_application" (Some t) command st
  = let table := prepared st (toLowerCase t) in
    match
      (if String.eqb osPlatform "darwin" && includes ("-a " +:+ dquote) command
       then exec openArgRe command else None)
    with
    | Some m =>
        (Ok tt,
         withSuccessful st
           (<[toLowerCase t := <[osPlatform := Todos.group 1 m]>
                                 (default ∅ (table !! toLowerCase t))]> table),
         [Log ("Learned: " +:+ toLowerCase t +:+ " -> " +:+ Todos.group 1 m +:+ " on "
               +:+ osPlatform); Save])
    | None => (Ok tt, withSuccessful st table, [])
    end.
Proof.
  intros Ht. unfold logSuccess, prepared.
  change (String.eqb "open_application" "open_application") with true.
  rewrite Ht. cbn [andb].
  unfold tryCatch, saveAppMappings, bind, get, put, ret, emit, throw.
  cbv beta iota zeta.
  destruct (successful_mappings st) as [table|] eqn:Hsm;
    cbv beta iota zeta delta [default from_option id];
    cbn [appMappings successful_mappings failed_attempts withSuccessful];
    rewrite ?Hsm; cbv beta iota zeta.
  - destruct (table !! toLowerCase t) as [inner|] eqn:Hin; cbv beta iota zeta;
      cbn [appMappings successful_mappings failed_attempts withSuccessful];
      rewrite ?Hsm; cbv beta iota zeta;
      (destruct (String.eqb osPlatform "darwin" && includes ("-a " +:+ dquote) command);
       [destruct (exec openArgRe command) as [m|] |]);
      cbv beta iota zeta;
      cbn [appMappings successful_mappings failed_attempts withSuccessful];
      rewrite ?Hsm; try reflexivity;
      rewrite <- (withSuccessful_same st table Hsm) at 1; reflexivity.
  - change ((∅ : gmap string (gmap string string)) !! toLowerCase t) with (@None (gmap string string)).
    cbv beta iota zeta.
    cbn [appMappings successful_mappings failed_attempts withSuccessful].
    (destruct (String.eqb osPlatform "darwin" && includes ("-a " +:+ dquote) command);
     [destruct (exec openArgRe command) as [m|] |]);
      cbv beta iota zeta;
      cbn [appMappings successful_mappings failed_attempts withSuccessful];
      reflexivity.
Qed.

(** [logSuccess] for any other call only makes sure that
    [successful_mappings] exists. *)
Lemma logSuccess_other (toolName : string) (target : option string) (command : string)
  (st : state) :
  match target with
  | Some t => String.eqb toolName "open_application" && truthy t = false
  | None => True
  end ->
  logSuccess osPlatform toolName target command st
  = (Ok tt, withSuccessful st (default ∅ (successful_mappings st)), []).
Proof.
  intros H. unfold logSuccess, tryCatch, bind, get, put, ret.
  cbv beta iota zeta.
  destruct (successful_mappings st) as [table|] eqn:Hsm;
    cbv beta iota zeta delta [default from_option id];
    (destruct target as [t|]; [rewrite H |]); cbv beta iota zeta;
    try reflexivity;
    rewrite <- (withSuccessful_same st table Hsm) at 1; reflexivity.
Qed.

Lemma learnedFor_prepared (st : state) (appLower a p : string) :
  learnedFor (withSuccessful st (prepared st appLower)) a p = learnedFor st a p.
Proof.
  unfold learnedFor, prepared, withSuccessful. cbn [successful_mappings].
  destruct (successful_mappings st) as [table|];
    cbv beta iota zeta delta [default from_option id].
  - destruct (table !! appLower) as [inner|] eqn:Hin; [reflexivity |].
    unfold entry. destruct (decide (appLower = a)) as [->|Hne].
    + rewrite lookup_insert_eq, Hin. reflexivity.
    + rewrite lookup_insert_ne by exact Hne. reflexivity.
  - change ((∅ : gmap string (gmap string string)) !! appLower)
      with (@None (gmap string string)).
    cbv beta iota. unfold entry. destruct (decide (appLower = a)) as [->|Hne].
    + rewrite lookup_insert_eq. reflexivity.
    + rewrite lookup_insert_ne by exact Hne. reflexivity.
Qed.


(** X25.  On macOS a successful open of [t] by the command that
    [getApplicationCommand] built records, for the lower-cased [t], the
    name the command quoted (the mapped or learned name, or [t] itself),
    and saves; the lookup of [t] answers afterwards as it did. *)
Theorem logSuccess_learns_the_opened_name (t name : string) (st : state) :
  osPlatform = "darwin" ->
  truthy t = true ->
  name <> EmptyString -> allb notQuote name = true ->
  commandOf st "darwin" t = "open -a " +:+ quoted name ->
  result (logSuccess osPlatform "open_application" (Some t) (commandOf st "darwin" t) st)
  = Ok tt /\
  learnedFor
    (final (logSuccess osPlatform "open_application" (Some t) (commandOf st "darwin" t) st))
    (toLowerCase t) "darwin" = Some name /\
  In Save (trace (logSuccess osPlatform "open_application" (Some t)
                    (commandOf st "darwin" t) st)) /\
  commandOf
    (final (logSuccess osPlatform "open_application" (Some t) (commandOf st "darwin" t) st))
    "darwin" t = commandOf st "darwin" t.
Proof.
  intros Hos Ht Hne Hall Hcmd.
  rewrite (logSuccess_open t (commandOf st "darwin" t) st Ht). cbv zeta.
  pose proof Hos as osPlatform_eq.
  replace (String.eqb osPlatform "darwin") with true by (rewrite Hos; reflexivity).
  cbn [andb].
  assert (Hinc : includes ("-a " +:+ dquote) (commandOf st "darwin" t) = true).
  { rewrite Hcmd. unfold quoted.
    change ("open -a " +:+ dquote +:+ name +:+ dquote)
      with ("open " +:+ ("-a " +:+ dquote) +:+ (name +:+ dquote)).
    apply includes_append. }
  rewrite Hinc.
  destruct (exec_openArgRe name Hne Hall) as (pv & r & Hexec).
  rewrite <- Hcmd in Hexec. rewrite Hexec. rewrite osPlatform_eq.
  unfold result, final, trace. cbn [fst snd].
  change (Todos.group 1 (MState pv r [(1, name)])) with name.
  assert (Htruthy : truthy name = true) by (destruct name; [contradiction | reflexivity]).
  set (st' := withSuccessful st _).
  assert (Hlearned : learnedFor st' (toLowerCase t) "darwin" = Some name).
  { unfold learnedFor, entry. subst st'. cbn [successful_mappings withSuccessful].
    rewrite !lookup_insert_eq, Htruthy. reflexivity. }
  split; [reflexivity |]. split; [exact Hlearned |]. split; [right; left; reflexivity |].
  destruct (entry (appMappings st) (toLowerCase t) "darwin") as [mapped|] eqn:Hstatic.
  - rewrite (commandOf_mapped st' "darwin" t mapped) by exact Hstatic.
    rewrite (commandOf_mapped st "darwin" t mapped Hstatic). reflexivity.
  - rewrite (commandOf_learned st' "darwin" t name) by assumption.
    rewrite Hcmd. reflexivity.
Qed.

End WithEnvironment.


Lemma logSuccess_learns_the_opened_name_witness :
  let r := logSuccess "darwin" "open_application" (Some "Safari")
             (commandOf unloaded "darwin" "Safari") unloaded in
  result r = Ok tt /\
  learnedFor (final r) (toLowerCase "Safari") "darwin" = Some "Safari" /\
  In Save (trace r) /\
  commandOf (final r) "darwin" "Safari" = commandOf unloaded "darwin" "Safari".
Proof.
  apply (logSuccess_learns_the_opened_name "darwin" "Safari" "Safari" unloaded);
    try reflexivity.
  discriminate.
Defined.

End AppSuccessFacts.

(** ** File names for generated content ([generateFilename]) *)

Module Content.
Import JsString.

(** The class [a-z0-9\s]: what the first replacement keeps. *)
Definition keptInTopic (c : ascii) : bool :=
  let n := code c in
  ((97 <=? n) && (n <=? 122)) || ((48 <=? n) && (n <=? 57)) || isWhiteSpace c.

(** [s.replace(/[^...]/g, '')] for the class [keep]. *)
Fixpoint keepOnly (keep : ascii -> bool) (s : string) : string :=
  match s with
  | EmptyString => EmptyString
  | String c s' => if keep c then String c (keepOnly keep s') else keepOnly keep s'
  end.

Definition sanitizedTopic (topic : string) : string :=
  take 30 (Todos.underscored false (keepOnly keptInTopic (toLowerCase topic))).

Section WithEnvironment.
Variable isoNow : string.                                  (* new Date().toISOString() *)
Variable cwd : string.                                     (* process.cwd() *)
Variable pathResolve : string -> string -> string.         (* path.resolve *)

Definition extensionOf (type : string) : string :=
  if String.eqb type "post" || String.eqb type "article" then "md" else "txt".

Definition generateFilename (type topic : string) : string :=
  let timestamp := hd EmptyString (split "T" isoNow) in
  (* Use current working directory or a documents folder *)
  let filename := sanitizedTopic topic +:+ "_" +:+ timestamp +:+ "." +:+ extensionOf type in
  pathResolve cwd filename.

End WithEnvironment.

End Content.

(** ** Properties of [generateFilename] *)

Module ContentFacts.
Import JsString RegexMore Content.

(** Lower-case ASCII letters, digits and the underscore. *)
Definition plain (c : ascii) : bool :=
  let n := code c in
  ((97 <=? n) && (n <=? 122)) || ((48 <=? n) && (n <=? 57)) || (n =? 95).

Lemma keptInTopic_plain (c : ascii) :
  keptInTopic c = true -> isWhiteSpace c = false -> plain c = true.
Proof.
  unfold keptInTopic, plain. intros H Hw. rewrite Hw, orb_false_r in H.
  rewrite H. reflexivity.
Qed.

Lemma keepOnly_allb (keep : ascii -> bool) (s : string) : allb keep (keepOnly keep s) = true.
Proof.
  induction s as [|c s IH]; [reflexivity |]. cbn [keepOnly].
  destruct (keep c) eqn:E; [cbn [allb]; rewrite E |]; exact IH.
Qed.

Lemma underscored_plain : forall (s : string) (inRun : bool),
  allb keptInTopic s = true -> allb plain (Todos.underscored inRun s) = true.
Proof.
  induction s as [|c s IH]; intros inRun H; [reflexivity |].
  cbn [allb] in H. apply andb_true_iff in H as [Hc H]. cbn [Todos.underscored].
  destruct (isWhiteSpace c) eqn:Hw.
  - destruct inRun; [apply IH, H |]. cbn [allb]. rewrite (IH true H). reflexivity.
  - cbn [allb]. rewrite (keptInTopic_plain c Hc Hw), (IH false H). reflexivity.
Qed.

Lemma take_allb (p : ascii -> bool) : forall (n : nat) (s : string),
  allb p s = true -> allb p (take n s) = true.
Proof.
  induction n as [|n IH]; intros s H; [destruct s; reflexivity |].
  destruct s as [|c s]; [reflexivity |].
  cbn [allb] in H. apply andb_true_iff in H as [Hc H].
  cbn [take allb]. rewrite Hc, (IH s H). reflexivity.
Qed.

Lemma take_length : forall (n : nat) (s : string), String.length (take n s) <= n.
Proof.
  induction n as [|n IH]; intros s; [destruct s; cbn; lia |].
  destruct s as [|c s]; cbn; [lia |]. specialize (IH s). lia.
Qed.

(** X26.  Whatever the topic, the part of the file name made from it is at
    most 30 code units of lower-case ASCII letters, digits and
    underscores: no separator, dot or blank of the topic reaches the
    file name. *)
Theorem sanitizedTopic_is_plain (topic : string) :
  allb plain (sanitizedTopic topic) = true /\
  String.length (sanitizedTopic topic) <= 30 /\
  includes "/" (sanitizedTopic topic) = false /\
  includes "." (sanitizedTopic topic) = false.
Proof.
  assert (H : allb plain (sanitizedTopic topic) = true).
  { unfold sanitizedTopic. apply take_allb, underscored_plain, keepOnly_allb. }
  split; [exact H |]. split; [apply take_length |].
  split; apply (TodosFacts.allb_no_char plain); try exact H; reflexivity.
Qed.

End ContentFacts.

(** ** Conversational input ([handleConversation],
       [runLocalAIForConversation], [getEnhancedConversationalResponse]) *)

Module Conversation.
Import JsString Regex Eff LocalModel LocalModelTools.
Local Open Scope eff_scope.

Definition bounded (w : string) (wl : list string) : regex :=
  Seq WordB (Seq (Group 1 (words w wl)) WordB).

Definition getEnhancedConversationalResponse (input : string) : string :=
  let lower := toLowerCase input in
  (* Greetings *)
  if test (bounded "hi" ["hello"; "hey"]) lower then
    "Hello! I'm C9AI, your AI productivity assistant. I can help you with tasks, answer questions, or just chat. What would you like to talk about?"
  (* Questions about the AI *)
  else if test (bounded "who are you" ["what are you"]) lower then
    "I'm C9AI, an AI assistant designed to help with productivity tasks and natural conversation. I can execute commands, manage your workflow, and chat about various topics!"
  (* Capability questions *)
  else if test (bounded "what can you do" ["capabilities"; "help"]) lower then
    "I can help with many things! I can open applications, manage files, check system status, search the web, handle GitHub issues, and have conversations. I also learn from our interactions to get better over time. What interests you?"
  (* General conversation starters: will you ... converse, or chat, or talk *)
  else if test (Alt (Seq (lit "will you") (Seq (Star true dot) (lit "converse")))
                  (Alt (lit "chat") (lit "talk"))) lower then
    "Absolutely! I'd be happy to chat with you. I enjoy conversations about technology, productivity, problem-solving, or really anything you're curious about. What's on your mind?"
  (* Questions about feelings/thoughts *)
  else if test (bounded "think" ["feel"; "opinion"]) lower then
    "That's an interesting question! I do process information and can share perspectives, though I'm not sure if what I experience is quite like human thinking. What made you curious about that?"
  (* Thank you *)
  else if test (bounded "thanks" ["thank you"]) lower then
    "You're very welcome! I'm glad I could help. Is there anything else you'd like to discuss or explore?"
  (* Goodbye *)
  else if test (bounded "bye" ["goodbye"; "see you"]) lower then
    "Goodbye! It was nice chatting with you. Feel free to come back anytime if you want to talk or need help with something!"
  (* Default conversational response *)
  else
    "That's interesting to think about! I'm always curious to learn more about different perspectives. Could you tell me more about what you're thinking, or is there something specific you'd like to explore together?".

Definition simpleResponses : list string := [
  "That's an interesting thought! I'd love to chat more about that.";
  "I find that fascinating! What made you think about that?";
  "Great question! I enjoy having conversations like this.";
  "I appreciate you sharing that with me. What else is on your mind?";
  "That's something worth exploring! Tell me more about your perspective."
].

Section WithEnvironment.
Variable modelsDir : string.
Variable pathJoin : string -> string -> string.
Variable readdir : outcome string (list string).
Variable llamaAvailable : bool.
Variable loadLlama : string -> outcome string nat.
Variable llamaGlobals : option bool.        (* [getLlama && llamaCppLoaded], see above *)
Variable conversationPrompt : string -> outcome string string.   (* session.prompt *)
(** [Math.floor(Math.random() * responses.length)] *)
Variable randomIndex : nat.

Definition getSimpleConversationalResponse : string :=
  nth randomIndex simpleResponses EmptyString.

Definition conversationalPrompt (input : string) : string :=
  "You are C9AI, a helpful and friendly AI assistant. You can have natural conversations with users. You are knowledgeable, curious, and engaging. Keep responses concise but warm."
  +:+ nl +:+ nl +:+ "User: " +:+ input +:+ nl +:+ "Assistant:".

Definition runLocalAIForConversation (input : string) : L string :=
  do s <- get ;
  (if isReady s then ret tt
   else initLocalModel modelsDir pathJoin readdir llamaAvailable loadLlama) ;;
  tryCatch
    (do s <- get ;
     match llamaGlobals with
     | None => throw "getLlama is not defined"
     | Some false =>
         (* Enhanced pattern-based conversation for fallback mode *)
         ret (getEnhancedConversationalResponse input)
     | Some true =>
         match s with
         | None => throw "Cannot read properties of null (reading 'session')"
         | Some m =>
             if hasSession m && negb (fallbackMode m) then
               emit (Infer (conversationalPrompt input)) ;;
               do response <- lift (conversationPrompt (conversationalPrompt input)) ;
               ret (trim response)
             else ret (getEnhancedConversationalResponse input)
         end
     end)
    (fun _ => ret getSimpleConversationalResponse).

Definition handleConversation (input : string) : L unit :=
  emit (Log ("Conversation mode: " +:+ quoted input)) ;;
  tryCatch
    (do has <- hasLocalModel modelsDir readdir ;
     if (has : bool) then
       do s <- get ;
       match s with
       | None => throw "Cannot read properties of null (reading 'fallbackMode')"
       | Some m =>
           if fallbackMode m then
             emit (Log ("Local AI in fallback mode. Try " +:+ quoted ("@claude " +:+ input)
                        +:+ " or " +:+ quoted ("@gemini " +:+ input)
                        +:+ " for real AI conversation."))
           else
             (* Use actual LLM *)
             do response <- runLocalAIForConversation input ;
             emit (Log response)
       end
     else
       (* Fallback to cloud AI suggestion *)
       emit (Log ("No local model available. Try " +:+ quoted ("@claude " +:+ input)
                  +:+ " or " +:+ quoted ("@gemini " +:+ input)
                  +:+ " for better conversation.")))
    (fun _ =>
       emit (Log ("I'm having trouble understanding. Try " +:+ quoted ("@claude " +:+ input)
                  +:+ " or " +:+ quoted ("@gemini " +:+ input)
                  +:+ " for better conversation."))).

End WithEnvironment.

End Conversation.

(** ** Properties of [handleConversation] *)

Module ConversationFacts.
Import JsString Eff LocalModel LocalModelTools LocalModelMore Conversation.

Section WithEnvironment.
Variable modelsDir : string.
Variable pathJoin : string -> string -> string.
Variable readdir : outcome string (list string).
Variable llamaAvailable : bool.
Variable loadLlama : string -> outcome string nat.
Variable llamaGlobals : option bool.
Variable conversationPrompt : string -> outcome string string.
Variable randomIndex : nat.

Local Abbreviation converse :=
  (handleConversation modelsDir pathJoin readdir llamaAvailable loadLlama llamaGlobals
     conversationPrompt randomIndex).
Local Abbreviation ask :=
  (runLocalAIForConversation modelsDir pathJoin readdir llamaAvailable loadLlama
     llamaGlobals conversationPrompt randomIndex).

Definition modelOnDisk : bool :=
  match readdir with
  | Ok files => existsb isModelFile files
  | Throw _ => false
  end.

Lemma hasLocalModel_run (s : state) :
  hasLocalModel modelsDir readdir s = (Ok modelOnDisk, s, [ReadDir modelsDir]).
Proof.
  unfold hasLocalModel, modelOnDisk, tryCatch, bind, emit, lift, ret.
  destruct readdir as [files|e]; reflexivity.
Qed.

(** X27.  Before the local model has been loaded, conversational input never
    reaches it and never loads it: with a model file in the models
    directory the read of [fallbackMode] on the missing session fails and
    the "trouble understanding" text is shown; without one the "no local
    model" text is shown. *)
Theorem handleConversation_before_the_model_is_loaded (input : string) :
  converse input None
  = (Ok tt, None,
     [Log ("Conversation mode: " +:+ quoted input);
      ReadDir modelsDir;
      Log ((if modelOnDisk then "I'm having trouble understanding. Try "
            else "No local model available. Try ")
           +:+ quoted ("@claude " +:+ input) +:+ " or " +:+ quoted ("@gemini " +:+ input)
           +:+ " for better conversation.")]).
Proof.
  unfold handleConversation. unfold bind at 1, emit at 1.
  unfold tryCatch, bind at 1. rewrite hasLocalModel_run.
  destruct modelOnDisk; reflexivity.
Qed.

(** One call of [runLocalAIForConversation] on a ready session: it
    always answers, asks the model at most once, and asks it only when
    the session can answer. *)
Lemma runLocalAIForConversation_ready (input : string) (s : state) :
  isReady s = true ->
  exists response t,
    ask input s = (Ok response, s, t) /\
    loads t = 0 /\ queries t <= 1 /\
    (queries t = 1 -> usable llamaGlobals s = true).
Proof.
  intros Hready. unfold runLocalAIForConversation.
  unfold bind at 1, get at 1. cbv beta iota zeta. rewrite Hready.
  unfold bind at 1, ret at 1. cbv beta iota zeta.
  unfold tryCatch, bind at 1, get. cbv beta iota zeta.
  unfold usable. destruct llamaGlobals as [[]|].
  - destruct s as [m|]; [| discriminate Hready].
    destruct (hasSession m && negb (fallbackMode m)).
    + unfold bind, emit, lift, ret.
      destruct (conversationPrompt (conversationalPrompt input)) as [response|e];
        eexists _, _; (split; [reflexivity |]);
        (split; [reflexivity |]); (split; [cbn; lia | reflexivity]).
    + eexists _, _. split; [reflexivity |].
      split; [reflexivity |]. split; [cbn; lia | intros H; discriminate H].
  - eexists _, _. split; [reflexivity |].
    split; [reflexivity |]. split; [cbn; lia | intros H; discriminate H].
  - eexists _, _. split; [reflexivity |].
    split; [reflexivity |]. split; [cbn; lia | intros H; discriminate H].
Qed.

Lemma handleConversation_ready (input : string) (s : state) :
  isReady s = true ->
  exists t,
    converse input s = (Ok tt, s, t) /\
    loads t = 0 /\ queries t <= 1 /\
    (queries t = 1 -> modelOnDisk = true /\ usable llamaGlobals s = true).
Proof.
  intros Hready. unfold handleConversation. unfold bind at 1, emit at 1.
  unfold tryCatch, bind at 1. rewrite hasLocalModel_run.
  destruct modelOnDisk.
  2:{ eexists. split; [reflexivity |]. split; [reflexivity |].
      split; [cbn; lia | intros H; discriminate H]. }
  unfold bind at 1, get at 1. cbv beta iota zeta.
  destruct s as [m|]; [| discriminate Hready].
  destruct (fallbackMode m) eqn:Hfb.
  { eexists. split; [reflexivity |]. split; [reflexivity |].
    split; [cbn; lia | intros H; discriminate H]. }
  destruct (runLocalAIForConversation_ready input (Some m) Hready)
    as (response & t & Hask & Hl & Hq & Hu).
  unfold bind at 1. rewrite Hask. unfold emit. cbn [app].
  eexists. split; [reflexivity |].
  assert (Hloads : forall a b, loads (a ++ b) = loads a + loads b).
  { intros a b. unfold loads. rewrite List.filter_app, List.length_app. reflexivity. }
  change (Log ("Conversation mode: " +:+ quoted input)
          :: ReadDir modelsDir :: t ++ [Log response])
    with ([Log ("Conversation mode: " +:+ quoted input); ReadDir modelsDir]
          ++ t ++ [Log response]).
  rewrite !Hloads, !queries_app, Hl.
  change (loads [Log ("Conversation mode: " +:+ quoted input); ReadDir modelsDir]) with 0.
  change (loads [Log response]) with 0.
  change (queries [Log ("Conversation mode: " +:+ quoted input); ReadDir modelsDir]) with 0.
  change (queries [Log response]) with 0.
  split; [reflexivity |]. split; [lia |]. intros H. split; [reflexivity |]. apply Hu. lia.
Qed.

(** X28.  On a ready session [handleConversation] never throws, leaves the
    session as it is, loads nothing, and asks the model at most once,
    and only when a model file is on disk and the session can answer. *)
Theorem handleConversation_is_contained (input : string) (s : state) :
  isReady s = true ->
  result (converse input s) = Ok tt /\
  final (converse input s) = s /\
  loads (trace (converse input s)) = 0 /\
  queries (trace (converse input s)) <= 1 /\
  (queries (trace (converse input s)) = 1 ->
   modelOnDisk = true /\ usable llamaGlobals s = true).
Proof.
  intros Hready.
  destruct (handleConversation_ready input s Hready) as (t & -> & Hl & Hq & Hu).
  unfold result, final, trace. cbn [fst snd]. auto.
Qed.

End WithEnvironment.

Lemma handleConversation_is_contained_witness :
  let r := handleConversation "models" joinWithSlash (Ok ["phi-3.gguf"]) true
             (fun _ => Ok 1) None (fun _ => Ok "Hello there") 3
             "how are things going today" loadedModel in
  result r = Ok tt /\ final r = loadedModel /\ loads (trace r) = 0 /\
  queries (trace r) <= 1 /\
  (queries (trace r) = 1 ->
   modelOnDisk (Ok ["phi-3.gguf"]) = true /\ usable None loadedModel = true).
Proof.
  apply (handleConversation_is_contained "models" joinWithSlash (Ok ["phi-3.gguf"]) true
           (fun _ => Ok 1) None (fun _ => Ok "Hello there") 3
           "how are things going today" loadedModel).
  reflexivity.
Defined.

End ConversationFacts.

(** ** The todo commands ([handleTodos]) *)

Module TodoCommands.
Import JsString Eff.
Local Open Scope eff_scope.

(** The methods [handleTodos] hands over to. *)
Inductive operation : Type :=
| ListTodos
| ExecuteTodos
| AddTodo (task : string)
| ListActions
| SyncTodos.

Inductive event : Type :=
| Log (text : string)
| Call (op : operation).

Section WithEnvironment.
(** Whether the method called returns or throws. *)
Variable perform : operation -> outcome string unit.

Definition call (op : operation) : M unit string event unit :=
  emit (Call op) ;; lift (perform op).

(** [handleTodos(action = 'list', task)]; [None] is a missing argument. *)
Definition handleTodos (action : option string) (task : list string)
  : M unit string event unit :=
  let action := match action with Some a => a | None => "list" end in
  emit (Log "Todo Management") ;;
  if String.eqb action "list" then call ListTodos
  else if String.eqb action "execute" then call ExecuteTodos
  else if String.eqb action "add" then
    if List.length task =? 0 then
      emit (Log "Please provide a task description. Usage: todos add <your task here>")
    else call (AddTodo (join " " task))
  else if String.eqb action "actions" then call ListActions
  else if String.eqb action "sync" then call SyncTodos
  else
    (* If the action doesn't match, assume it's part of a task description for 'add' *)
    call (AddTodo (join " " (action :: task))).

End WithEnvironment.

Definition called (t : list event) : list operation :=
  flat_map (fun ev => match ev with Call op => [op] | _ => [] end) t.

Definition todoActions : list string := ["list"; "execute"; "add"; "actions"; "sync"].

End TodoCommands.

(** ** Properties of the todo commands *)

Module TodoCommandsFacts.
Import JsString JsStringFacts JsStringMore Eff Router RouterMore TodoCommands.

Lemma split_not_empty (sep : ascii) (s : string) : split sep s <> [].
Proof.
  destruct s as [|c s]; [discriminate |]. rewrite split_cons.
  destruct (Ascii.eqb c sep); [discriminate |]. destruct (split sep s); discriminate.
Qed.

Section WithEnvironment.
Variable homedir : string.
Variable chdir : string -> outcome string string.
Variable handler : Router.call -> outcome string unit.
Variable perform : operation -> outcome string unit.

Local Abbreviation route := (handleCommand homedir chdir handler).
Local Abbreviation todos := (handleTodos perform).

(** The router on a line that starts with a plain word. *)
Lemma route_word (c : ascii) (w text : string) :
  isWordChar (lowerChar c) = true -> includes " " (String c w) = false ->
  invoked (trace (route (String c w +:+ " " +:+ text) tt))
  = invoked (trace (namedSwitch handler (String c w +:+ " " +:+ text) (String c w)
                      (split " " text) tt)).
Proof.
  intros Hc Hblank. destruct (letter_is_no_sigil c Hc) as [Hbang Hat].
  unfold handleCommand, dispatch.
  change (String c w +:+ " " +:+ text) with (String c (w +:+ " " +:+ text)).
  rewrite (startsWith_other "!" c _ Hbang), (startsWith_other "@" c _ Hat).
  change (String c (w +:+ " " +:+ text)) with (String c w +:+ " " +:+ text).
  rewrite (split_first_word _ text Hblank). cbn [hd tl].
  unfold tryCatch, bind at 1, ret at 1. cbv beta iota zeta.
  destruct (namedSwitch handler _ _ _ tt) as [[[[]|e] s] t]; unfold trace, emit;
    cbn [snd app].
  - reflexivity.
  - unfold invoked. rewrite flat_map_app. cbn [flat_map app]. apply app_nil_r.
Qed.

Lemma invoke_invoked (c : Router.call) :
  invoked (trace (invoke handler c tt)) = [c].
Proof.
  unfold invoke, bind, emit, lift, trace. destruct (handler c) as [[]|e]; reflexivity.
Qed.

Lemma call_called (op : operation) :
  called (trace (bind (emit (Log "Todo Management")) (fun _ => call perform op) tt)) = [op].
Proof.
  unfold call, bind, emit, lift, trace. destruct (perform op) as [[]|e]; reflexivity.
Qed.


End WithEnvironment.


End TodoCommandsFacts.
